(** * Trust-region constrained combinatorial optimisers

    A shallow embedding of

    - [comb_opt/trust_region/tr_manager_base.py]  (module [TrManager]),
    - [comb_opt/optimizers/genetic_algorithm.py]  (module [GA]),
    - [comb_opt/optimizers/multi_armed_bandit.py] (module [MAB]),

    followed by the properties established about them.

    Conventions.  Encoded samples are rows of integers ([list Z]): the
    tensors of the source hold category indices.  A Python exception is the
    outcome [Raise].  The global random generator of numpy is replaced by an
    explicit tape of draws that the random primitives consume; a tape that
    ends, or whose next entry is not a value the primitive can return, gives
    the outcome [NoDraw].  The [while] loops of the source run on a fuel of
    one more than the number of draws left, and stop with [NoDraw] when
    the tape cannot feed them.  Objective values are compared only in the genetic
    algorithm, where they are rationals ([Q]) so that a generation step runs
    inside Rocq; the bandit needs [exp], [ln] and [sqrt], so its objective
    values, rewards and weights are real numbers ([R]): rounding of the
    floating-point tensors is not modelled.  A float that numpy leaves at
    [inf] or [NaN] without raising is no real number: a call that computes
    one has the outcome [NotFinite]. *)

From Stdlib Require Import ZArith List Bool Lia QArith Qminmax Reals Lra String Sorted.
From stdpp Require Import gmap strings.
Import ListNotations.

Open Scope Z_scope.

(** ** Outcomes of a call *)

Inductive res (A : Type) : Type :=
| Ok (a : A)
| Raise
| NoDraw
| NotFinite.

Arguments Ok {A} a.
Arguments Raise {A}.
Arguments NoDraw {A}.
Arguments NotFinite {A}.

Definition res_bind {A B : Type} (m : res A) (k : A -> res B) : res B :=
  match m with
  | Ok a => k a
  | Raise => Raise
  | NoDraw => NoDraw
  | NotFinite => NotFinite
  end.

Definition of_option {A : Type} (o : option A) : res A :=
  match o with
  | Some a => Ok a
  | None => Raise
  end.

(** [assert c] of Python. *)
Definition py_assert (c : bool) : res unit :=
  if c then Ok tt else Raise.

(** A float that is a finite number when [c] holds, and [inf] or [NaN]
    otherwise. *)
Definition py_finite (c : bool) : res unit :=
  if c then Ok tt else NotFinite.

(** ** External collaborators *)

Definition sample : Type := list Z.

(** Modelled from the spec: the class [SearchSpace] (comb_opt/search_space)
    is not part of the sources; the record keeps the attributes the three
    modules read: dimensionality, the nominal/ordinal partition with the
    positions of each class, and the per-dimension category bounds.  The
    transform between structured and encoded samples is taken as the
    identity on encoded rows. *)
Record SearchSpace : Type := {
  num_dims : Z;
  num_nominal : Z;
  num_ordinal : Z;
  nominal_dims : list nat;
  ordinal_dims : list nat;
  nominal_lb : list Z;
  nominal_ub : list Z;
  ordinal_lb : list Z;
  ordinal_ub : list Z
}.

(** Modelled from the spec: the class [DataBuffer] (comb_opt/utils) is not
    part of the sources; it is the append-only observation store whose
    accessors [x] and [y] return all rows observed so far. *)
Record DataBuffer (Y : Type) : Type := {
  buf_x : list sample;
  buf_y : list Y
}.

Arguments buf_x {Y} _.
Arguments buf_y {Y} _.

Definition buffer_empty {Y : Type} : DataBuffer Y :=
  {| buf_x := []; buf_y := [] |}.

(** Modelled from the spec: [DataBuffer.append] adds the rows at the end. *)
Definition buffer_append {Y : Type} (b : DataBuffer Y) (x : list sample) (y : list Y)
  : DataBuffer Y :=
  {| buf_x := buf_x b ++ x; buf_y := buf_y b ++ y |}.

(** Modelled from the spec: [hamming_distance] (comb_opt/utils) with
    [normalize=False] is the count of coordinates differing between two
    samples. *)
Fixpoint hamming_distance (a b : sample) : Z :=
  match a, b with
  | u :: a', v :: b' => (if u =? v then 0 else 1) + hamming_distance a' b'
  | _, _ => 0
  end.

(** Positions at which [x] differs from [c]:
    [[i for i, x in enumerate(mask) if x]] with [mask = x != c]. *)
Fixpoint differing_from (i : nat) (x c : sample) : list nat :=
  match x, c with
  | u :: x', v :: c' =>
      if u =? v then differing_from (S i) x' c' else i :: differing_from (S i) x' c'
  | _, _ => []
  end.

(** * tr_manager_base.py *)

Module TrManager.

Record t : Type := {
  radii : gmap string Z;
  min_radii : gmap string Z;
  max_radii : gmap string Z;
  init_radii : gmap string Z;
  variable_types : list string;
  _center : option sample;
  search_space : SearchSpace;
  data_buffer : DataBuffer Q
}.

(** [__init__] *)
Definition init (ss : SearchSpace) : t :=
  {| radii := ∅; min_radii := ∅; max_radii := ∅; init_radii := ∅;
     variable_types := []; _center := None;
     search_space := ss; data_buffer := buffer_empty |}.

Definition set_center (m : t) (center : option sample) : res t :=
  match center with
  | None =>
      Ok {| radii := radii m; min_radii := min_radii m; max_radii := max_radii m;
            init_radii := init_radii m; variable_types := variable_types m;
            _center := None;
            search_space := search_space m; data_buffer := data_buffer m |}
  | Some c =>
      res_bind (py_assert (Z.of_nat (length c) =? num_dims (search_space m))) (fun _ =>
      Ok {| radii := radii m; min_radii := min_radii m; max_radii := max_radii m;
            init_radii := init_radii m; variable_types := variable_types m;
            _center := Some c;
            search_space := search_space m; data_buffer := data_buffer m |})
  end.

(** The property [center]: a copy of the stored centre. *)
Definition center (m : t) : option sample := _center m.

Definition register_radius (m : t) (variable_type : string)
    (min_radius max_radius init_radius : Z) : res t :=
  res_bind (py_assert ((min_radius <? init_radius) && (init_radius <=? max_radius))) (fun _ =>
  Ok {| radii := <[variable_type := init_radius]> (radii m);
        min_radii := <[variable_type := min_radius]> (min_radii m);
        max_radii := <[variable_type := max_radius]> (max_radii m);
        init_radii := <[variable_type := init_radius]> (init_radii m);
        variable_types := variable_types m ++ [variable_type];
        _center := _center m;
        search_space := search_space m; data_buffer := data_buffer m |}).

Definition append (m : t) (x : list sample) (y : list Q) : t :=
  {| radii := radii m; min_radii := min_radii m; max_radii := max_radii m;
     init_radii := init_radii m; variable_types := variable_types m;
     _center := _center m;
     search_space := search_space m;
     data_buffer := buffer_append (data_buffer m) x y |}.

(** The loop of [restart_tr]:
    [for var_type in self.variable_types: self.radii[var_type] = self.init_radii[var_type]]. *)
Fixpoint reset_radii (vts : list string) (init : gmap string Z) (r : gmap string Z)
  : res (gmap string Z) :=
  match vts with
  | [] => Ok r
  | v :: vts' =>
      res_bind (of_option (init !! v)) (fun i =>
      reset_radii vts' init (<[v := i]> r))
  end.

Definition restart_tr (m : t) : res t :=
  res_bind (reset_radii (variable_types m) (init_radii m) (radii m)) (fun r =>
  Ok {| radii := r; min_radii := min_radii m; max_radii := max_radii m;
        init_radii := init_radii m; variable_types := variable_types m;
        _center := None;
        search_space := search_space m; data_buffer := buffer_empty |}).

Definition get_nominal_radius (m : t) : res Z :=
  if num_nominal (search_space m) =? 1 then Ok 1
  else
    res_bind (py_assert (bool_decide (is_Some (radii m !! "nominal")))) (fun _ =>
    of_option (radii m !! "nominal")).

(** The calls of the base class that change a manager. *)
Inductive call : Type :=
| CSetCenter (center : option sample)
| CRegisterRadius (variable_type : string) (min_radius max_radius init_radius : Z)
| CAppend (x : list sample) (y : list Q)
| CRestartTr.

Definition run_call (m : t) (c : call) : res t :=
  match c with
  | CSetCenter ce => set_center m ce
  | CRegisterRadius v lo hi i => register_radius m v lo hi i
  | CAppend x y => Ok (append m x y)
  | CRestartTr => restart_tr m
  end.

(** A history of calls on a manager; a call that raises leaves the manager
    as it was (its caller sees the exception, the object is unchanged). *)
Fixpoint run (m : t) (cs : list call) : t :=
  match cs with
  | [] => m
  | c :: cs' =>
      match run_call m c with
      | Ok m' => run m' cs'
      | _ => run m cs'
      end
  end.

(** Whether a call is a registration of the radius "nominal" that passes
    the assertion of [register_radius]. *)
Definition registers_nominal (c : call) : bool :=
  match c with
  | CRegisterRadius v lo hi i =>
      bool_decide (v = "nominal"%string) && ((lo <? i) && (i <=? hi))
  | _ => false
  end.

(** The radius that the last successful registration of "nominal" in a
    history of calls gave, starting from [acc]. *)
Fixpoint last_nominal (cs : list call) (acc : option Z) : option Z :=
  match cs with
  | [] => acc
  | c :: cs' =>
      last_nominal cs'
        (match c with
         | CRegisterRadius _ _ _ init_radius =>
             if registers_nominal c then Some init_radius else acc
         | _ => acc
         end)
  end.

(** The states the base class produces: every radius is at its initial
    value and every registered type has one. *)
Definition consistent (m : t) : Prop :=
  radii m = init_radii m /\
  Forall (fun v => is_Some (init_radii m !! v)) (variable_types m).

(** Every registered type has its bounds and initial radius stored, the
    initial radius lying above the minimum and not above the maximum. *)
Definition registered_within_bounds (m : t) : Prop :=
  forall v, In v (variable_types m) ->
    exists lo hi i,
      min_radii m !! v = Some lo /\ max_radii m !! v = Some hi /\
      init_radii m !! v = Some i /\ lo < i <= hi.

(** The assignment [self.radii[variable_type] = radius], which the
    subclasses perform in [adjust_tr_radii]. *)
Definition with_radius (m : t) (variable_type : string) (radius : Z) : t :=
  {| radii := <[variable_type := radius]> (radii m);
     min_radii := min_radii m; max_radii := max_radii m;
     init_radii := init_radii m; variable_types := variable_types m;
     _center := _center m;
     search_space := search_space m; data_buffer := data_buffer m |}.

(** Modelled from the spec: [adjust_tr_radii] is abstract in the base
    class, its body being [pass]; by its docstring an implementation
    updates each radius stored in [self.radii], shrinking or growing it.
    [f] gives the new radius of a variable type from the radius it has;
    it stands for the policy of the subclass and the observations it is
    given. *)
Definition adjust_tr_radii (m : t) (f : string -> Z -> Z) : t :=
  {| radii := map_imap (fun v r => Some (f v r)) (radii m);
     min_radii := min_radii m; max_radii := max_radii m;
     init_radii := init_radii m; variable_types := variable_types m;
     _center := _center m;
     search_space := search_space m; data_buffer := data_buffer m |}.

(** A step in the life of a manager: a call of the base class, or an
    adjustment of the radii by the subclass. *)
Inductive step : Type :=
| SCall (c : call)
| SAdjustTrRadii (f : string -> Z -> Z).

Definition run_step (m : t) (s : step) : res t :=
  match s with
  | SCall c => run_call m c
  | SAdjustTrRadii f => Ok (adjust_tr_radii m f)
  end.

(** A history of steps; a call that raises leaves the manager as it was. *)
Fixpoint run_steps (m : t) (sts : list step) : t :=
  match sts with
  | [] => m
  | s :: sts' =>
      match run_step m s with
      | Ok m' => run_steps m' sts'
      | _ => run_steps m sts'
      end
  end.

(** Whether some step of a history is a registration of "nominal" that
    passes the assertion. *)
Definition ever_registered (sts : list step) : bool :=
  existsb (fun s => match s with
                    | SCall c => registers_nominal c
                    | SAdjustTrRadii _ => false
                    end) sts.

(** The radius "nominal" in force after a history of steps: [cur] is the
    radius in force before it and [ini] the initial radius of the latest
    registration.  A registration that passes sets both, an adjustment
    changes the radius in force, a restart puts it back to the initial
    one. *)
Fixpoint nominal_in_force (sts : list step) (cur ini : option Z) : option Z :=
  match sts with
  | [] => cur
  | SCall (CRegisterRadius v lo hi i) :: sts' =>
      if registers_nominal (CRegisterRadius v lo hi i)
      then nominal_in_force sts' (Some i) (Some i)
      else nominal_in_force sts' cur ini
  | SCall CRestartTr :: sts' =>
      nominal_in_force sts' (match ini with Some i => Some i | None => cur end) ini
  | SCall _ :: sts' => nominal_in_force sts' cur ini
  | SAdjustTrRadii f :: sts' =>
      nominal_in_force sts' (option_map (f "nominal"%string) cur) ini
  end.

(** What a history has made of the radius "nominal": the stored radius
    and initial radius are the tracked ones, every registered type has an
    initial radius, and "nominal" is registered exactly when it has
    one. *)
Definition tracks (m : t) (cur ini : option Z) : Prop :=
  radii m !! "nominal" = cur /\ init_radii m !! "nominal" = ini /\
  Forall (fun v => is_Some (init_radii m !! v)) (variable_types m) /\
  (In "nominal"%string (variable_types m) <-> is_Some ini).

End TrManager.

(** * The random source *)

(** One value handed out by numpy's generator. *)
Inductive draw : Type :=
| DInt (n : Z)                (* np.random.randint *)
| DUnit (u : Q)               (* np.random.random *)
| DPick (i : nat)             (* np.random.choice(a): position of the element *)
| DSubset (sel : list nat).   (* np.random.choice(a, size, replace=False) *)

(** Computations that read the tape of draws. *)
Definition Rand (A : Type) : Type := list draw -> res (A * list draw).

Definition ret {A : Type} (a : A) : Rand A := fun tape => Ok (a, tape).

Definition bind {A B : Type} (m : Rand A) (k : A -> Rand B) : Rand B :=
  fun tape =>
    match m tape with
    | Ok (a, tape') => k a tape'
    | Raise => Raise
    | NoDraw => NoDraw
    | NotFinite => NotFinite
    end.

Definition lift {A : Type} (r : res A) : Rand A :=
  fun tape =>
    match r with
    | Ok a => Ok (a, tape)
    | Raise => Raise
    | NoDraw => NoDraw
    | NotFinite => NotFinite
    end.

Declare Scope rand_scope.
Delimit Scope rand_scope with rand.
Notation "'let*' x := m 'in' k" := (bind m (fun x => k))
  (at level 10, x name, m at level 100, k at level 200) : rand_scope.

(** [np.random.randint(low, high)]: an integer of [[low, high)]; raises
    when the interval is empty. *)
Definition randint (low high : Z) : Rand Z :=
  fun tape =>
    if high <=? low then Raise
    else match tape with
         | DInt n :: tape' => if (low <=? n) && (n <? high) then Ok (n, tape') else NoDraw
         | _ => NoDraw
         end.

Definition Qlt_bool (a b : Q) : bool := negb (Qle_bool b a).

(** [np.random.random()]: a number of [[0, 1)]. *)
Definition random : Rand Q :=
  fun tape =>
    match tape with
    | DUnit u :: tape' =>
        if Qle_bool 0 u && Qlt_bool u 1 then Ok (u, tape') else NoDraw
    | _ => NoDraw
    end.

(** [np.random.choice(a)]: one element of [a]; raises when [a] is empty. *)
Definition choice {A : Type} (a : list A) : Rand A :=
  fun tape =>
    match a with
    | [] => Raise
    | _ :: _ =>
        match tape with
        | DPick i :: tape' =>
            match a !! i with
            | Some v => Ok (v, tape')
            | None => NoDraw
            end
        | _ => NoDraw
        end
    end.

Fixpoint nodupb (l : list nat) : bool :=
  match l with
  | [] => true
  | a :: l' => negb (existsb (Nat.eqb a) l') && nodupb l'
  end.

(** [np.random.choice(a, size=size, replace=False)]: [size] distinct
    elements of [a]; raises when [size] is negative or exceeds [len(a)]. *)
Definition choice_subset (a : list nat) (size : Z) : Rand (list nat) :=
  fun tape =>
    if (size <? 0) || (Z.of_nat (length a) <? size) then Raise
    else match tape with
         | DSubset sel :: tape' =>
             if (Z.of_nat (length sel) =? size) && nodupb sel
                && forallb (fun i => existsb (Nat.eqb i) a) sel
             then Ok (sel, tape') else NoDraw
         | _ => NoDraw
         end.

(** * Python sequences *)

(** [l[:n]] *)
Definition py_take {A : Type} (n : Z) (l : list A) : list A :=
  if 0 <=? n then take (Z.to_nat n) l
  else take (length l - Z.to_nat (- n)) l.

(** The position [l[i]] refers to: negative indices count from the end. *)
Definition py_pos {A : Type} (l : list A) (i : Z) : option nat :=
  let n := Z.of_nat (length l) in
  if (0 <=? i) && (i <? n) then Some (Z.to_nat i)
  else if (- n <=? i) && (i <? 0) then Some (Z.to_nat (n + i))
  else None.

(** [l[i]], an IndexError out of range. *)
Definition py_get {A : Type} (l : list A) (i : Z) : res A :=
  match py_pos l i with
  | Some k => of_option (l !! k)
  | None => Raise
  end.

(** [l[i] = v], an IndexError out of range. *)
Definition py_set {A : Type} (l : list A) (i : Z) (v : A) : res (list A) :=
  match py_pos l i with
  | Some k => Ok (<[k := v]> l)
  | None => Raise
  end.

(** [range(lo, hi)] *)
Definition py_range (lo hi : Z) : list Z :=
  map (fun k => lo + Z.of_nat k) (seq 0 (Z.to_nat (hi - lo))).

(** [m.index(i)], a ValueError when [i] is absent. *)
Fixpoint list_index (i : nat) (m : list nat) : option nat :=
  match m with
  | [] => None
  | a :: m' => if Nat.eqb a i then Some 0%nat else option_map S (list_index i m')
  end.

(** [[f(i) for i in l]] where [f] may raise. *)
Fixpoint map_res {A B : Type} (f : A -> res B) (l : list A) : res (list B) :=
  match l with
  | [] => Ok []
  | a :: l' =>
      res_bind (f a) (fun b => res_bind (map_res f l') (fun bs => Ok (b :: bs)))
  end.

(** [x[cols]] on one row: the row gathered along a list of positions. *)
Definition gather (row : sample) (cols : list nat) : res sample :=
  map_res (fun k => of_option (row !! k)) cols.

(** Equality of two rows, [(a == b).all()]. *)
Fixpoint row_eqb (a b : sample) : bool :=
  match a, b with
  | [], [] => true
  | u :: a', v :: b' => (u =? v) && row_eqb a' b'
  | _, _ => false
  end.

(** [torch.logical_not((c == rows).all(axis=1)).all()]: [c] is none of [rows]. *)
Definition not_among (c : sample) (rows : list sample) : bool :=
  forallb (fun r => negb (row_eqb c r)) rows.

(** * genetic_algorithm.py *)

Module GA.

(** The optimiser.  The source keeps a reference to the trust-region
    manager and a copy of its centre taken at construction; the record
    holds the state of the manager, which no method of this class
    changes. *)
Record t : Type := {
  search_space : SearchSpace;
  pop_size : Z;
  num_parents : Z;
  num_elite : Z;
  store_observations : bool;
  allow_repeating_suggestions : bool;
  tr_manager : option TrManager.t;
  tr_center : option sample;
  x_pop : list sample;
  y_pop : list Q;
  x_elite : option (list sample);
  y_elite : option (list Q);
  x_queue : list sample;
  map_to_canonical : list nat;
  map_to_original : list nat;
  lb : list Z;
  ub : list Z;
  data_buffer : DataBuffer Q;
  best_y : option Q;
  _best_x : option sample
}.

(** The assignments of [observe]. *)
Definition with_observation (g : t) (buf : DataBuffer Q) (xp : list sample) (yp : list Q)
    (by_ : option Q) (bx : option sample) : t :=
  {| search_space := search_space g; pop_size := pop_size g;
     num_parents := num_parents g; num_elite := num_elite g;
     store_observations := store_observations g;
     allow_repeating_suggestions := allow_repeating_suggestions g;
     tr_manager := tr_manager g; tr_center := tr_center g;
     x_pop := xp; y_pop := yp;
     x_elite := x_elite g; y_elite := y_elite g;
     x_queue := x_queue g;
     map_to_canonical := map_to_canonical g; map_to_original := map_to_original g;
     lb := lb g; ub := ub g;
     data_buffer := buf; best_y := by_; _best_x := bx |}.

(** The assignments of [_generate_new_population]. *)
Definition with_generation (g : t) (xe : list sample) (ye : list Q) (queue : list sample) : t :=
  {| search_space := search_space g; pop_size := pop_size g;
     num_parents := num_parents g; num_elite := num_elite g;
     store_observations := store_observations g;
     allow_repeating_suggestions := allow_repeating_suggestions g;
     tr_manager := tr_manager g; tr_center := tr_center g;
     x_pop := []; y_pop := [];
     x_elite := Some xe; y_elite := Some ye;
     x_queue := queue;
     map_to_canonical := map_to_canonical g; map_to_original := map_to_original g;
     lb := lb g; ub := ub g;
     data_buffer := data_buffer g; best_y := best_y g; _best_x := _best_x g |}.

(** The assignment [self.x_queue = ...] of [method_suggest] and [set_x_init]. *)
Definition with_queue (g : t) (queue : list sample) : t :=
  {| search_space := search_space g; pop_size := pop_size g;
     num_parents := num_parents g; num_elite := num_elite g;
     store_observations := store_observations g;
     allow_repeating_suggestions := allow_repeating_suggestions g;
     tr_manager := tr_manager g; tr_center := tr_center g;
     x_pop := x_pop g; y_pop := y_pop g;
     x_elite := x_elite g; y_elite := y_elite g;
     x_queue := queue;
     map_to_canonical := map_to_canonical g; map_to_original := map_to_original g;
     lb := lb g; ub := ub g;
     data_buffer := data_buffer g; best_y := best_y g; _best_x := _best_x g |}.

(** [__init__].  [sampled] stands for what the external samplers return:
    [search_space.sample(pop_size)] without a trust region,
    [sample_numeric_and_nominal_within_tr(..., n_points=pop_size - 1)]
    with one. *)
Definition init (ss : SearchSpace) (pop_size num_parents num_elite : Z)
    (store_observations allow_repeating_suggestions : bool)
    (tr_manager : option TrManager.t) (sampled : list sample) : res t :=
  res_bind (py_assert (num_nominal ss + num_ordinal ss =? num_dims ss)) (fun _ =>
  res_bind
    (match tr_manager with
     | Some m =>
         res_bind (py_assert (bool_decide (is_Some (TrManager.radii m !! "nominal")))) (fun _ =>
         py_assert (bool_decide (is_Some (TrManager.center m))))
     | None => Ok tt
     end) (fun _ =>
  let tr_center :=
    match tr_manager with
    | None => None
    | Some m => TrManager.center m
    end in
  let num_elite := if negb (num_elite mod 2 =? 0) then num_elite + 1 else num_elite in
  res_bind (py_assert (num_elite <=? num_parents)) (fun _ =>
  res_bind
    (match tr_manager with
     | Some m =>
         res_bind (of_option tr_center) (fun c =>
         Ok (c :: (if 0 <? pop_size - 1 then sampled else [])))
     | None => Ok sampled
     end) (fun queue =>
  let map_to_canonical := nominal_dims ss ++ ordinal_dims ss in
  res_bind
    (map_res (fun i => of_option (list_index i map_to_canonical))
             (seq 0 (length map_to_canonical))) (fun map_to_original =>
  Ok {| search_space := ss; pop_size := pop_size;
        num_parents := num_parents; num_elite := num_elite;
        store_observations := store_observations;
        allow_repeating_suggestions := allow_repeating_suggestions;
        tr_manager := tr_manager; tr_center := tr_center;
        x_pop := []; y_pop := [];
        x_elite := None; y_elite := None;
        x_queue := queue;
        map_to_canonical := map_to_canonical; map_to_original := map_to_original;
        lb := nominal_lb ss ++ ordinal_lb ss;
        ub := nominal_ub ss ++ ordinal_ub ss;
        data_buffer := buffer_empty; best_y := None; _best_x := None |}))))).

(** [y.flatten().argmin()] with the row of [x] at that position: the
    first minimal value. *)
Fixpoint argmin_row (x : list sample) (y : list Q) : option (sample * Q) :=
  match x, y with
  | xi :: x', yi :: y' =>
      match argmin_row x' y' with
      | Some (xj, yj) => if Qle_bool yi yj then Some (xi, yi) else Some (xj, yj)
      | None => Some (xi, yi)
      end
  | _, _ => None
  end.

Definition observe (g : t) (x : list sample) (y : list Q) : res t :=
  res_bind (py_assert (Nat.eqb (length x) (length y))) (fun _ =>
  let buf :=
    if store_observations g || negb (allow_repeating_suggestions g)
    then buffer_append (data_buffer g) x y
    else data_buffer g in
  let xp := x_pop g ++ x in
  let yp := y_pop g ++ y in
  res_bind (of_option (argmin_row x y)) (fun '(bx, y_) =>
  match best_y g with
  | None => Ok (with_observation g buf xp yp (Some y_) (Some bx))
  | Some b =>
      if Qlt_bool y_ b
      then Ok (with_observation g buf xp yp (Some y_) (Some bx))
      else Ok (with_observation g buf xp yp (best_y g) (_best_x g))
  end)).

(** ** Sorting and the fitness distribution *)

Fixpoint insert_by_y (p : sample * Q) (l : list (sample * Q)) : list (sample * Q) :=
  match l with
  | [] => [p]
  | q :: l' => if Qle_bool (snd p) (snd q) then p :: l else q :: insert_by_y p l'
  end.

(** The order of rows by objective value. *)
Definition y_le (p q : sample * Q) : Prop := (snd p <= snd q)%Q.

(** Rows reordered by [argsort] of their objective values. *)
Definition sort_by_y (l : list (sample * Q)) : list (sample * Q) :=
  foldr insert_by_y [] l.

Fixpoint cumsum_from (acc : Q) (l : list Q) : list Q :=
  match l with
  | [] => []
  | a :: l' => (acc + a)%Q :: cumsum_from (acc + a)%Q l'
  end.

Definition Qsum (l : list Q) : Q := fold_left Qplus l 0%Q.

(** [cum_prob] as computed from [y_sorted]; [y_sorted[0]] raises on an
    empty population. *)
Definition cum_prob (y_sorted : list Q) : res (list Q) :=
  match y_sorted with
  | [] => Raise
  | min_y :: rest =>
      let norm_y :=
        if Qlt_bool min_y 0 then map (fun v => (v + Qabs.Qabs min_y)%Q) y_sorted
        else y_sorted in
      let max_y := match norm_y with [] => 0%Q | a :: l => fold_left Qmax l a end in
      let norm_y := map (fun v => (max_y - v + 1)%Q) norm_y in
      let sum_norm_y := Qsum norm_y in
      Ok (cumsum_from 0%Q (map (fun v => (v / sum_norm_y)%Q) norm_y))
  end.

(** [np.searchsorted(a, v)] on an ascending [a]: the number of entries
    below [v]. *)
Fixpoint searchsorted (a : list Q) (v : Q) : nat :=
  match a with
  | [] => 0%nat
  | c :: a' => if Qlt_bool c v then S (searchsorted a' v) else 0%nat
  end.

(** ** Elitism *)

(** The minimum of a list of objective values, [None] when it is empty. *)
Fixpoint ymin (l : list Q) : option Q :=
  match l with
  | [] => None
  | a :: l' =>
      match ymin l' with
      | Some m => if Qle_bool a m then Some a else Some m
      | None => Some a
      end
  end.

(** The new elite set, from the present one and the sorted population. *)
Definition update_elite (num_elite : Z) (xe : option (list sample)) (ye : option (list Q))
    (sorted : list (sample * Q)) : res (list (sample * Q)) :=
  let top := py_take num_elite sorted in
  match xe, ye with
  | None, None => Ok top
  | Some xe, Some ye =>
      let x_elite := xe ++ map fst top in
      let y_elite := ye ++ map snd top in
      Ok (py_take num_elite (sort_by_y (combine x_elite y_elite)))
  | _, _ => Raise
  end.

(** ** Crossover *)

Open Scope rand_scope.

(** [x1_ = x1.clone(); x1_[:idx] = x2[:idx]] *)
Definition splice (idx : Z) (x1 x2 : sample) : sample :=
  py_take idx x2 ++ drop (length (py_take idx x1)) x1.

(** [x[indices] = c[indices]] *)
Definition reset_to (x c : sample) (indices : list nat) : sample :=
  fold_left (fun acc i => match c !! i with Some v => <[i := v]> acc | None => acc end)
            indices x.

(** Projection of one child on the trust region, given its distance [d]
    to the centre. *)
Definition project (m : TrManager.t) (c : sample) (x : sample) (d : Z) : Rand sample :=
  let* r := lift (TrManager.get_nominal_radius m) in
  if r <? d then
    let* r' := lift (TrManager.get_nominal_radius m) in
    let* indices := choice_subset (differing_from 0 x c) (d - r') in
    ret (reset_to x c indices)
  else ret x.

Definition _crossover (g : t) (x1 x2 : sample) : Rand (sample * sample) :=
  let ss := search_space g in
  let* _ := lift (py_assert (num_ordinal ss + num_nominal ss =? num_dims ss)) in
  match tr_manager g with
  | Some m =>
      let* idx := randint 1 (num_dims ss - 1) in
      let x1_ := splice idx x1 x2 in
      let x2_ := splice idx x2 x1 in
      let* c := lift (of_option (tr_center g)) in
      let d_x1 := hamming_distance c x1_ in
      let d_x2 := hamming_distance c x2_ in
      let* x1_ := project m c x1_ d_x1 in
      let* x2_ := project m c x2_ d_x2 in
      ret (x1_, x2_)
  | None =>
      let* idx := randint 1 (num_dims ss - 1) in
      ret (splice idx x1 x2, splice idx x2 x1)
  end.

(** ** Mutation *)

(** [[j for j in range(int(lb[idx]), int(ub[idx])) if j != x[i, idx]]] *)
Definition categories (lbi ubi cur : Z) : list Z :=
  List.filter (fun j => negb (j =? cur)) (py_range lbi ubi).

(** One draw of a coordinate and of a category for it: [row] is [x[i]],
    [xr] is [x_[i]]. *)
Definition mutate_draw (g : t) (row xr : sample) : Rand sample :=
  let* idx := randint 0 (num_dims (search_space g)) in
  let* lbi := lift (py_get (lb g) idx) in
  let* ubi := lift (py_get (ub g) idx) in
  let* cur := lift (py_get row idx) in
  let* cat := choice (categories lbi ubi cur) in
  lift (py_set xr idx cat).

(** The loop [while not done] of the trust-region branch. *)
Fixpoint mutate_row_tr (fuel : nat) (g : t) (m : TrManager.t) (row xr : sample)
  : Rand sample :=
  match fuel with
  | O => fun _ => NoDraw
  | S fuel' =>
      let* cand := mutate_draw g row xr in
      let* c := lift (of_option (tr_center g)) in
      let* r := lift (of_option (TrManager.radii m !! "nominal")) in
      if hamming_distance c cand <=? r then ret cand
      else mutate_row_tr fuel' g m row xr
  end.

(** The loop [for i in range(len(x))]: [x] paired with [x_], row by row. *)
Fixpoint mutate_rows (g : t) (rows : list (sample * sample)) : Rand (list sample) :=
  match rows with
  | [] => ret []
  | (row, xr) :: rows' =>
      let* r :=
        match tr_manager g with
        | Some m => fun tape => mutate_row_tr (S (length tape)) g m row xr tape
        | None => mutate_draw g row xr
        end in
      let* rs := mutate_rows g rows' in
      ret (r :: rs)
  end.

Definition _mutate (g : t) (x : list sample) : Rand (list sample) :=
  let ss := search_space g in
  let* _ := lift (py_assert (num_ordinal ss + num_nominal ss =? num_dims ss)) in
  let* x_ := lift (map_res (fun row => gather row (map_to_canonical g)) x) in
  let* x_ := mutate_rows g (combine x x_) in
  lift (map_res (fun row => gather row (map_to_original g)) x_).

(** ** The generation step *)

(** [_mutate] on the one-row tensor of a child. *)
Definition mutate_child (g : t) (ch : sample) : Rand sample :=
  let* rows := _mutate g [ch] in
  match rows with
  | [r] => ret r
  | _ => lift Raise
  end.

(** A population under construction: a row is [None] while it still holds
    the NaN it was filled with. *)
Definition not_in_pop (c : sample) (pop : list (option sample)) : bool :=
  forallb (fun r => match r with Some r => negb (row_eqb c r) | None => true end) pop.

(** [r1, r2 = randint, randint; _crossover(parents[r1], parents[r2])] *)
Definition fresh_crossover (g : t) (parents : list (option sample)) : Rand (sample * sample) :=
  let* r1 := randint 0 (num_parents g) in
  let* r2 := randint 0 (num_parents g) in
  let* pvar1 := lift (res_bind (py_get parents r1) of_option) in
  let* pvar2 := lift (res_bind (py_get parents r2) of_option) in
  _crossover g pvar1 pvar2.

(** The uniqueness test of a mutated child against what was observed, or
    against the elite set when repetitions are allowed. *)
Definition is_new (g : t) (xe : list sample) (c : sample) : bool :=
  if negb (allow_repeating_suggestions g)
  then not_among c (buf_x (data_buffer g))
  else not_among c xe.

(** [while not done] for the first child; returns [_ch1] and the current
    second child. *)
Fixpoint child1_loop (fuel : nat) (g : t) (xe : list sample)
    (parents pop : list (option sample)) (ch1 ch2 : sample) (counter : Z)
  : Rand (sample * sample) :=
  match fuel with
  | O => fun _ => NoDraw
  | S fuel' =>
      let* _ch1 := mutate_child g ch1 in
      if not_in_pop _ch1 pop then
        let done := is_new g xe _ch1 in
        let counter := counter + 1 in
        if done then ret (_ch1, ch2)
        else if counter =? 100 then
          let* pr := fresh_crossover g parents in
          let '(ch1, ch2) := pr in
          child1_loop fuel' g xe parents pop ch1 ch2 0
        else child1_loop fuel' g xe parents pop ch1 ch2 counter
      else child1_loop fuel' g xe parents pop ch1 ch2 counter
  end.

(** [while not done] for the second child; returns [_ch2]. *)
Fixpoint child2_loop (fuel : nat) (g : t) (xe : list sample)
    (parents : list (option sample)) (ch2 : sample) (counter : Z) : Rand sample :=
  match fuel with
  | O => fun _ => NoDraw
  | S fuel' =>
      let* _ch2 := mutate_child g ch2 in
      let done := is_new g xe _ch2 in
      let counter := counter + 1 in
      if done then ret _ch2
      else if counter =? 100 then
        let* pr := fresh_crossover g parents in
        let '(_, ch2) := pr in
        child2_loop fuel' g xe parents ch2 0
      else child2_loop fuel' g xe parents ch2 counter
  end.

(** The body of [for k in range(0, self.pop_size, 2)]. *)
Definition offspring_pair (g : t) (xe : list sample) (parents pop : list (option sample))
    (k : Z) : Rand (list (option sample)) :=
  let* pr := fresh_crossover g parents in
  let '(ch1, ch2) := pr in
  let* pr := (fun tape => child1_loop (S (length tape)) g xe parents pop ch1 ch2 0 tape) in
  let '(_ch1, ch2) := pr in
  let* _ch2 :=
    (fun tape => child2_loop (S (length tape)) g xe parents ch2 0 tape) in
  let* pop := lift (py_set pop k (Some _ch1)) in
  lift (py_set pop (k + 1) (Some _ch2)).

Fixpoint offspring (g : t) (xe : list sample) (parents pop : list (option sample))
    (ks : list Z) : Rand (list (option sample)) :=
  match ks with
  | [] => ret pop
  | k :: ks' =>
      let* pop := offspring_pair g xe parents pop k in
      offspring g xe parents pop ks'
  end.

(** [torch.full((n, num_dims), fill_value=torch.nan)]; a negative size raises. *)
Definition nan_rows (n : Z) : res (list (option sample)) :=
  if n <? 0 then Raise else Ok (repeat None (Z.to_nat n)).

(** [parents[:num_elite] = x_elite]: shapes must agree, a single row is
    broadcast. *)
Definition set_elite_rows (num_elite : Z) (parents : list (option sample))
    (xe : list sample) : res (list (option sample)) :=
  let k := length (py_take num_elite parents) in
  if Nat.eqb (length xe) k then Ok (map Some xe ++ drop k parents)
  else match xe with
       | [e] => Ok (repeat (Some e) k ++ drop k parents)
       | _ => Raise
       end.

(** [for k in range(num_elite, num_parents)]: roulette-wheel selection. *)
Fixpoint select_parents (cp : list Q) (x_sorted : list sample)
    (parents : list (option sample)) (ks : list Z) : Rand (list (option sample)) :=
  match ks with
  | [] => ret parents
  | k :: ks' =>
      let* u := random in
      let index := searchsorted cp u in
      let* row := lift (of_option (x_sorted !! index)) in
      let* parents := lift (py_set parents k (Some row)) in
      select_parents cp x_sorted parents ks'
  end.

(** [range(0, n, 2)] *)
Definition py_range_by2 (n : Z) : list Z :=
  map (fun k => 2 * Z.of_nat k) (seq 0 (Z.to_nat ((n + 1) / 2))).

Definition _generate_new_population (g : t) : Rand t :=
  let sorted := sort_by_y (combine (x_pop g) (y_pop g)) in
  let x_sorted := map fst sorted in
  let y_sorted := map snd sorted in
  let* cp := lift (cum_prob y_sorted) in
  let* elite := lift (update_elite (num_elite g) (x_elite g) (y_elite g) sorted) in
  let xe := map fst elite in
  let ye := map snd elite in
  let* parents := lift (nan_rows (num_parents g)) in
  let* parents := lift (set_elite_rows (num_elite g) parents xe) in
  let* parents := select_parents cp x_sorted parents (py_range (num_elite g) (num_parents g)) in
  let* pop := lift (nan_rows (pop_size g)) in
  let* pop := offspring g xe parents pop (py_range_by2 (pop_size g)) in
  let* queue := lift (map_res of_option pop) in
  ret (with_generation g xe ye queue).

(** ** Suggestions *)

(** [x_next.iloc[idx: idx + n] = x_queue.iloc[idx: idx + n]] followed by
    the removal of these rows from the queue; the labels must exist. *)
Definition take_from_queue (queue : list sample) (idx n : nat)
  : res (list sample * list sample) :=
  if Nat.leb (idx + n) (length queue)
  then Ok (take n (drop idx queue), take idx queue ++ drop (idx + n) queue)
  else Raise.

(** [while n_remaining] *)
Fixpoint suggest_loop (fuel : nat) (g : t) (idx n_remaining : nat) (x_next : list sample)
  : Rand (list sample * t) :=
  match n_remaining with
  | O => ret (x_next, g)
  | S _ =>
      match fuel with
      | O => fun _ => NoDraw
      | S fuel' =>
          let* g := _generate_new_population g in
          let n := Nat.min n_remaining (length (x_queue g)) in
          let* pr := lift (take_from_queue (x_queue g) idx n) in
          let '(rows, queue) := pr in
          suggest_loop fuel' (with_queue g queue) (idx + n) (n_remaining - n) (x_next ++ rows)
      end
  end.

Definition method_suggest (g : t) (n_suggestions : nat) : Rand (list sample * t) :=
  let* _ := lift (py_assert (Z.of_nat n_suggestions <=? pop_size g)) in
  let idx := 0%nat in
  let n_remaining := n_suggestions in
  let x_next := [] in
  let* st :=
    match n_remaining, x_queue g with
    | S _, _ :: _ =>
        let n := Nat.min n_remaining (length (x_queue g)) in
        let* pr := lift (take_from_queue (x_queue g) idx n) in
        let '(rows, queue) := pr in
        ret (with_queue g queue, (idx + n)%nat, (n_remaining - n)%nat, x_next ++ rows)
    | _, _ => ret (g, idx, n_remaining, x_next)
    end in
  let '(g, idx, n_remaining, x_next) := st in
  fun tape => suggest_loop (S (length tape)) g idx n_remaining x_next tape.

Close Scope rand_scope.

(** ** Initial data *)

(** [initialize].  [y] is a column by its type, which is what the
    assertions on [y.ndim] and [y.shape[1]] ask for; [x.shape[1]] is the
    length of the rows of [x]. *)
Definition initialize (g : t) (x : list sample) (y : list Q) : res t :=
  res_bind (py_assert (Z.of_nat (length x) <? pop_size g)) (fun _ =>
  res_bind (py_assert (Nat.eqb (length x) (length y))) (fun _ =>
  res_bind
    (py_assert (forallb (fun row => Z.of_nat (length row) =? num_dims (search_space g)) x))
    (fun _ =>
  let buf :=
    if store_observations g || negb (allow_repeating_suggestions g)
    then buffer_append (data_buffer g) x y
    else data_buffer g in
  let xp := x_pop g ++ x in
  let yp := y_pop g ++ y in
  res_bind (of_option (argmin_row x y)) (fun '(bx, best_y_) =>
  if match best_y g with
     | None => true
     | Some b => Qlt_bool best_y_ b
     end
  then Ok (with_observation g buf xp yp (Some best_y_) (Some bx))
  else Ok (with_observation g buf xp yp (best_y g) (_best_x g)))))).

Definition set_x_init (g : t) (x : list sample) : t := with_queue g x.

End GA.

(** * multi_armed_bandit.py *)

Module MAB.

Open Scope R_scope.

(** The trust-region centre kept by the constructor is read by
    [method_suggest] only and is left out of the record. *)
Record t : Type := {
  search_space : SearchSpace;
  batch_size : Z;
  max_n_iter : Z;
  resample_tol : Z;
  noisy_black_box : bool;
  n_cats : list Z;
  best_ube : R;
  gamma : list R;
  log_weights : list (list R);
  prob_dist : option (list (list R));
  tr_manager : option TrManager.t;
  data_buffer : DataBuffer R;
  best_y : option R;
  _best_x : option sample
}.

(** The exploration rate of one dimension, as in [__init__] and [restart]:
    the value of numpy's expression where that value is a finite number,
    which [rate_finite] below decides. *)
Definition gamma_of (batch_size : Z) (best_ube : R) (n_cats : Z) : R :=
  if (batch_size <? n_cats)%Z
  then sqrt (IZR n_cats * ln (IZR n_cats / IZR batch_size)
             / ((exp 1 - 1) * IZR batch_size * best_ube))
  else sqrt (IZR n_cats * ln (IZR n_cats) / ((exp 1 - 1) * best_ube)).

(** Whether numpy's rate of a dimension with [n_cats >= 0] categories is a
    finite number.  [best_ube] has the sign of [max_n_iter].
    With [n_cats > batch_size] and [batch_size > 0] the logarithm is
    positive, so the quotient under the root is positive for
    [max_n_iter > 0], a division by the float zero ([inf]) for
    [max_n_iter = 0] and negative ([NaN] under the root) for
    [max_n_iter < 0]; with [batch_size < 0] the logarithm is that of a
    negative number ([NaN]) or of zero ([-inf], and [0 * -inf] is [NaN]).
    With [n_cats <= batch_size], [0 * log(0)] is [NaN] for no category;
    for one category the numerator is 0, which divided by the float zero
    is [NaN] and otherwise gives the rate 0; for more categories the
    numerator is positive and the cases are those of the first
    branch. *)
Definition rate_finite (batch_size max_n_iter n_cats : Z) : bool :=
  if (batch_size <? n_cats)%Z
  then ((0 <? batch_size) && (0 <? max_n_iter))%Z
  else ((1 <=? n_cats)
        && ((0 <? max_n_iter) || ((n_cats =? 1) && (max_n_iter <? 0))))%Z.

(** [np.zeros(C)]; a negative length raises. *)
Definition zeros (C : Z) : res (list R) :=
  if (C <? 0)%Z then Raise else Ok (repeat 0 (Z.to_nat C)).

(** [__init__].  The integer division [n_cats / batch_size] raises when
    [batch_size] is 0, which is the second assertion.  A rate that is
    [inf] or [NaN] stops no statement of the constructor: the exceptions
    of the later statements come first, and the object with such a rate
    is the outcome [NotFinite]. *)
Definition init (ss : SearchSpace) (batch_size max_n_iter : Z) (noisy_black_box : bool)
    (resample_tol : Z) (fixed_tr_manager : option TrManager.t) : res t :=
  res_bind (py_assert (num_dims ss =? num_nominal ss + num_ordinal ss)%Z) (fun _ =>
  let n_cats := map (fun ub => (ub + 1)%Z) (nominal_ub ss ++ ordinal_ub ss) in
  let best_ube := 2 * IZR max_n_iter / 3 in
  res_bind
    (py_assert (forallb (fun n => negb ((batch_size <? n) && (batch_size =? 0))%Z) n_cats))
    (fun _ =>
  let gamma := map (gamma_of batch_size best_ube) n_cats in
  res_bind (map_res zeros n_cats) (fun log_weights =>
  res_bind
    (match fixed_tr_manager with
     | Some m =>
         res_bind (py_assert (bool_decide (is_Some (TrManager.radii m !! "nominal")))) (fun _ =>
         py_assert (bool_decide (is_Some (TrManager.center m))))
     | None => Ok tt
     end) (fun _ =>
  res_bind (py_finite (forallb (rate_finite batch_size max_n_iter) n_cats)) (fun _ =>
  Ok {| search_space := ss; batch_size := batch_size; max_n_iter := max_n_iter;
        resample_tol := resample_tol; noisy_black_box := noisy_black_box;
        n_cats := n_cats; best_ube := best_ube; gamma := gamma;
        log_weights := log_weights; prob_dist := None;
        tr_manager := fixed_tr_manager;
        data_buffer := buffer_empty; best_y := None; _best_x := None |}))))).

(** The shape the constructor gives the weights: one vector per
    dimension, with one entry per category. *)
Definition shaped (s : t) : Prop :=
  Forall2 (fun lw n => Z.of_nat (length lw) = n) (log_weights s) (n_cats s).

(** ** update_prob_dist *)

(** Python's [sum]: a left fold from 0. *)
Definition Rsum (l : list R) : R := fold_left Rplus l 0.

(** The distribution of one dimension. *)
Definition prob_of (gamma : R) (log_weights : list R) : list R :=
  let weights := map exp log_weights in
  let norm := Rsum weights in
  map (fun w => (1 - gamma) * (w / norm) + gamma / INR (length weights)) weights.

Definition with_prob_dist (s : t) (pd : list (list R)) : t :=
  {| search_space := search_space s; batch_size := batch_size s;
     max_n_iter := max_n_iter s; resample_tol := resample_tol s;
     noisy_black_box := noisy_black_box s;
     n_cats := n_cats s; best_ube := best_ube s; gamma := gamma s;
     log_weights := log_weights s; prob_dist := Some pd;
     tr_manager := tr_manager s;
     data_buffer := data_buffer s; best_y := best_y s; _best_x := _best_x s |}.

Definition update_prob_dist (s : t) : res t :=
  res_bind
    (map_res (fun j =>
       res_bind (of_option (log_weights s !! j)) (fun lw =>
       res_bind (of_option (gamma s !! j)) (fun gamma =>
       Ok (prob_of gamma lw))))
       (seq 0 (length (n_cats s)))) (fun pd =>
  Ok (with_prob_dist s pd)).

(** ** observe *)

(** [t.max()] and [t.min()] of a tensor with at least one entry. *)
Definition Rlist_max (a : R) (l : list R) : R := fold_left Rmax l a.
Definition Rlist_min (a : R) (l : list R) : R := fold_left Rmin l a.

(** [x[:, dim]] *)
Definition column (rows : list sample) (dim : Z) : res (list Z) :=
  map_res (fun row => py_get row dim) rows.

(** [- y[indices]] for [indices = col == v]. *)
Fixpoint matching_rewards (col : list Z) (ys : list R) (v : Z) : list R :=
  match col, ys with
  | c :: col', y :: ys' =>
      if (c =? v)%Z then - y :: matching_rewards col' ys' v
      else matching_rewards col' ys' v
  | _, _ => []
  end.

(** The rescaling of a reward: [ys] is [data_buffer.y], not empty. *)
Definition rescale (rmax : R) (y0 : R) (ys : list R) : R :=
  let neg := map Ropp ys in
  if Req_dec_T (Rlist_max y0 ys) (Rlist_min y0 ys)
  then rmax
  else 2 * (rmax - Rlist_min (- y0) neg) / (Rlist_max (- y0) neg - Rlist_min (- y0) neg) - 1.

(** The reward of one sample [_x] in one dimension, computed on the
    buffer [buf]. *)
Definition reward_of (buf : DataBuffer R) (_x : sample) (dim : Z) : res R :=
  res_bind (column (buf_x buf) dim) (fun col =>
  res_bind (py_get _x dim) (fun v =>
  match matching_rewards col (buf_y buf) v with
  | [] => Ok 0
  | r :: rewards =>
      match buf_y buf with
      | [] => Raise
      | y0 :: ys => Ok (rescale (Rlist_max r rewards) y0 ys)
      end
  end)).

(** [mab_rewards], one row per sample of the batch. *)
Definition mab_rewards_of (buf : DataBuffer R) (num_dims : Z) (x : list sample)
  : res (list (list R)) :=
  map_res (fun _x => map_res (reward_of buf _x) (py_range 0 num_dims)) x.

(** [.clip(min=lo, max=hi)] *)
Definition clip (v lo hi : R) : R := Rmin (Rmax v lo) hi.

(** The loop [for ii, ht in enumerate(nominal_vars)] on the weights of one
    dimension. *)
Fixpoint update_weights (log_weights prob_dist : list R) (n : R) (gamma : R) (num_cats : Z)
    (nominal_vars : list Z) (reward : list R) : res (list R) :=
  match nominal_vars, reward with
  | ht :: nominal_vars', Gt_ht_b :: reward' =>
      res_bind (py_get prob_dist ht) (fun p =>
      let estimated_reward := 1 * Gt_ht_b / p in
      res_bind (py_get log_weights ht) (fun w =>
      res_bind (py_set log_weights ht
                  (clip (w + n * estimated_reward * gamma / IZR num_cats) (-30) 30))
        (fun log_weights =>
      update_weights log_weights prob_dist n gamma num_cats nominal_vars' reward')))
  | [], _ => Ok log_weights
  | _ :: _, [] => Raise
  end.

(** The body of [for dim_dix in range(num_dims)] of the weight update. *)
Definition update_dim (s : t) (x : list sample) (mab_rewards : list (list R))
    (lws : list (list R)) (dim_dix : Z) : res (list (list R)) :=
  res_bind (py_get lws dim_dix) (fun log_weights =>
  res_bind (py_get (n_cats s) dim_dix) (fun num_cats =>
  res_bind (py_get (gamma s) dim_dix) (fun gamma =>
  res_bind (of_option (prob_dist s)) (fun pd =>
  res_bind (py_get pd dim_dix) (fun prob_dist =>
  res_bind (map_res (fun row => py_get row dim_dix) mab_rewards) (fun reward =>
  res_bind (column x dim_dix) (fun nominal_vars =>
  res_bind (update_weights log_weights prob_dist (INR (length mab_rewards)) gamma num_cats
              nominal_vars reward) (fun log_weights =>
  py_set lws dim_dix log_weights)))))))).

(** The weights [lw'] of dimension [dim_dix] come from [lw] by the loop
    over the batch, with this dimension's distribution, rate and number
    of categories. *)
Definition dim_updated (s : t) (x : list sample) (mab_rewards : list (list R))
    (lw lw' : list R) (dim_dix : Z) : Prop :=
  exists num_cats gamma pd prob_dist reward nominal_vars,
    py_get (n_cats s) dim_dix = Ok num_cats /\
    py_get (MAB.gamma s) dim_dix = Ok gamma /\
    MAB.prob_dist s = Some pd /\ py_get pd dim_dix = Ok prob_dist /\
    map_res (fun row => py_get row dim_dix) mab_rewards = Ok reward /\
    column x dim_dix = Ok nominal_vars /\
    update_weights lw prob_dist (INR (length mab_rewards)) gamma num_cats
      nominal_vars reward = Ok lw'.

Fixpoint update_dims (s : t) (x : list sample) (mab_rewards : list (list R))
    (lws : list (list R)) (dims : list Z) : res (list (list R)) :=
  match dims with
  | [] => Ok lws
  | d :: dims' =>
      res_bind (update_dim s x mab_rewards lws d) (fun lws =>
      update_dims s x mab_rewards lws dims')
  end.

(** [y.flatten().argmin()] with the row of [x] there: the first minimum. *)
Fixpoint argmin_row (x : list sample) (y : list R) : option (sample * R) :=
  match x, y with
  | xi :: x', yi :: y' =>
      match argmin_row x' y' with
      | Some (xj, yj) => if Rle_dec yi yj then Some (xi, yi) else Some (xj, yj)
      | None => Some (xi, yi)
      end
  | _, _ => None
  end.

Definition with_observation (s : t) (buf : DataBuffer R) (by_ : option R)
    (bx : option sample) (lws : list (list R)) : t :=
  {| search_space := search_space s; batch_size := batch_size s;
     max_n_iter := max_n_iter s; resample_tol := resample_tol s;
     noisy_black_box := noisy_black_box s;
     n_cats := n_cats s; best_ube := best_ube s; gamma := gamma s;
     log_weights := lws; prob_dist := prob_dist s;
     tr_manager := tr_manager s;
     data_buffer := buf; best_y := by_; _best_x := bx |}.

(** [torch.zeros((len(x), num_dims))] raises on a negative size, which
    is the assertion on [num_dims] below. *)
Definition observe (s : t) (x : list sample) (y : list R) : res t :=
  res_bind (py_assert (Nat.eqb (length x) (length y))) (fun _ =>
  let buf := buffer_append (data_buffer s) x y in
  res_bind (of_option (argmin_row x y)) (fun '(bx, y_) =>
  let best :=
    match best_y s with
    | None => (Some y_, Some bx)
    | Some b => if Rlt_dec y_ b then (Some y_, Some bx) else (best_y s, _best_x s)
    end in
  let num_dims := num_dims (search_space s) in
  res_bind (py_assert (0 <=? num_dims)%Z) (fun _ =>
  res_bind (mab_rewards_of buf num_dims x) (fun mab_rewards =>
  res_bind (update_dims s x mab_rewards (log_weights s) (py_range 0 num_dims)) (fun lws =>
  Ok (with_observation s buf (fst best) (snd best) lws)))))).

(** ** initialize *)

(** [initialize] stores the batch and refreshes the best point; the
    weights and the distribution stay as they are. *)
Definition initialize (s : t) (x : list sample) (y : list R) : res t :=
  res_bind (py_assert (Nat.eqb (length x) (length y))) (fun _ =>
  let buf := buffer_append (data_buffer s) x y in
  res_bind (of_option (argmin_row x y)) (fun '(bx, y_) =>
  let best :=
    match best_y s with
    | None => (Some y_, Some bx)
    | Some b => if Rlt_dec y_ b then (Some y_, Some bx) else (best_y s, _best_x s)
    end in
  Ok (with_observation s buf (fst best) (snd best) (log_weights s)))).

(** ** Histories *)

(** The calls that change the state of a bandit. *)
Inductive call : Type :=
| CallInitialize (x : list sample) (y : list R)
| CallUpdateProbDist
| CallObserve (x : list sample) (y : list R).

Definition run_call (s : t) (c : call) : res t :=
  match c with
  | CallInitialize x y => initialize s x y
  | CallUpdateProbDist => update_prob_dist s
  | CallObserve x y => observe s x y
  end.

Fixpoint run (s : t) (cs : list call) : res t :=
  match cs with
  | [] => Ok s
  | c :: cs' => res_bind (run_call s c) (fun s' => run s' cs')
  end.

(** Every weight lies in the range of the clipping. *)
Definition clipped (s : t) : Prop :=
  Forall (Forall (fun w => -30 <= w <= 30)) (log_weights s).


Close Scope R_scope.

End MAB.

(** * Scenarios *)

(** Concrete search spaces, managers and runs on which the properties
    below are exercised. *)
Module Scenarios.

(** Three nominal dimensions with categories 0, 1, 2 each. *)
Definition ss3 : SearchSpace :=
  {| num_dims := 3; num_nominal := 3; num_ordinal := 0;
     nominal_dims := [0; 1; 2]%nat; ordinal_dims := [];
     nominal_lb := [0; 0; 0]; nominal_ub := [2; 2; 2];
     ordinal_lb := []; ordinal_ub := [] |}.

(** One nominal and two ordinal dimensions with categories 0, 1, 2 each. *)
Definition ss12 : SearchSpace :=
  {| num_dims := 3; num_nominal := 1; num_ordinal := 2;
     nominal_dims := [0]%nat; ordinal_dims := [1; 2]%nat;
     nominal_lb := [0]; nominal_ub := [2];
     ordinal_lb := [0; 0]; ordinal_ub := [2; 2] |}.

(** A history on a fresh manager of [ss3]: a registration that fails its
    assertion, two that pass, a restart. *)
Definition history : list TrManager.call :=
  [TrManager.CRegisterRadius "nominal" 3 3 3;
   TrManager.CRegisterRadius "nominal" 1 3 2;
   TrManager.CSetCenter (Some [0; 0; 0]);
   TrManager.CRegisterRadius "nominal" 0 3 3;
   TrManager.CRestartTr].

(** A history with an adjustment: "nominal" is registered at 2, the
    subclass lowers every radius by one, the manager is restarted and the
    subclass lowers the radii again. *)
Definition adjusted_history : list TrManager.step :=
  [TrManager.SCall (TrManager.CRegisterRadius "nominal" 0 3 2);
   TrManager.SAdjustTrRadii (fun _ r => r - 1);
   TrManager.SAdjustTrRadii (fun _ r => r - 1);
   TrManager.SCall TrManager.CRestartTr;
   TrManager.SAdjustTrRadii (fun _ r => r - 1)].

(** A manager of [ss12] with the radius "nominal" registered at 2 and
    the centre [0; 0; 0]. *)
Definition tr12 : res TrManager.t :=
  res_bind (TrManager.register_radius (TrManager.init ss12) "nominal" 1 3 2) (fun m =>
  TrManager.set_center m (Some [0; 0; 0])).

(** [GeneticAlgorithm(ss3, pop_size=10)] with the default
    [num_parents=20] and [num_elite=10]. *)
Definition ga_small_pop : res GA.t :=
  GA.init ss3 10 20 10 true false None (repeat [0; 0; 0] 10).

(** [GeneticAlgorithm(ss3, pop_size=4, num_parents=3, num_elite=1)]. *)
Definition ga_odd_elite : res GA.t :=
  GA.init ss3 4 3 1 true false None
    [[0; 0; 0]; [1; 1; 1]; [0; 1; 1]; [1; 1; 0]].

(** [GeneticAlgorithm(ss3, pop_size=4, num_parents=2, num_elite=2)]
    after its first four suggestions were observed with the values
    1, 2, 3, 4. *)
Definition ga_observed : res GA.t :=
  res_bind (GA.init ss3 4 2 2 true false None
              [[0; 0; 0]; [1; 1; 1]; [0; 1; 1]; [1; 1; 0]]) (fun g =>
  res_bind (GA.method_suggest g 4 []) (fun '(xs, g, _) =>
  GA.observe g xs [1; 2; 3; 4]%Q)).

(** The draws of one generation of [ga_observed]: both pairs cross
    parent 0 with itself at cut 1; the children are mutated at
    coordinates 0 and 1 for the first pair, 2 and 0 for the second. *)
Definition tape_dup : list draw :=
  [DInt 0; DInt 0; DInt 1; DInt 0; DPick 0; DInt 1; DPick 0;
   DInt 0; DInt 0; DInt 1; DInt 2; DPick 0; DInt 0; DPick 0].

(** The next four suggestions of [ga_observed] under [tape_dup]. *)
Definition suggest_dup : res (list sample) :=
  res_bind ga_observed (fun g =>
  res_bind (GA.method_suggest g 4 tape_dup) (fun '(xs, _, _) => Ok xs)).

(** [GeneticAlgorithm(ss3, pop_size=2, num_parents=2, num_elite=2)] after
    one generation: the initial points were observed with the values
    1, 2 and the first offspring with 0, 5. *)
Definition ga_before_second : res GA.t :=
  res_bind (GA.init ss3 2 2 2 true false None [[0; 0; 0]; [1; 1; 1]]) (fun g =>
  res_bind (GA.method_suggest g 2 []) (fun '(xs, g, _) =>
  res_bind (GA.observe g xs [1; 2]%Q) (fun g =>
  res_bind (GA.method_suggest g 2
              [DInt 0; DInt 1; DInt 1; DInt 1; DPick 0; DInt 1; DPick 0])
    (fun '(xs, g, _) =>
  GA.observe g xs [0; 5]%Q)))).

(** The draws of the second generation of [ga_before_second]. *)
Definition tape_second : list draw :=
  [DInt 0; DInt 1; DInt 1; DInt 2; DPick 0; DInt 2; DPick 0].

(** A trust-region run on [ss12]: population of two, both initial points
    observed, then one suggestion whose generation crosses parents 0 and
    1 at cut 1 and mutates the children at coordinates 1 and 2. *)
Definition suggest_tr : res (list sample * Z) :=
  res_bind tr12 (fun m =>
  res_bind (GA.init ss12 2 2 2 true false (Some m) [[1; 0; 0]]) (fun g =>
  res_bind (GA.method_suggest g 2 []) (fun '(xs, g, _) =>
  res_bind (GA.observe g xs [1; 2]%Q) (fun g =>
  res_bind (GA.method_suggest g 1
              [DInt 0; DInt 1; DInt 1; DInt 1; DPick 0; DInt 2; DPick 0])
    (fun '(xs, _, _) =>
  res_bind (TrManager.get_nominal_radius m) (fun r =>
  Ok (xs, r))))))).

(** [GeneticAlgorithm(ss3)] with defaults apart from the population. *)
Definition ga_mutate : res GA.t :=
  GA.init ss3 4 2 2 true false None [[0; 0; 0]; [1; 1; 1]; [0; 1; 1]; [1; 1; 0]].

(** One nominal dimension with ten categories, and one with two. *)
Definition ss_ten : SearchSpace :=
  {| num_dims := 1; num_nominal := 1; num_ordinal := 0;
     nominal_dims := [0%nat]; ordinal_dims := [];
     nominal_lb := [0]; nominal_ub := [9];
     ordinal_lb := []; ordinal_ub := [] |}.

Definition ss_two : SearchSpace :=
  {| num_dims := 1; num_nominal := 1; num_ordinal := 0;
     nominal_dims := [0%nat]; ordinal_dims := [];
     nominal_lb := [0]; nominal_ub := [1];
     ordinal_lb := []; ordinal_ub := [] |}.

(** [MultiArmedBandit(ss_ten, batch_size=1, max_n_iter=3)] and
    [MultiArmedBandit(ss_two, batch_size=1, max_n_iter=3)]. *)
Definition mab_ten : res MAB.t := MAB.init ss_ten 1 3 false 500 None.
Definition mab_two : res MAB.t := MAB.init ss_two 1 3 false 500 None.

(** [mab_two] once [method_suggest] has refreshed its distribution. *)
Definition mab_two_ready : res MAB.t := res_bind mab_two MAB.update_prob_dist.

(** [mab_ten] after a first round in which the sample [0] was observed
    with the value -300. *)
Definition mab_ten_observed : res MAB.t :=
  res_bind mab_ten (fun s =>
  res_bind (MAB.update_prob_dist s) (fun s =>
  MAB.observe s [[0]] [(-300)%R])).

(** A buffer with one observation, and the first batch of a bandit: the
    sample [0] with the objective value 1. *)
Definition buffer_one : DataBuffer R :=
  {| buf_x := [[0]]; buf_y := [3%R] |}.

Definition first_batch : DataBuffer R :=
  buffer_append buffer_empty [[0]] [1%R].

(** A buffer with two observations of different values. *)
Definition buffer_two : DataBuffer R :=
  {| buf_x := [[0]; [1]]; buf_y := [1%R; 2%R] |}.

(** A first round of [mab_two]: the distribution is refreshed and the
    sample [0] is observed with the value 1. *)
Definition first_round : list MAB.call :=
  [MAB.CallUpdateProbDist; MAB.CallObserve [[0]] [1%R]].

(** The manager [tr12] after a subclass shrank its radius to 1 and two
    observations were appended. *)
Definition tr12_adjusted : res TrManager.t :=
  res_bind tr12 (fun m =>
  Ok (TrManager.append (TrManager.with_radius m "nominal" 1)
        [[0; 0; 0]; [1; 0; 0]] [1; 2]%Q)).

(** Two nominal dimensions with categories 0, 1, 2 each, and the
    optimiser [GeneticAlgorithm(pop_size=4, num_parents=2, num_elite=2)] on
    it after the observation of [0;0], [1;1], [2;2], [0;1] with the values
    5, 1, 3, 4. *)
Definition ss2 : SearchSpace :=
  {| num_dims := 2; num_nominal := 2; num_ordinal := 0;
     nominal_dims := [0; 1]%nat; ordinal_dims := [];
     nominal_lb := [0; 0]; nominal_ub := [2; 2];
     ordinal_lb := []; ordinal_ub := [] |}.

Definition ga_two_dims : res GA.t :=
  res_bind (GA.init ss2 4 2 2 true false None [[0; 0]; [1; 1]; [2; 2]; [0; 1]]) (fun g =>
  res_bind (GA.method_suggest g 4 []) (fun '(xs, g, _) =>
  GA.observe g xs [5; 1; 3; 4]%Q)).

(** [GeneticAlgorithm(ss3, pop_size=3, num_parents=2, num_elite=2)] after
    the observation of its three initial points. *)
Definition ga_odd_pop : res GA.t :=
  res_bind (GA.init ss3 3 2 2 true false None [[0; 0; 0]; [1; 1; 1]; [0; 1; 1]]) (fun g =>
  res_bind (GA.method_suggest g 3 []) (fun '(xs, g, _) =>
  GA.observe g xs [1; 2; 3]%Q)).

(** A manager of [ss3] with the radius "nominal" at 1 and the centre
    [0; 0; 0], and [GeneticAlgorithm(pop_size=2, num_parents=2,
    num_elite=2)] built on it. *)
Definition tr3 : res TrManager.t :=
  res_bind (TrManager.register_radius (TrManager.init ss3) "nominal" 0 3 1) (fun m =>
  TrManager.set_center m (Some [0; 0; 0])).

Definition ga_tr3 : res GA.t :=
  res_bind tr3 (fun m => GA.init ss3 2 2 2 true false (Some m) [[1; 0; 0]]).

(** A space whose ordinal dimension comes first: the canonical order
    [1; 2; 0] is not the original one. *)
Definition ss_mixed : SearchSpace :=
  {| num_dims := 3; num_nominal := 2; num_ordinal := 1;
     nominal_dims := [1; 2]%nat; ordinal_dims := [0]%nat;
     nominal_lb := [0; 0]; nominal_ub := [2; 2];
     ordinal_lb := [0]; ordinal_ub := [2] |}.

End Scenarios.

(** * Properties of the trust-region manager *)

Module TrManagerFacts.
Import TrManager.

(** What [get_nominal_radius] returns, by cases on the manager. *)
Lemma get_nominal_radius_eq (m : t) :
  get_nominal_radius m =
    if num_nominal (search_space m) =? 1 then Ok 1
    else match radii m !! "nominal" with
         | Some r => Ok r
         | None => Raise
         end.
Proof.
  unfold get_nominal_radius.
  destruct (num_nominal (search_space m) =? 1); [reflexivity|].
  destruct (radii m !! "nominal") as [r|] eqn:E; reflexivity.
Qed.

Lemma reset_radii_id (vts : list string) (init : gmap string Z) :
  Forall (fun v => is_Some (init !! v)) vts ->
  reset_radii vts init init = Ok init.
Proof.
  induction 1 as [|v vts [i Hi] _ IH]; simpl; [reflexivity|].
  rewrite Hi. simpl. rewrite insert_id by exact Hi. exact IH.
Qed.

Lemma consistent_init (ss : SearchSpace) : consistent (init ss).
Proof. split; [reflexivity | constructor]. Qed.

(** One call keeps the search space and consistency, and changes the
    "nominal" radius as [last_nominal] says. *)
Lemma run_call_step (m m' : t) (c : call) :
  consistent m ->
  run_call m c = Ok m' ->
  consistent m' /\ search_space m' = search_space m /\
  radii m' !! "nominal" = last_nominal [c] (radii m !! "nominal").
Proof.
  intros [Hr Hv] Hc. destruct c as [ce|v lo hi i|x y|]; simpl in Hc.
  - destruct ce as [c|]; simpl in Hc.
    + destruct (Z.of_nat (length c) =? num_dims (search_space m)); simpl in Hc;
        [|discriminate].
      injection Hc as <-. repeat split; assumption.
    + injection Hc as <-. repeat split; assumption.
  - unfold register_radius in Hc. simpl.
    destruct ((lo <? i) && (i <=? hi)) eqn:Ea; simpl in Hc; [|discriminate].
    injection Hc as <-. simpl. split; [split|split]; simpl.
    + rewrite Hr. reflexivity.
    + apply Forall_app. split.
      * eapply Forall_impl; [exact Hv|]. intros w [k Hk]. simpl.
        destruct (decide (v = w)) as [->|Hne].
        -- rewrite lookup_insert_eq. eauto.
        -- rewrite lookup_insert_ne by exact Hne. eauto.
      * constructor; [|constructor]. rewrite lookup_insert_eq. eauto.
    + reflexivity.
    + rewrite andb_true_r.
      destruct (decide (v = "nominal"%string)) as [->|Hne].
      * rewrite lookup_insert_eq. rewrite bool_decide_eq_true_2 by reflexivity.
        reflexivity.
      * rewrite lookup_insert_ne by exact Hne.
        rewrite bool_decide_eq_false_2 by exact Hne. reflexivity.
  - injection Hc as <-. repeat split; assumption.
  - unfold restart_tr in Hc. rewrite Hr in Hc.
    rewrite (reset_radii_id _ _ Hv) in Hc. simpl in Hc.
    injection Hc as <-. repeat split; simpl; try assumption.
    rewrite Hr. reflexivity.
Qed.

(** A call that raises is not a successful registration. *)
Lemma run_call_raise (m : t) (c : call) :
  (forall m', run_call m c <> Ok m') ->
  last_nominal [c] (radii m !! "nominal") = radii m !! "nominal".
Proof.
  intros Hc. destruct c as [ce|v lo hi i|x y|]; simpl; try reflexivity.
  destruct ((lo <? i) && (i <=? hi)) eqn:Ea.
  - exfalso. cbn [run_call] in Hc. unfold register_radius in Hc. rewrite Ea in Hc.
    eapply Hc. reflexivity.
  - rewrite andb_false_r. reflexivity.
Qed.

Lemma last_nominal_cons (c : call) (cs : list call) (acc : option Z) :
  last_nominal (c :: cs) acc = last_nominal cs (last_nominal [c] acc).
Proof. reflexivity. Qed.

Lemma run_radius (cs : list call) : forall m,
  consistent m ->
  search_space (run m cs) = search_space m /\
  radii (run m cs) !! "nominal" = last_nominal cs (radii m !! "nominal").
Proof.
  induction cs as [|c cs IH]; intros m Hm; [split; reflexivity|].
  rewrite last_nominal_cons. cbn [run].
  destruct (run_call m c) as [m'| | |] eqn:Ec.
  - destruct (run_call_step m m' c Hm Ec) as (Hm' & Hs & Hl).
    destruct (IH m' Hm') as [IHs IHl]. rewrite IHs, IHl, Hs, Hl. split; reflexivity.
  - rewrite (run_call_raise m c) by (intros m' H; congruence). apply IH, Hm.
  - rewrite (run_call_raise m c) by (intros m' H; congruence). apply IH, Hm.
  - rewrite (run_call_raise m c) by (intros m' H; congruence). apply IH, Hm.
Qed.

(** While only the base class acts on a fresh manager, the radius that
    [get_nominal_radius] returns outside the one-dimensional case is that
    of the latest registration of "nominal" that passed. *)
Lemma get_nominal_radius_history (ss : SearchSpace) (cs : list call) :
  get_nominal_radius (run (init ss) cs) =
    if num_nominal ss =? 1 then Ok 1
    else match last_nominal cs None with
         | Some r => Ok r
         | None => Raise
         end.
Proof.
  rewrite get_nominal_radius_eq.
  destruct (run_radius cs (init ss) (consistent_init ss)) as [Hs Hl].
  rewrite Hs, Hl. reflexivity.
Qed.

(** On [history] the first registration fails its assertion, and the
    radius returned is that of the last one, also after the restart. *)
Example history_radius :
  get_nominal_radius (run (init Scenarios.ss3) Scenarios.history) = Ok 3 /\
  last_nominal Scenarios.history None = Some 3.
Proof. split; vm_compute; reflexivity. Qed.

End TrManagerFacts.

(** * Reasoning on outcomes *)

Lemma res_bind_ok {A B : Type} (m : res A) (k : A -> res B) (b : B) :
  res_bind m k = Ok b -> exists a, m = Ok a /\ k a = Ok b.
Proof. destruct m as [a| | |]; simpl; intros H; [eauto | discriminate..]. Qed.

Lemma py_assert_ok (c : bool) (u : unit) : py_assert c = Ok u -> c = true.
Proof. destruct c; [reflexivity | discriminate]. Qed.

Lemma of_option_ok {A : Type} (o : option A) (a : A) : of_option o = Ok a -> o = Some a.
Proof. destruct o; simpl; intros H; [injection H as ->; reflexivity | discriminate]. Qed.

Lemma bind_ok {A B : Type} (m : Rand A) (k : A -> Rand B) (tape : list draw)
    (r : B * list draw) :
  bind m k tape = Ok r -> exists a tape1, m tape = Ok (a, tape1) /\ k a tape1 = Ok r.
Proof.
  unfold bind. destruct (m tape) as [[a tape1]| | |]; intros H;
    [eauto | discriminate..].
Qed.

Lemma lift_ok {A : Type} (r : res A) (tape tape' : list draw) (a : A) :
  lift r tape = Ok (a, tape') -> r = Ok a /\ tape' = tape.
Proof.
  unfold lift. destruct r; intros H; [|discriminate..].
  injection H as -> ->. split; reflexivity.
Qed.

Lemma ret_ok {A : Type} (a b : A) (tape tape' : list draw) :
  ret a tape = Ok (b, tape') -> b = a /\ tape' = tape.
Proof. unfold ret. intros H. injection H as -> ->. split; reflexivity. Qed.

Lemma randint_ok (low high n : Z) (tape tape' : list draw) :
  randint low high tape = Ok (n, tape') -> low <= n < high /\ tape = DInt n :: tape'.
Proof.
  unfold randint. destruct (high <=? low); [discriminate|].
  destruct tape as [|[k|u|i|sel] tape0]; try discriminate.
  destruct ((low <=? k) && (k <? high)) eqn:E; [|discriminate].
  intros H. injection H as -> ->. apply andb_true_iff in E as [E1 E2].
  apply Z.leb_le in E1. apply Z.ltb_lt in E2. split; [lia | reflexivity].
Qed.

Lemma choice_ok {A : Type} (a : list A) (v : A) (tape tape' : list draw) :
  choice a tape = Ok (v, tape') -> exists i, a !! i = Some v /\ tape = DPick i :: tape'.
Proof.
  unfold choice. destruct a as [|a0 a]; [discriminate|].
  destruct tape as [|[k|u|i|sel] tape0]; try discriminate.
  destruct ((a0 :: a) !! i) as [w|] eqn:E; [|discriminate].
  intros H. injection H as -> ->. eauto.
Qed.

Lemma map_res_length {A B : Type} (f : A -> res B) (l : list A) (r : list B) :
  map_res f l = Ok r -> length r = length l.
Proof.
  revert r. induction l as [|a l IH]; simpl; intros r H.
  - injection H as <-. reflexivity.
  - apply res_bind_ok in H as (b & _ & H). apply res_bind_ok in H as (bs & Hbs & H).
    injection H as <-. simpl. f_equal. apply IH, Hbs.
Qed.

Lemma map_res_lookup {A B : Type} (f : A -> res B) (l : list A) (r : list B)
    (i : nat) (a : A) :
  map_res f l = Ok r -> l !! i = Some a -> exists b, r !! i = Some b /\ f a = Ok b.
Proof.
  revert r i. induction l as [|a0 l IH]; simpl; intros r i H Hi; [discriminate|].
  apply res_bind_ok in H as (b & Hb & H). apply res_bind_ok in H as (bs & Hbs & H).
  injection H as <-. destruct i as [|i]; simpl in *.
  - injection Hi as ->. eauto.
  - apply (IH bs i Hbs Hi).
Qed.

Lemma map_res_app_ok {A B : Type} (f : A -> res B) (l1 l2 : list A) (r : list B) :
  map_res f (l1 ++ l2) = Ok r ->
  exists r1 r2, map_res f l1 = Ok r1 /\ map_res f l2 = Ok r2 /\ r = r1 ++ r2.
Proof.
  revert r. induction l1 as [|a l1 IH]; simpl; intros r H.
  - exists [], r. repeat split. exact H.
  - apply res_bind_ok in H as (b & Hb & H). apply res_bind_ok in H as (bs & Hbs & H).
    injection H as <-. destruct (IH bs Hbs) as (r1 & r2 & H1 & H2 & ->).
    exists (b :: r1), r2. rewrite Hb, H1. simpl. repeat split. exact H2.
Qed.

Lemma py_range_in (lo hi j : Z) : In j (py_range lo hi) <-> lo <= j < hi.
Proof.
  unfold py_range. rewrite in_map_iff. split.
  - intros (k & <- & Hk). apply in_seq in Hk. lia.
  - intros Hj. exists (Z.to_nat (j - lo)). split; [lia|]. apply in_seq. lia.
Qed.

Lemma py_range_lookup (n j : Z) :
  0 <= j < n -> py_range 0 n !! Z.to_nat j = Some j.
Proof.
  intros Hj. unfold py_range. rewrite list_lookup_fmap.
  rewrite lookup_seq_lt by lia. simpl. f_equal. lia.
Qed.

Lemma py_range_length (n : Z) : length (py_range 0 n) = Z.to_nat n.
Proof. unfold py_range. rewrite length_map, length_seq. f_equal. lia. Qed.

Lemma py_range_NoDup (lo hi : Z) : List.NoDup (py_range lo hi).
Proof.
  unfold py_range. apply Finite.Injective_map_NoDup; [|apply seq_NoDup].
  intros a b H. lia.
Qed.

(** Indexing at a position that is not negative. *)
Lemma py_pos_nonneg {A : Type} (l : list A) (i : Z) :
  0 <= i ->
  py_pos l i = if i <? Z.of_nat (length l) then Some (Z.to_nat i) else None.
Proof.
  intros Hi. unfold py_pos. rewrite (proj2 (Z.leb_le 0 i) Hi). simpl.
  destruct (i <? Z.of_nat (length l)); [reflexivity|].
  rewrite (proj2 (Z.ltb_ge i 0) Hi), andb_false_r. reflexivity.
Qed.

Lemma py_get_nonneg {A : Type} (l : list A) (i : Z) (a : A) :
  0 <= i -> (py_get l i = Ok a <-> l !! Z.to_nat i = Some a).
Proof.
  intros Hi. unfold py_get. rewrite py_pos_nonneg by exact Hi.
  destruct (i <? Z.of_nat (length l)) eqn:E.
  - destruct (l !! Z.to_nat i); simpl; split; intros H; congruence.
  - apply Z.ltb_ge in E. rewrite lookup_ge_None_2 by lia. split; discriminate.
Qed.

Lemma py_set_get_eq {A : Type} (l l' : list A) (i : Z) (v : A) :
  0 <= i -> py_set l i v = Ok l' -> py_get l' i = Ok v.
Proof.
  intros Hi. unfold py_set. rewrite py_pos_nonneg by exact Hi.
  destruct (i <? Z.of_nat (length l)) eqn:E; [|discriminate].
  intros H. injection H as <-. apply Z.ltb_lt in E.
  apply py_get_nonneg; [exact Hi|]. apply list_lookup_insert_eq. lia.
Qed.

Lemma py_set_get_ne {A : Type} (l l' : list A) (i j : Z) (v : A) :
  0 <= i -> 0 <= j -> i <> j -> py_set l i v = Ok l' -> py_get l' j = py_get l j.
Proof.
  intros Hi Hj Hne. unfold py_set. rewrite py_pos_nonneg by exact Hi.
  destruct (i <? Z.of_nat (length l)) eqn:E; [|discriminate].
  intros H. injection H as <-. unfold py_get.
  rewrite !py_pos_nonneg by exact Hj. rewrite length_insert.
  destruct (j <? Z.of_nat (length l)); [|reflexivity].
  rewrite list_lookup_insert_ne by lia. reflexivity.
Qed.

(** Inversion of one successful step of a computation. *)
Ltac step_ok H :=
  match type of H with
  | res_bind _ _ = Ok _ =>
      let a := fresh "a" in let Ha := fresh "Ha" in
      apply res_bind_ok in H; destruct H as (a & Ha & H)
  | bind _ _ _ = Ok _ =>
      let a := fresh "a" in let tp := fresh "tape" in let Ha := fresh "Ha" in
      apply bind_ok in H; destruct H as (a & tp & Ha & H)
  end.

(** * Properties of the genetic algorithm *)

Module GAFacts.
Import GA Scenarios.

(** ** Construction *)

(** C3, as the constructor has it.  A construction that succeeds leaves
    [num_elite] even (the argument, raised by one when odd) and at most
    [num_parents]; [pop_size] and [num_parents] are stored as given. *)
Theorem init_elite_even_le_parents (ss : SearchSpace) (ps np ne : Z) (so ar : bool)
    (tr : option TrManager.t) (sampled : list sample) (g : t) :
  init ss ps np ne so ar tr sampled = Ok g ->
  Z.even (num_elite g) = true /\ num_elite g <= num_parents g /\
  num_elite g = ne + ne mod 2 /\ num_parents g = np /\ pop_size g = ps.
Proof.
  unfold init. intros H. do 5 step_ok H.
  injection H as <-. cbn [num_elite num_parents pop_size].
  apply py_assert_ok in Ha1.
  destruct (ne mod 2 =? 0) eqn:E; cbn [negb] in *; apply Z.leb_le in Ha1.
  - apply Z.eqb_eq in E. repeat split; try lia.
    apply Z.even_spec. exists (ne / 2).
    pose proof (Z.div_mod ne 2 ltac:(lia)) as Hd. lia.
  - apply Z.eqb_neq in E.
    pose proof (Z.mod_pos_bound ne 2 ltac:(lia)) as Hb.
    repeat split; try lia.
    apply Z.even_spec. exists (ne / 2 + 1).
    pose proof (Z.div_mod ne 2 ltac:(lia)) as Hd. lia.
Qed.

Lemma init_elite_even_le_parents_witness :
  exists g, ga_odd_elite = Ok g /\
    Z.even (num_elite g) = true /\ num_elite g <= num_parents g /\
    num_elite g = 1 + 1 mod 2 /\ num_parents g = 3 /\ pop_size g = 4.
Proof.
  eexists. split; [vm_compute; reflexivity|].
  apply (init_elite_even_le_parents ss3 4 3 1 true false None
           [[0; 0; 0]; [1; 1; 1]; [0; 1; 1]; [1; 1; 0]]).
  vm_compute. reflexivity.
Defined.

(** C3 fails as stated: the constructor accepts [num_parents] above
    [pop_size]. *)
Lemma init_parents_above_pop_size :
  exists g, ga_small_pop = Ok g /\
    ~ (Z.even (num_elite g) = true /\ num_elite g <= num_parents g /\
       num_parents g <= pop_size g).
Proof.
  eexists. split; [vm_compute; reflexivity|].
  cbn [num_elite num_parents pop_size]. lia.
Qed.

(** ** Sorting *)

Lemma Qle_bool_false (a b : Q) : Qle_bool a b = false -> (b <= a)%Q.
Proof.
  intros H. destruct (Qlt_le_dec b a) as [Hlt|Hle].
  - apply Qlt_le_weak, Hlt.
  - apply Qle_bool_iff in Hle. congruence.
Qed.

Lemma insert_by_y_in (p q : sample * Q) (l : list (sample * Q)) :
  In q (insert_by_y p l) <-> q = p \/ In q l.
Proof.
  induction l as [|r l IH]; simpl.
  - intuition congruence.
  - destruct (Qle_bool (snd p) (snd r)); simpl; [intuition congruence|].
    rewrite IH. intuition congruence.
Qed.

Lemma sort_by_y_in (q : sample * Q) (l : list (sample * Q)) :
  In q (sort_by_y l) <-> In q l.
Proof.
  induction l as [|p l IH]; simpl; [reflexivity|].
  rewrite insert_by_y_in, IH. intuition congruence.
Qed.

Lemma insert_by_y_sorted (p : sample * Q) (l : list (sample * Q)) :
  StronglySorted y_le l -> StronglySorted y_le (insert_by_y p l).
Proof.
  induction 1 as [|r l Hs IH Hr]; simpl.
  - constructor; constructor.
  - destruct (Qle_bool (snd p) (snd r)) eqn:E.
    + apply Qle_bool_iff in E. constructor; [constructor; assumption|].
      constructor; [exact E|].
      eapply Forall_impl; [exact Hr|]. intros q Hq. unfold y_le in *.
      eapply Qle_trans; eassumption.
    + apply Qle_bool_false in E. constructor; [exact IH|].
      apply List.Forall_forall. intros q Hq. apply insert_by_y_in in Hq.
      destruct Hq as [->|Hq]; [exact E|].
      rewrite List.Forall_forall in Hr. apply Hr, Hq.
Qed.

Lemma sort_by_y_sorted (l : list (sample * Q)) : StronglySorted y_le (sort_by_y l).
Proof.
  induction l as [|p l IH]; simpl; [constructor|].
  apply insert_by_y_sorted, IH.
Qed.

(** The first row of a sorted population has the least objective value. *)
Lemma sort_by_y_head (l rest : list (sample * Q)) (p q : sample * Q) :
  sort_by_y l = p :: rest -> In q l -> (snd p <= snd q)%Q.
Proof.
  intros Hs Hq. pose proof (sort_by_y_sorted l) as Hl. rewrite Hs in Hl.
  apply sort_by_y_in in Hq. rewrite Hs in Hq.
  inversion Hl as [|? ? _ Hall]; subst.
  destruct Hq as [<-|Hq]; [apply Qle_refl|].
  rewrite List.Forall_forall in Hall. apply Hall, Hq.
Qed.

(** ** Minima *)

Lemma ymin_spec (l : list Q) (m : Q) :
  ymin l = Some m -> In m l /\ Forall (fun a => (m <= a)%Q) l.
Proof.
  revert m. induction l as [|a l IH]; simpl; intros m H; [discriminate|].
  destruct (ymin l) as [m0|] eqn:E.
  - destruct (IH m0 eq_refl) as [Hin Hall].
    destruct (Qle_bool a m0) eqn:Ea; injection H as <-.
    + apply Qle_bool_iff in Ea. split; [left; reflexivity|].
      constructor; [apply Qle_refl|].
      eapply Forall_impl; [exact Hall|]. intros b Hb. simpl in Hb.
      eapply Qle_trans; eassumption.
    + apply Qle_bool_false in Ea. split; [right; exact Hin|].
      constructor; assumption.
  - injection H as <-. destruct l; [|simpl in E; destruct (ymin l); [destruct (Qle_bool q q0)|]; discriminate].
    split; [left; reflexivity|]. constructor; [apply Qle_refl|constructor].
Qed.

Lemma ymin_cons (a : Q) (l : list Q) : exists m, ymin (a :: l) = Some m.
Proof.
  simpl. destruct (ymin l) as [m0|]; [|eauto].
  destruct (Qle_bool a m0); eauto.
Qed.

(** ** Elitism *)

Lemma combine_app_in (xe tx : list sample) (ye ty : list Q) (m : Q) :
  length xe = length ye -> In m ye ->
  exists x, In (x, m) (combine (xe ++ tx) (ye ++ ty)).
Proof.
  revert ye. induction xe as [|x xe IH]; intros [|y ye] Hlen Hin;
    simpl in *; try discriminate; try contradiction.
  destruct Hin as [->|Hin]; [eauto|].
  destruct (IH ye ltac:(congruence) Hin) as [x' Hx']. eauto.
Qed.

Lemma py_take_pos {A : Type} (n : Z) (a : A) (l : list A) :
  0 < n -> py_take n (a :: l) = a :: take (Z.to_nat n - 1) l.
Proof.
  intros Hn. unfold py_take. rewrite (proj2 (Z.leb_le 0 n)) by lia.
  destruct (Z.to_nat n) as [|k] eqn:E; [lia|].
  simpl. rewrite Nat.sub_0_r. reflexivity.
Qed.

(** Merging keeps the least value: the elite set after the step has a
    minimum, and it is at most the minimum before. *)
Lemma update_elite_min (ne : Z) (xe : list sample) (ye : list Q)
    (sorted elite : list (sample * Q)) (m : Q) :
  0 < ne -> length xe = length ye -> ymin ye = Some m ->
  update_elite ne (Some xe) (Some ye) sorted = Ok elite ->
  exists m', ymin (map snd elite) = Some m' /\ (m' <= m)%Q.
Proof.
  intros Hne Hlen Hm Hu. unfold update_elite in Hu. injection Hu as <-.
  destruct (ymin_spec ye m Hm) as [Hin _].
  destruct (combine_app_in xe (map fst (py_take ne sorted)) ye
              (map snd (py_take ne sorted)) m Hlen Hin) as [x Hx].
  set (merged := combine _ _) in *.
  destruct (sort_by_y merged) as [|p rest] eqn:Es.
  - apply sort_by_y_in in Hx. rewrite Es in Hx. contradiction.
  - rewrite py_take_pos by exact Hne. cbn [map].
    destruct (ymin_cons (snd p) (map snd (take (Z.to_nat ne - 1) rest))) as [m' Hm'].
    exists m'. split; [exact Hm'|].
    destruct (ymin_spec _ _ Hm') as [_ Hall].
    inversion Hall as [|? ? Hp _]; subst.
    eapply Qle_trans; [exact Hp|].
    apply (sort_by_y_head merged rest p (x, m) Es Hx).
Qed.

(** What a successful generation step leaves as elite set. *)
Lemma generation_elite (g g' : t) (tape tape' : list draw) :
  _generate_new_population g tape = Ok (g', tape') ->
  exists elite,
    update_elite (num_elite g) (x_elite g) (y_elite g)
      (sort_by_y (combine (x_pop g) (y_pop g))) = Ok elite /\
    x_elite g' = Some (map fst elite) /\ y_elite g' = Some (map snd elite) /\
    x_pop g <> [].
Proof.
  unfold _generate_new_population. intros H.
  step_ok H. apply lift_ok in Ha as [Hcp ->].
  step_ok H. apply lift_ok in Ha as [He ->].
  do 6 step_ok H. apply ret_ok in H as [-> _].
  exists a0. repeat split; try assumption.
  intros Hx. rewrite Hx in Hcp. discriminate.
Qed.

(** C9.  A generation step that returns, on an elite set that has a
    minimum [m], leaves an elite set whose minimum is at most [m]; on the
    first generation the elite set is the top [num_elite] of the sorted
    population. *)
Theorem generation_elite_min (g g' : t) (tape tape' : list draw) :
  _generate_new_population g tape = Ok (g', tape') ->
  (x_elite g = None -> y_elite g = None ->
   let top := py_take (num_elite g) (sort_by_y (combine (x_pop g) (y_pop g))) in
   x_elite g' = Some (map fst top) /\ y_elite g' = Some (map snd top)) /\
  (forall xe ye m,
     x_elite g = Some xe -> y_elite g = Some ye -> length xe = length ye ->
     0 < num_elite g -> ymin ye = Some m ->
     exists ye' m', y_elite g' = Some ye' /\ ymin ye' = Some m' /\ (m' <= m)%Q).
Proof.
  intros H. destruct (generation_elite g g' tape tape' H) as (elite & Hu & Hx & Hy & _).
  split.
  - intros Hxn Hyn top. rewrite Hxn, Hyn in Hu. injection Hu as <-. split; assumption.
  - intros xe ye m Hxe Hye Hlen Hne Hm. rewrite Hxe, Hye in Hu.
    destruct (update_elite_min _ xe ye _ elite m Hne Hlen Hm Hu) as (m' & Hm' & Hle).
    exists (map snd elite), m'. repeat split; assumption.
Qed.

Lemma generation_elite_min_witness :
  exists g g' tape',
    ga_before_second = Ok g /\
    _generate_new_population g tape_second = Ok (g', tape') /\
    exists ye' m', y_elite g' = Some ye' /\ ymin ye' = Some m' /\ (m' <= 1)%Q.
Proof.
  eexists. eexists. eexists.
  split; [vm_compute; reflexivity|].
  match goal with
  | |- _generate_new_population ?g ?tp = Ok (?g', ?tp') /\ _ =>
      assert (H : _generate_new_population g tp = Ok (g', tp'))
        by (vm_compute; reflexivity)
  end.
  split; [exact H|].
  apply (proj2 (generation_elite_min _ _ _ _ H) [[0; 0; 0]; [1; 1; 1]] [1; 2]%Q 1%Q);
    reflexivity.
Defined.

(** ** Mutation *)

Lemma categories_in (lbi ubi cur j : Z) :
  In j (categories lbi ubi cur) <-> lbi <= j < ubi /\ j <> cur.
Proof.
  unfold categories. rewrite filter_In, py_range_in, negb_true_iff, Z.eqb_neq.
  reflexivity.
Qed.

(** What one draw of [_mutate] can produce: a coordinate [idx] of the row
    receives a category of [range(lb[idx], ub[idx])] other than
    [x[i, idx]]; the bound [ub[idx]] itself is never assigned. *)
Lemma mutate_draw_range (g : t) (row xr r : sample) (tape tape' : list draw) :
  mutate_draw g row xr tape = Ok (r, tape') ->
  exists idx lbi ubi cur cat,
    0 <= idx < num_dims (search_space g) /\
    py_get (lb g) idx = Ok lbi /\ py_get (ub g) idx = Ok ubi /\
    py_get row idx = Ok cur /\
    lbi <= cat < ubi /\ cat <> cur /\
    py_set xr idx cat = Ok r.
Proof.
  unfold mutate_draw. intros H.
  step_ok H. apply randint_ok in Ha as [Hidx _].
  step_ok H. apply lift_ok in Ha as [Hlb _].
  step_ok H. apply lift_ok in Ha as [Hub _].
  step_ok H. apply lift_ok in Ha as [Hcur _].
  step_ok H. apply choice_ok in Ha as (i & Hi & _).
  apply lift_ok in H as [Hset _].
  apply list_elem_of_lookup_2, list_elem_of_In, categories_in in Hi as [Hr Hne].
  exists a, a0, a1, a2, a3. repeat split; try assumption; lia.
Qed.

(** C2 at a failing input.  On the space [ss3], whose coordinates have
    the domain [0, 2], every mutation of the row [0; 0; 0] sets one
    coordinate to 1: the category 2, the upper bound, is never drawn. *)
Theorem mutate_never_upper_bound (g : t) (tape tape' : list draw) (r : list sample) :
  ga_mutate = Ok g ->
  _mutate g [[0; 0; 0]] tape = Ok (r, tape') ->
  r = [[1; 0; 0]] \/ r = [[0; 1; 0]] \/ r = [[0; 0; 1]].
Proof.
  intros Hg H. vm_compute in Hg. injection Hg as <-.
  unfold _mutate in H.
  step_ok H. apply lift_ok in Ha as [_ ->].
  step_ok H. apply lift_ok in Ha as [Hx ->].
  vm_compute in Hx. injection Hx as <-.
  step_ok H. cbn [combine mutate_rows tr_manager] in Ha.
  step_ok Ha. step_ok Ha. apply ret_ok in Ha1 as [-> ->].
  apply ret_ok in Ha as [-> ->].
  apply lift_ok in H as [H _].
  apply mutate_draw_range in Ha0
    as (idx & lbi & ubi & cur & cat & Hidx & Hlb & Hub & Hcur & Hr & Hne & Hset).
  cbn [search_space num_dims lb ub] in *.
  assert (Hcase : idx = 0 \/ idx = 1 \/ idx = 2) by lia.
  destruct Hcase as [->|[->| ->]];
    vm_compute in Hlb, Hub, Hcur; injection Hlb as <-; injection Hub as <-;
    injection Hcur as <-; assert (cat = 1) as -> by lia;
    vm_compute in Hset; injection Hset as <-;
    vm_compute in H; injection H as <-; auto.
Qed.

Lemma mutate_never_upper_bound_witness :
  exists g, ga_mutate = Ok g /\
    ([[1; 0; 0]] = [[1; 0; 0]] \/ [[1; 0; 0]] = [[0; 1; 0]] \/ [[1; 0; 0]] = [[0; 0; 1]]).
Proof.
  eexists. split; [vm_compute; reflexivity|].
  eapply (mutate_never_upper_bound _ [DInt 0; DPick 0] []);
    vm_compute; reflexivity.
Defined.

(** A candidate accepted by the trust-region branch of [_mutate] lies
    within the radius registered as "nominal": [get_nominal_radius] is
    not consulted. *)
Lemma mutate_row_tr_within (fuel : nat) (g : t) (m : TrManager.t) (row xr cand : sample)
    (tape tape' : list draw) :
  mutate_row_tr fuel g m row xr tape = Ok (cand, tape') ->
  exists c r, tr_center g = Some c /\ TrManager.radii m !! "nominal" = Some r /\
    hamming_distance c cand <= r.
Proof.
  revert tape. induction fuel as [|fuel IH]; intros tape H; simpl in H; [discriminate|].
  step_ok H. step_ok H. apply lift_ok in Ha0 as [Hc ->].
  step_ok H. apply lift_ok in Ha0 as [Hr ->].
  apply of_option_ok in Hc, Hr.
  destruct (hamming_distance a0 a <=? a1) eqn:E.
  - apply ret_ok in H as [-> _]. apply Z.leb_le in E. eauto.
  - apply (IH _ H).
Qed.

(** ** Projection on the trust region *)

Lemma differing_from_in (x c : sample) : forall (k i : nat),
  In i (differing_from k x c) <->
  (k <= i)%nat /\ exists u v, x !! (i - k)%nat = Some u /\ c !! (i - k)%nat = Some v /\ u <> v.
Proof.
  revert c. induction x as [|u x IH]; intros [|v c] k i; simpl;
    try (split; [contradiction | intros (_ & a & b & Ha & Hb & _); discriminate]).
  assert (Hstep : In i (differing_from (S k) x c) <->
                  (k < i)%nat /\ exists a b, x !! (i - S k)%nat = Some a
                                          /\ c !! (i - S k)%nat = Some b /\ a <> b)
    by (rewrite IH; reflexivity).
  destruct (Nat.eq_dec i k) as [->|Hne].
  - rewrite Nat.sub_diag. simpl. destruct (u =? v) eqn:E.
    + rewrite Hstep. apply Z.eqb_eq in E. split.
      * intros [Hlt _]. lia.
      * intros (_ & a & b & Ha & Hb & Hab). congruence.
    + apply Z.eqb_neq in E. simpl. split; [|auto]. intros _. split; [lia|]. eauto.
  - assert (Hi : (k <= i)%nat -> (i - k)%nat = S (i - S k)) by lia.
    destruct (u =? v) eqn:E; simpl; rewrite Hstep; split.
    + intros [Hlt H]. split; [lia|]. rewrite Hi by lia. exact H.
    + intros [Hle H]. split; [lia|]. rewrite Hi in H by lia. exact H.
    + intros [->|[Hlt H]]; [congruence|]. split; [lia|]. rewrite Hi by lia. exact H.
    + intros [Hle H]. right. split; [lia|]. rewrite Hi in H by lia. exact H.
Qed.

Lemma differing_from_length (x c : sample) (k : nat) :
  Z.of_nat (length (differing_from k x c)) = hamming_distance c x.
Proof.
  revert c k. induction x as [|u x IH]; intros [|v c] k; simpl; try reflexivity.
  rewrite (Z.eqb_sym v u). destruct (u =? v); simpl length; rewrite <- (IH c (S k)); lia.
Qed.

(** Resetting one differing coordinate lowers the distance by one. *)
Lemma hamming_distance_reset (x c : sample) (i : nat) (u v : Z) :
  x !! i = Some u -> c !! i = Some v -> u <> v ->
  hamming_distance c (<[i := v]> x) = hamming_distance c x - 1.
Proof.
  revert c i. induction x as [|a x IH]; intros [|b c] [|i] Hx Hc Hne;
    simpl in *; try discriminate.
  - injection Hx as ->. injection Hc as ->. rewrite Z.eqb_refl.
    rewrite (proj2 (Z.eqb_neq v u)) by congruence. lia.
  - pose proof (IH c i Hx Hc Hne) as E. unfold sample in *. rewrite E. lia.
Qed.

Lemma reset_to_distance (c : sample) (sel : list nat) : forall x,
  List.NoDup sel ->
  (forall i, In i sel -> In i (differing_from 0 x c)) ->
  hamming_distance c (reset_to x c sel) = hamming_distance c x - Z.of_nat (length sel).
Proof.
  unfold reset_to. induction sel as [|i sel IH]; intros x Hnd Hin; simpl; [lia|].
  apply List.NoDup_cons_iff in Hnd as [Hi Hnd].
  destruct (proj1 (differing_from_in x c 0 i) (Hin i (or_introl eq_refl)))
    as (_ & u & v & Hu & Hv & Huv).
  rewrite Nat.sub_0_r in Hu, Hv. rewrite Hv.
  pose proof (hamming_distance_reset x c i u v Hu Hv Huv) as E.
  rewrite IH; [unfold sample in *; rewrite E; lia | exact Hnd |].
  intros j Hj. assert (Hji : j <> i) by (intros ->; contradiction).
  apply differing_from_in.
  destruct (proj1 (differing_from_in x c 0 j) (Hin j (or_intror Hj)))
    as (_ & a & b & Ha & Hb & Hab).
  rewrite Nat.sub_0_r in Ha, Hb.
  split; [lia|]. exists a, b. rewrite Nat.sub_0_r. unfold sample in *.
  rewrite list_lookup_insert_ne by congruence.
  repeat split; assumption.
Qed.

Lemma nodupb_NoDup (l : list nat) : nodupb l = true -> List.NoDup l.
Proof.
  induction l as [|a l IH]; simpl; intros H; [constructor|].
  apply andb_true_iff in H as [Ha Hl]. constructor; [|apply IH, Hl].
  intros Hin. apply negb_true_iff in Ha.
  assert (existsb (Nat.eqb a) l = true); [|congruence].
  apply existsb_exists. exists a. split; [exact Hin | apply Nat.eqb_refl].
Qed.

Lemma choice_subset_ok (a sel : list nat) (size : Z) (tape tape' : list draw) :
  choice_subset a size tape = Ok (sel, tape') ->
  Z.of_nat (length sel) = size /\ List.NoDup sel /\ forall i, In i sel -> In i a.
Proof.
  unfold choice_subset. destruct ((size <? 0) || (Z.of_nat (length a) <? size));
    [discriminate|].
  destruct tape as [|[k|u|i|s0] tape0]; try discriminate.
  destruct ((Z.of_nat (length s0) =? size) && nodupb s0
            && forallb (fun i => existsb (Nat.eqb i) a) s0) eqn:E; [|discriminate].
  intros H. injection H as -> ->.
  apply andb_true_iff in E as [E E3]. apply andb_true_iff in E as [E1 E2].
  apply Z.eqb_eq in E1. split; [exact E1|]. split; [apply nodupb_NoDup, E2|].
  intros i Hi. rewrite forallb_forall in E3. specialize (E3 i Hi).
  apply existsb_exists in E3 as (j & Hj & Hij). apply Nat.eqb_eq in Hij. subst. exact Hj.
Qed.

(** A projected child lies within [get_nominal_radius] of the centre. *)
Lemma project_within (m : TrManager.t) (c x x' : sample) (tape tape' : list draw) :
  project m c x (hamming_distance c x) tape = Ok (x', tape') ->
  exists r, TrManager.get_nominal_radius m = Ok r /\ hamming_distance c x' <= r.
Proof.
  unfold project. intros H. step_ok H. apply lift_ok in Ha as [Hr ->].
  exists a. split; [exact Hr|].
  destruct (a <? hamming_distance c x) eqn:E.
  - step_ok H. apply lift_ok in Ha as [Hr' ->]. rewrite Hr in Hr'. injection Hr' as <-.
    step_ok H. apply ret_ok in H as [-> _].
    match goal with
    | Hc : choice_subset _ _ _ = Ok (?sel, _) |- _ =>
        apply choice_subset_ok in Hc as (Hlen & Hnd & Hin);
        rewrite (reset_to_distance c sel x Hnd Hin)
    end.
    apply Z.ltb_lt in E. lia.
  - apply ret_ok in H as [-> _]. apply Z.ltb_ge in E. exact E.
Qed.

(** Both children of a crossover under a trust region lie within
    [get_nominal_radius] of the centre. *)
Lemma crossover_within (g : t) (m : TrManager.t) (x1 x2 c1 c2 : sample)
    (tape tape' : list draw) :
  tr_manager g = Some m ->
  _crossover g x1 x2 tape = Ok (c1, c2, tape') ->
  exists c r, tr_center g = Some c /\ TrManager.get_nominal_radius m = Ok r /\
    hamming_distance c c1 <= r /\ hamming_distance c c2 <= r.
Proof.
  unfold _crossover. intros Hm H. rewrite Hm in H.
  step_ok H. step_ok H. step_ok H. apply lift_ok in Ha1 as [Hc ->].
  apply of_option_ok in Hc.
  step_ok H. step_ok H. apply ret_ok in H as [H _]. injection H as -> ->.
  apply project_within in Ha1 as (r1 & Hr1 & H1).
  apply project_within in Ha2 as (r2 & Hr2 & H2).
  rewrite Hr1 in Hr2. injection Hr2 as <-.
  exists a1, r1. repeat split; assumption.
Qed.

(** ** Deduplication *)

(** The first child of a pair is accepted only when it is no row of the
    population under construction and passes [is_new]. *)
Lemma child1_loop_accepts (fuel : nat) (g : t) (xe : list sample)
    (parents pop : list (option sample)) :
  forall ch1 ch2 counter tape c1 c2 tape',
    child1_loop fuel g xe parents pop ch1 ch2 counter tape = Ok (c1, c2, tape') ->
    not_in_pop c1 pop = true /\ is_new g xe c1 = true.
Proof.
  induction fuel as [|fuel IH]; intros ch1 ch2 counter tape c1 c2 tape' H;
    simpl in H; [discriminate|].
  step_ok H. destruct (not_in_pop a pop) eqn:Ep; [|apply (IH _ _ _ _ _ _ _ H)].
  destruct (is_new g xe a) eqn:En.
  - apply ret_ok in H as [H _]. injection H as -> ->. split; assumption.
  - destruct (counter + 1 =? 100).
    + step_ok H. destruct a0 as [n1 n2]. apply (IH _ _ _ _ _ _ _ H).
    + apply (IH _ _ _ _ _ _ _ H).
Qed.

(** The second child is accepted as soon as it passes [is_new]: the
    population under construction is not an argument of its loop. *)
Lemma child2_loop_accepts (fuel : nat) (g : t) (xe : list sample)
    (parents : list (option sample)) :
  forall ch2 counter tape c2 tape',
    child2_loop fuel g xe parents ch2 counter tape = Ok (c2, tape') ->
    is_new g xe c2 = true.
Proof.
  induction fuel as [|fuel IH]; intros ch2 counter tape c2 tape' H;
    simpl in H; [discriminate|].
  step_ok H. destruct (is_new g xe a) eqn:En.
  - apply ret_ok in H as [-> _]. exact En.
  - destruct (counter + 1 =? 100).
    + step_ok H. destruct a0 as [n1 n2]. apply (IH _ _ _ _ _ H).
    + apply (IH _ _ _ _ _ H).
Qed.

(** ** Runs *)

(** C7 at a failing input.  With [allow_repeating_suggestions] false, the
    second child of the second pair is accepted although it equals the
    row already placed first in the new population. *)
Theorem second_child_repeats_population :
  suggest_dup = Ok [[1; 0; 0]; [0; 1; 0]; [0; 0; 1]; [1; 0; 0]].
Proof. vm_compute. reflexivity. Qed.

(** C6 at a failing input.  With one nominal dimension
    [get_nominal_radius] is 1, yet the suggestion [1; 1; 0] lies at
    Hamming distance 2 from the centre [0; 0; 0]: the mutation tested it
    against the registered radius 2. *)
Theorem suggestion_outside_nominal_radius :
  suggest_tr = Ok ([[1; 1; 0]], 1) /\ hamming_distance [0; 0; 0] [1; 1; 0] = 2.
Proof. split; vm_compute; reflexivity. Qed.

End GAFacts.

(** * Properties of the multi-armed bandit *)

Module MABFacts.
Import MAB Scenarios.

Open Scope R_scope.

(** ** Rewards *)

Lemma matching_rewards_app (c1 c2 : list Z) (y1 y2 : list R) (v : Z) :
  length c1 = length y1 ->
  matching_rewards (c1 ++ c2) (y1 ++ y2) v =
    matching_rewards c1 y1 v ++ matching_rewards c2 y2 v.
Proof.
  revert y1. induction c1 as [|c c1 IH]; intros [|y y1] Hlen;
    simpl in *; try discriminate; [reflexivity|].
  rewrite IH by congruence. destruct (c =? v)%Z; reflexivity.
Qed.

Lemma matching_rewards_self (col : list Z) (ys : list R) (v : Z) (i : nat) :
  col !! i = Some v -> (i < length ys)%nat -> matching_rewards col ys v <> [].
Proof.
  revert ys i. induction col as [|c col IH]; intros [|y ys] i Hi Hlen;
    simpl in *; try discriminate; try lia.
  destruct i as [|i]; simpl in Hi.
  - injection Hi as ->. rewrite Z.eqb_refl. discriminate.
  - destruct (c =? v)%Z; [discriminate|]. apply (IH ys i Hi). lia.
Qed.

(** On a buffer to which a batch was appended, the rewards matching a
    sample of the batch in any dimension include its own: the list is not
    empty and the reward is the rescaled maximum, not the constant of the
    empty case. *)
Lemma reward_matches_own_sample (b : DataBuffer R) (x : list sample) (y : list R)
    (i : nat) (_x : sample) (dim : Z) (col : list Z) (v : Z) :
  length (buf_x b) = length (buf_y b) ->
  length x = length y ->
  x !! i = Some _x ->
  column (buf_x (buffer_append b x y)) dim = Ok col ->
  py_get _x dim = Ok v ->
  exists r rewards y0 ys,
    matching_rewards col (buf_y (buffer_append b x y)) v = r :: rewards /\
    buf_y (buffer_append b x y) = y0 :: ys /\
    reward_of (buffer_append b x y) _x dim = Ok (rescale (Rlist_max r rewards) y0 ys).
Proof.
  intros Hb Hxy Hi Hcol Hv. unfold reward_of. rewrite Hcol, Hv. cbn [res_bind].
  cbn [buffer_append buf_x buf_y] in *. unfold column in Hcol.
  apply map_res_app_ok in Hcol as (c1 & c2 & H1 & H2 & ->).
  rewrite matching_rewards_app
    by (rewrite (map_res_length _ _ _ H1); exact Hb).
  destruct (map_res_lookup _ _ _ i _x H2 Hi) as (v' & Hv' & Hget).
  rewrite Hv in Hget. injection Hget as <-.
  assert (Hne : matching_rewards c2 y v <> []).
  { apply (matching_rewards_self c2 y v i Hv').
    rewrite <- Hxy. apply lookup_lt_Some in Hi. exact Hi. }
  destruct (matching_rewards c2 y v) as [|r2 rs2] eqn:E2; [congruence|].
  destruct (matching_rewards c1 (buf_y b) v ++ r2 :: rs2) as [|r rewards] eqn:E.
  - apply app_eq_nil in E as [_ E]. discriminate.
  - destruct (buf_y b ++ y) as [|y0 ys] eqn:Ey.
    + apply app_eq_nil in Ey as [_ ->]. destruct c2; discriminate.
    + exists r, rewards, y0, ys. repeat split.
Qed.

Lemma reward_matches_own_sample_witness :
  exists r rewards y0 ys,
    matching_rewards [0; 1]%Z (buf_y (buffer_append buffer_one [[1%Z]] [5])) 1%Z
      = r :: rewards /\
    buf_y (buffer_append buffer_one [[1%Z]] [5]) = y0 :: ys /\
    reward_of (buffer_append buffer_one [[1%Z]] [5]) [1%Z] 0%Z
      = Ok (rescale (Rlist_max r rewards) y0 ys).
Proof.
  apply (reward_matches_own_sample buffer_one [[1%Z]] [5] 0%nat [1%Z] 0%Z [0; 1]%Z 1%Z);
    reflexivity.
Defined.

Lemma Rlist_max_const (c : R) (l : list R) : Forall (eq c) l -> Rlist_max c l = c.
Proof.
  unfold Rlist_max. induction 1 as [|a l <- _ IH]; simpl; [reflexivity|].
  rewrite Rmax_left by lra. exact IH.
Qed.

Lemma Rlist_min_const (c : R) (l : list R) : Forall (eq c) l -> Rlist_min c l = c.
Proof.
  unfold Rlist_min. induction 1 as [|a l <- _ IH]; simpl; [reflexivity|].
  rewrite Rmin_left by lra. exact IH.
Qed.

Lemma matching_rewards_const (c : R) (col : list Z) (ys : list R) (v : Z) :
  Forall (eq c) ys -> Forall (eq (- c)) (matching_rewards col ys v).
Proof.
  intros H. revert col. induction H as [|y ys <- _ IH]; intros [|k col]; simpl;
    try constructor.
  destruct (k =? v)%Z; [constructor; [reflexivity|]|]; apply IH.
Qed.

(** The reward on a buffer whose objective values have equal maximum and
    minimum: the largest matching [-y], not rescaled. *)
Lemma reward_of_degenerate (buf : DataBuffer R) (_x : sample) (dim : Z) (col : list Z)
    (v : Z) (r : R) (rewards : list R) (y0 : R) (ys : list R) :
  column (buf_x buf) dim = Ok col -> py_get _x dim = Ok v ->
  matching_rewards col (buf_y buf) v = r :: rewards ->
  buf_y buf = y0 :: ys ->
  Rlist_max y0 ys = Rlist_min y0 ys ->
  reward_of buf _x dim = Ok (Rlist_max r rewards).
Proof.
  intros Hcol Hv Hm Hy Hd. unfold reward_of. rewrite Hcol, Hv. cbn [res_bind].
  rewrite Hm, Hy. unfold rescale.
  destruct (Req_dec_T (Rlist_max y0 ys) (Rlist_min y0 ys)); [reflexivity|contradiction].
Qed.

(** C1, as the code has it.  The reward is 0 when no row of the buffer,
    which already holds the batch, has the sample's category in the
    dimension.  When the objective values of the buffer have equal
    maximum and minimum the reward is the largest matching [-y]; when
    they all equal [c] it is [-c]. *)
Theorem reward_unmatched_or_degenerate (buf : DataBuffer R) (_x : sample) (dim : Z)
    (col : list Z) (v : Z) :
  column (buf_x buf) dim = Ok col -> py_get _x dim = Ok v ->
  (matching_rewards col (buf_y buf) v = [] -> reward_of buf _x dim = Ok 0) /\
  (forall r rewards y0 ys,
     matching_rewards col (buf_y buf) v = r :: rewards ->
     buf_y buf = y0 :: ys -> Rlist_max y0 ys = Rlist_min y0 ys ->
     reward_of buf _x dim = Ok (Rlist_max r rewards)) /\
  (forall c,
     Forall (eq c) (buf_y buf) -> matching_rewards col (buf_y buf) v <> [] ->
     reward_of buf _x dim = Ok (- c)).
Proof.
  intros Hcol Hv. split; [|split].
  - intros Hm. unfold reward_of. rewrite Hcol, Hv. cbn [res_bind]. rewrite Hm.
    reflexivity.
  - intros r rewards y0 ys Hm Hy Hd.
    apply (reward_of_degenerate buf _x dim col v r rewards y0 ys); assumption.
  - intros c Hc Hne.
    pose proof (matching_rewards_const c col (buf_y buf) v Hc) as Hall.
    destruct (matching_rewards col (buf_y buf) v) as [|r rewards] eqn:Hm; [congruence|].
    destruct (buf_y buf) as [|y0 ys] eqn:Hy.
    { destruct col; discriminate. }
    pose proof (List.Forall_inv Hc) as Hc0. pose proof (List.Forall_inv_tail Hc) as Hys.
    pose proof (List.Forall_inv Hall) as Hr0.
    pose proof (List.Forall_inv_tail Hall) as Hrs.
    simpl in Hc0, Hr0. subst y0 r.
    rewrite (reward_of_degenerate buf _x dim col v (- c) rewards c ys);
      try assumption.
    + rewrite Rlist_max_const by assumption. reflexivity.
    + rewrite Hy. exact Hm.
    + rewrite Rlist_max_const, Rlist_min_const by assumption. reflexivity.
Qed.

Lemma reward_unmatched_or_degenerate_witness :
  reward_of buffer_one [1%Z] 0%Z = Ok 0 /\ reward_of buffer_one [0%Z] 0%Z = Ok (- 3).
Proof.
  split.
  - apply (proj1 (reward_unmatched_or_degenerate buffer_one [1%Z] 0%Z [0%Z] 1%Z
                    eq_refl eq_refl)).
    reflexivity.
  - apply (proj2 (proj2 (reward_unmatched_or_degenerate buffer_one [0%Z] 0%Z [0%Z] 0%Z
                           eq_refl eq_refl)) 3).
    + repeat constructor.
    + simpl. discriminate.
Defined.

(** C1 fails as stated: on the first batch, a single sample with the
    objective value 1, the values are all equal and no earlier point
    exists, yet the reward is -1. *)
Lemma first_reward_not_zero :
  Rlist_max 1 [] = Rlist_min 1 [] /\
  matching_rewards [] (buf_y (@buffer_empty R)) 0%Z = [] /\
  reward_of first_batch [0%Z] 0%Z = Ok (-1) /\
  ~ (reward_of first_batch [0%Z] 0%Z = Ok 0).
Proof.
  assert (H : reward_of first_batch [0%Z] 0%Z = Ok (-1)).
  { apply (reward_of_degenerate first_batch [0%Z] 0%Z [0%Z] 0%Z (-1) [] 1 []);
      reflexivity. }
  repeat split; try reflexivity; [exact H|].
  rewrite H. intros E. injection E as E. lra.
Qed.

(** ** The probability distribution *)

Lemma fold_left_Rplus_acc (l : list R) (a : R) :
  fold_left Rplus l a = a + fold_left Rplus l 0.
Proof.
  revert a. induction l as [|b l IH]; intros a; simpl; [lra|].
  rewrite (IH (a + b)), (IH (0 + b)). lra.
Qed.

Lemma Rsum_cons (a : R) (l : list R) : Rsum (a :: l) = a + Rsum l.
Proof. unfold Rsum. simpl. rewrite fold_left_Rplus_acc. lra. Qed.

Lemma Rsum_map_affine (a b : R) (l : list R) :
  Rsum (map (fun w => a * w + b) l) = a * Rsum l + b * INR (length l).
Proof.
  induction l as [|w l IH].
  - unfold Rsum. simpl. lra.
  - cbn [map length]. rewrite !Rsum_cons, IH, S_INR. lra.
Qed.

Lemma Rsum_exp_nonneg (l : list R) : 0 <= Rsum (map exp l).
Proof.
  induction l as [|x l IH]; [unfold Rsum; simpl; lra|].
  cbn [map]. rewrite Rsum_cons. pose proof (exp_pos x). lra.
Qed.

Lemma Rsum_exp_pos (l : list R) : l <> [] -> 0 < Rsum (map exp l).
Proof.
  destruct l as [|x l]; [congruence|]. intros _. cbn [map]. rewrite Rsum_cons.
  pose proof (exp_pos x). pose proof (Rsum_exp_nonneg l). lra.
Qed.

(** The distribution of one dimension sums to 1. *)
Lemma prob_of_sum (gamma : R) (lw : list R) : lw <> [] -> Rsum (prob_of gamma lw) = 1.
Proof.
  intros Hne. unfold prob_of.
  pose proof (Rsum_exp_pos lw Hne) as Hnorm.
  set (norm := Rsum (map exp lw)) in *.
  assert (Hlen : 0 < INR (length (map exp lw))).
  { apply lt_0_INR. rewrite length_map. destruct lw; [congruence|simpl; lia]. }
  rewrite (map_ext _ (fun w => (1 - gamma) / norm * w
                               + gamma / INR (length (map exp lw))))
    by (intros w; unfold Rdiv; ring).
  rewrite Rsum_map_affine. fold norm. field. split; lra.
Qed.

(** Every entry is at least [gamma / len(weights)] when [gamma <= 1]. *)
Lemma prob_of_floor (gamma : R) (lw : list R) :
  gamma <= 1 -> Forall (fun q => gamma / INR (length lw) <= q) (prob_of gamma lw).
Proof.
  intros Hg. unfold prob_of. apply List.Forall_forall. intros q Hq.
  apply in_map_iff in Hq as (w & <- & Hw).
  apply in_map_iff in Hw as (x & <- & Hx).
  assert (Hne : lw <> []) by (intros ->; contradiction).
  pose proof (Rsum_exp_pos lw Hne) as Hnorm. pose proof (exp_pos x) as Hexp.
  rewrite length_map.
  assert (0 <= (1 - gamma) * (exp x / Rsum (map exp lw))).
  { apply Rmult_le_pos; [lra|]. apply Rlt_le, Rdiv_lt_0_compat; assumption. }
  lra.
Qed.

(** ** Exploration rates of the scenarios *)

Lemma e_bounds : 2 < exp 1 <= 3.
Proof.
  split; [|apply exp_le_3].
  pose proof (exp_ineq1 1 ltac:(lra)). lra.
Qed.

Lemma ln_2_bounds : 0 < ln 2 < 1.
Proof.
  destruct e_bounds as [He _]. split.
  - rewrite <- ln_1. apply ln_increasing; lra.
  - apply Rlt_le_trans with (ln (exp 1)); [|rewrite ln_exp; lra].
    apply ln_increasing; lra.
Qed.

Lemma ln_10_bound : 1 < ln 10.
Proof.
  destruct e_bounds as [He1 He2].
  apply Rle_lt_trans with (ln (exp 1)); [rewrite ln_exp; lra|].
  apply ln_increasing; lra.
Qed.

(** The rate of [mab_ten] exceeds 1. *)
Lemma gamma_ten_above_one : 1 < gamma_of 1 (2 * IZR 3 / 3) 10.
Proof.
  unfold gamma_of. cbn [Z.ltb Z.compare Pos.compare Pos.compare_cont].
  destruct e_bounds as [He1 He2]. pose proof ln_10_bound as Hl.
  replace (10 / 1) with 10 by lra.
  apply Rle_lt_trans with (sqrt 1); [rewrite sqrt_1; lra|].
  apply sqrt_lt_1_alt. split; [lra|].
  set (D := (exp 1 - 1) * 1 * (2 * 3 / 3)).
  assert (HD : 0 < D <= 4) by (unfold D; lra).
  apply (Rmult_lt_reg_r D); [lra|].
  unfold Rdiv. rewrite Rmult_assoc, Rinv_l by lra. nra.
Qed.

(** The rate of [mab_two] lies strictly between 0 and 1. *)
Lemma gamma_two_bounds : 0 < gamma_of 1 (2 * IZR 3 / 3) 2 < 1.
Proof.
  unfold gamma_of. cbn [Z.ltb Z.compare Pos.compare Pos.compare_cont].
  destruct e_bounds as [He1 He2]. destruct ln_2_bounds as [Hl1 Hl2].
  replace (2 / 1) with 2 by lra.
  set (D := (exp 1 - 1) * 1 * (2 * 3 / 3)).
  assert (HD : 2 < D) by (unfold D; lra).
  assert (Hi : 0 < / D) by (apply Rinv_0_lt_compat; lra).
  assert (Hx : 0 < 2 * ln 2 / D < 1).
  { split.
    - unfold Rdiv. apply Rmult_lt_0_compat; [lra | exact Hi].
    - apply (Rmult_lt_reg_r D); [lra|].
      unfold Rdiv. rewrite Rmult_assoc, Rinv_l by lra. nra. }
  split.
  - apply sqrt_lt_R0. lra.
  - apply Rlt_le_trans with (sqrt 1); [|rewrite sqrt_1; lra].
    apply sqrt_lt_1_alt. lra.
Qed.

(** ** update_prob_dist *)

Lemma mab_ten_state :
  exists s, mab_ten = Ok s /\ shaped s /\ n_cats s = [10%Z] /\
    gamma s = [gamma_of 1 (2 * IZR 3 / 3) 10] /\
    log_weights s = [repeat 0 10].
Proof.
  eexists. split; [reflexivity|]. repeat split.
  repeat constructor.
Qed.

Lemma mab_two_state :
  exists s, mab_two = Ok s /\ shaped s /\ n_cats s = [2%Z] /\
    gamma s = [gamma_of 1 (2 * IZR 3 / 3) 2] /\
    log_weights s = [[0; 0]] /\ search_space s = ss_two /\
    data_buffer s = buffer_empty /\ best_y s = None.
Proof.
  eexists. split; [reflexivity|]. repeat split.
  repeat constructor.
Qed.

(** What [update_prob_dist] stores for a dimension. *)
Lemma update_prob_dist_lookup (s s' : t) (j : nat) (n : Z) :
  update_prob_dist s = Ok s' -> n_cats s !! j = Some n ->
  exists pd lw gamma_j,
    prob_dist s' = Some pd /\ log_weights s !! j = Some lw /\
    gamma s !! j = Some gamma_j /\ pd !! j = Some (prob_of gamma_j lw).
Proof.
  unfold update_prob_dist. intros H Hn. step_ok H. injection H as <-.
  apply lookup_lt_Some in Hn.
  destruct (map_res_lookup _ _ _ j j Ha) as (p & Hp & Hf).
  { rewrite lookup_seq_lt by exact Hn. reflexivity. }
  step_ok Hf. step_ok Hf. injection Hf as <-.
  apply of_option_ok in Ha0, Ha1.
  exists a, a0, a1. repeat split; assumption.
Qed.

(** After [update_prob_dist], the vector of every dimension with at
    least one category sums to 1, and each of its entries is at least
    [gamma[j] / n_cats[j]] provided [gamma[j] <= 1]. *)
Lemma update_prob_dist_sum_floor (s s' : t) (j : nat) (n : Z) :
  update_prob_dist s = Ok s' -> shaped s ->
  n_cats s !! j = Some n -> (0 < n)%Z ->
  exists pd p gamma_j,
    prob_dist s' = Some pd /\ pd !! j = Some p /\ gamma s !! j = Some gamma_j /\
    Rsum p = 1 /\
    (gamma_j <= 1 -> Forall (fun q => gamma_j / IZR n <= q) p).
Proof.
  intros H Hs Hn Hpos.
  destruct (update_prob_dist_lookup s s' j n H Hn) as (pd & lw & g & Hpd & Hlw & Hg & Hp).
  pose proof (Forall2_lookup_lr _ _ _ _ _ _ Hs Hlw Hn) as Hlen. simpl in Hlen.
  exists pd, (prob_of g lw), g. repeat split; try assumption.
  - apply prob_of_sum. intros ->. simpl in Hlen. lia.
  - intros Hle. rewrite <- Hlen, <- INR_IZR_INZ. apply prob_of_floor, Hle.
Qed.

Lemma update_prob_dist_sum_floor_witness :
  exists s s' pd p gamma_j,
    mab_two = Ok s /\ update_prob_dist s = Ok s' /\
    prob_dist s' = Some pd /\ pd !! 0%nat = Some p /\ gamma s !! 0%nat = Some gamma_j /\
    Rsum p = 1 /\ Forall (fun q => gamma_j / IZR 2 <= q) p.
Proof.
  destruct mab_two_state as (s & Hs & Hshape & Hn & Hg & Hlw & _).
  assert (Hu : exists s', update_prob_dist s = Ok s').
  { unfold update_prob_dist. rewrite Hn, Hg, Hlw. simpl. eauto. }
  destruct Hu as [s' Hu].
  destruct (update_prob_dist_sum_floor s s' 0%nat 2%Z Hu Hshape)
    as (pd & p & g & Hpd & Hp & Hgj & Hsum & Hfloor);
    [rewrite Hn; reflexivity | lia |].
  exists s, s', pd, p, g. repeat split; try assumption.
  apply Hfloor. rewrite Hg in Hgj. injection Hgj as <-.
  apply Rlt_le, gamma_two_bounds.
Defined.

(** C5.  The rate computed by the constructor is not capped at 1: with
    ten categories, [batch_size=1] and [max_n_iter=3] it exceeds 1, and
    the vector that [update_prob_dist] stores on the initial weights has
    every entry at 1/10, below the floor [gamma / 10]. *)
Theorem prob_below_floor :
  exists s s' pd p gamma_j,
    mab_ten = Ok s /\ update_prob_dist s = Ok s' /\
    prob_dist s' = Some pd /\ pd !! 0%nat = Some p /\ gamma s !! 0%nat = Some gamma_j /\
    n_cats s !! 0%nat = Some 10%Z /\
    ~ (Rsum p = 1 /\ Forall (fun q => gamma_j / IZR 10 <= q) p).
Proof.
  destruct mab_ten_state as (s & Hs & Hshape & Hn & Hg & Hlw).
  assert (Hu : exists s', update_prob_dist s = Ok s').
  { unfold update_prob_dist. rewrite Hn, Hg, Hlw. simpl. eauto. }
  destruct Hu as [s' Hu].
  destruct (update_prob_dist_lookup s s' 0%nat 10%Z Hu)
    as (pd & lw & g & Hpd & Hlw' & Hgj & Hp); [rewrite Hn; reflexivity|].
  rewrite Hlw in Hlw'. injection Hlw' as <-.
  exists s, s', pd, (prob_of g (repeat 0 10)), g.
  repeat split; try assumption; [rewrite Hn; reflexivity|].
  intros [_ Hfloor]. rewrite Hg in Hgj. injection Hgj as <-.
  pose proof gamma_ten_above_one as Hgt.
  set (g := gamma_of 1 (2 * IZR 3 / 3) 10) in *.
  assert (Hnorm : Rsum (map exp (repeat 0 10)) = 10).
  { unfold Rsum. simpl. rewrite exp_0. lra. }
  unfold prob_of in Hfloor. rewrite Hnorm in Hfloor.
  apply List.Forall_inv in Hfloor. simpl in Hfloor.
  rewrite exp_0 in Hfloor. lra.
Qed.

(** ** The weight update *)

Lemma clip_range (v : R) : -30 <= clip v (-30) 30 <= 30.
Proof.
  unfold clip, Rmin, Rmax.
  destruct (Rle_dec v (-30)); destruct (Rle_dec _ 30); lra.
Qed.

Lemma clip_id (v : R) : -30 <= v <= 30 -> clip v (-30) 30 = v.
Proof.
  intros Hv. unfold clip, Rmin, Rmax.
  destruct (Rle_dec v (-30)); destruct (Rle_dec _ 30); lra.
Qed.

Lemma update_dim_ok (s : t) (x : list sample) (M : list (list R))
    (lws lws' : list (list R)) (d : Z) :
  update_dim s x M lws d = Ok lws' ->
  exists lw lw',
    py_get lws d = Ok lw /\ dim_updated s x M lw lw' d /\ py_set lws d lw' = Ok lws'.
Proof.
  unfold update_dim. intros H. do 8 step_ok H.
  apply of_option_ok in Ha2.
  exists a, a6. split; [assumption|]. split; [|assumption].
  exists a0, a1, a2, a3, a4, a5. repeat split; assumption.
Qed.

(** The loop over the dimensions rewrites each listed dimension once and
    leaves the others as they were. *)
Lemma update_dims_ok (s : t) (x : list sample) (M : list (list R)) (dims : list Z) :
  forall lws lws',
    List.NoDup dims -> Forall (fun d => (0 <= d)%Z) dims ->
    update_dims s x M lws dims = Ok lws' ->
    (forall j, (0 <= j)%Z -> ~ In j dims -> py_get lws' j = py_get lws j) /\
    (forall j, In j dims ->
       exists lw lw',
         py_get lws j = Ok lw /\ py_get lws' j = Ok lw' /\ dim_updated s x M lw lw' j).
Proof.
  induction dims as [|d dims IH]; intros lws lws' Hnd Hpos H; simpl in H.
  - injection H as <-. split; [reflexivity | contradiction].
  - step_ok H. apply update_dim_ok in Ha as (lw & lw' & Hget & Hupd & Hset).
    apply List.NoDup_cons_iff in Hnd as [Hd Hnd].
    pose proof (List.Forall_inv Hpos) as Hd0. simpl in Hd0.
    apply List.Forall_inv_tail in Hpos.
    destruct (IH a lws' Hnd Hpos H) as [Hframe Hin].
    split.
    + intros j Hj Hnot. rewrite Hframe by (try assumption; intros Hc; apply Hnot; right; exact Hc).
      apply (py_set_get_ne lws a d j lw'); try assumption.
      intros ->. apply Hnot. left. reflexivity.
    + intros j [<-|Hj].
      * exists lw, lw'. repeat split; try assumption.
        rewrite Hframe by assumption.
        apply (py_set_get_eq lws a d lw' Hd0 Hset).
      * destruct (Hin j Hj) as (lw1 & lw1' & Hg1 & Hg1' & Hu1).
        exists lw1, lw1'. repeat split; try assumption.
        rewrite <- Hg1. symmetry.
        apply (py_set_get_ne lws a d j lw'); try assumption.
        -- rewrite List.Forall_forall in Hpos. apply Hpos, Hj.
        -- intros ->. contradiction.
Qed.

(** A column of [mab_rewards] holds the rewards of the batch in that
    dimension. *)
Lemma mab_rewards_column (buf : DataBuffer R) (nd : Z) (x : list sample)
    (M : list (list R)) (j : Z) :
  mab_rewards_of buf nd x = Ok M -> (0 <= j < nd)%Z ->
  exists reward,
    map_res (fun row => py_get row j) M = Ok reward /\
    map_res (fun _x => reward_of buf _x j) x = Ok reward.
Proof.
  unfold mab_rewards_of. intros H Hj. revert M H.
  induction x as [|_x x IH]; intros M H; simpl in H.
  - injection H as <-. exists []. split; reflexivity.
  - step_ok H. step_ok H. injection H as <-.
    destruct (IH a0 Ha0) as (reward & H1 & H2).
    destruct (map_res_lookup _ _ _ (Z.to_nat j) j Ha (py_range_lookup nd j Hj))
      as (b & Hb & Hr).
    exists (b :: reward). simpl.
    rewrite (proj2 (py_get_nonneg a j b ltac:(lia)) Hb), H1, Hr, H2. split; reflexivity.
Qed.

Lemma mab_two_ready_state :
  exists s, mab_two_ready = Ok s /\ search_space s = ss_two /\ n_cats s = [2%Z] /\
    gamma s = [gamma_of 1 (2 * IZR 3 / 3) 2] /\ log_weights s = [[0; 0]] /\
    prob_dist s = Some [prob_of (gamma_of 1 (2 * IZR 3 / 3) 2) [0; 0]] /\
    data_buffer s = buffer_empty /\ best_y s = None /\ batch_size s = 1%Z.
Proof. eexists. split; [reflexivity|]. repeat split. Qed.

Lemma prob_of_two (g : R) : prob_of g [0; 0] = [1 / 2; 1 / 2].
Proof.
  unfold prob_of, Rsum. simpl. rewrite exp_0.
  f_equal; [|f_equal]; field.
Qed.

Lemma first_batch_reward : reward_of first_batch [0%Z] 0%Z = Ok (-1).
Proof.
  apply (reward_of_degenerate first_batch [0%Z] 0%Z [0%Z] 0%Z (-1) [] 1 []);
    reflexivity.
Qed.

(** The first observation of [mab_two_ready]: the sample [0] with the
    objective value 1. *)
Lemma first_observation (s : t) :
  mab_two_ready = Ok s ->
  exists s', observe s [[0%Z]] [1] = Ok s' /\
    log_weights s' =
      [[clip (0 + INR 1 * (1 * (-1) / (1 / 2)) * gamma_of 1 (2 * IZR 3 / 3) 2 / IZR 2)
          (-30) 30; 0]].
Proof.
  intros Hs.
  destruct mab_two_ready_state as (s0 & Hs0 & Hss & Hn & Hg & Hlw & Hpd & Hbuf & Hby & _).
  rewrite Hs in Hs0. injection Hs0 as <-.
  eexists. unfold observe. rewrite Hbuf, Hby, Hss, Hlw.
  change (buffer_append buffer_empty [[0%Z]] [1]) with first_batch.
  change (num_dims ss_two) with 1%Z.
  assert (HM : mab_rewards_of first_batch 1 [[0%Z]] = Ok [[-1]]).
  { unfold mab_rewards_of. change (py_range 0 1) with [0%Z]. cbn [map_res].
    rewrite first_batch_reward. reflexivity. }
  rewrite HM. change (py_range 0 1) with [0%Z].
  cbn [py_assert length Nat.eqb res_bind argmin_row of_option Z.leb Z.compare update_dims].
  unfold update_dim. rewrite Hn, Hg, Hpd, prob_of_two.
  split; reflexivity.
Qed.

(** C4, as the code has it.  [observe] replaces the weights of every
    dimension by the result of the loop over the batch, run with the
    number of observed rows, the rewards of the batch in that dimension
    and the distribution of the last [update_prob_dist]; each turn of
    that loop adds [len(x) * (reward / prob_dist[c]) * gamma / n_cats] to
    the weight of the selected category [c] and clips the sum to
    [-30, 30]. *)
Theorem observe_weight_update (s s' : t) (x : list sample) (y : list R) (j : Z) :
  observe s x y = Ok s' -> (0 <= j < num_dims (search_space s))%Z ->
  exists lw lw' pd p gamma_j k nominal_vars reward,
    py_get (log_weights s) j = Ok lw /\ py_get (log_weights s') j = Ok lw' /\
    prob_dist s = Some pd /\ py_get pd j = Ok p /\
    py_get (gamma s) j = Ok gamma_j /\ py_get (n_cats s) j = Ok k /\
    column x j = Ok nominal_vars /\
    map_res (fun _x => reward_of (buffer_append (data_buffer s) x y) _x j) x
      = Ok reward /\
    update_weights lw p (INR (length x)) gamma_j k nominal_vars reward = Ok lw' /\
    (forall l l'' ht hts G Gs,
       update_weights l p (INR (length x)) gamma_j k (ht :: hts) (G :: Gs) = Ok l'' ->
       exists pr w l',
         py_get p ht = Ok pr /\ py_get l ht = Ok w /\
         py_set l ht (clip (w + INR (length x) * (1 * G / pr) * gamma_j / IZR k) (-30) 30)
           = Ok l' /\
         -30 <= clip (w + INR (length x) * (1 * G / pr) * gamma_j / IZR k) (-30) 30 <= 30 /\
         update_weights l' p (INR (length x)) gamma_j k hts Gs = Ok l'').
Proof.
  unfold observe. intros H Hj.
  step_ok H. step_ok H. destruct a0 as [bx y_]. step_ok H. step_ok H. step_ok H.
  injection H as <-. cbn [log_weights with_observation].
  destruct (update_dims_ok s x a1 _ _ _ (py_range_NoDup 0 _)
              ltac:(apply List.Forall_forall; intros d Hd; apply py_range_in in Hd; lia)
              Ha3) as [_ Hin].
  destruct (Hin j (proj2 (py_range_in _ _ _) Hj))
    as (lw & lw' & Hlw & Hlw' & k & g & pd & p & reward & nv & Hk & Hg & Hpd & Hp
        & Hrew & Hcol & Hupd).
  destruct (mab_rewards_column _ _ _ _ j Ha2 Hj) as (reward' & Hr1 & Hr2).
  rewrite Hrew in Hr1. injection Hr1 as <-.
  assert (Hlen : length a1 = length x)
    by (apply (map_res_length _ _ _ Ha2)).
  rewrite Hlen in Hupd.
  exists lw, lw', pd, p, g, k, nv, reward. repeat split; try assumption.
  intros l l'' ht hts G Gs Hstep. cbn [update_weights] in Hstep.
  do 3 step_ok Hstep.
  exists a3, a4, a5. repeat split; try assumption; apply clip_range.
Qed.

Lemma observe_weight_update_witness :
  exists s s' lw lw' p gamma_j k nominal_vars reward,
    mab_two_ready = Ok s /\ observe s [[0%Z]] [1] = Ok s' /\
    py_get (log_weights s) 0 = Ok lw /\ py_get (log_weights s') 0 = Ok lw' /\
    update_weights lw p (INR (length [[0%Z]])) gamma_j k nominal_vars reward = Ok lw'.
Proof.
  destruct mab_two_ready_state as (s & Hs & Hss & _).
  destruct (first_observation s Hs) as (s' & Ho & _).
  destruct (observe_weight_update s s' [[0%Z]] [1] 0%Z Ho)
    as (lw & lw' & pd & p & g & k & nv & reward & H1 & H2 & _ & _ & _ & _ & _ & _ & H3 & _).
  { rewrite Hss. simpl. lia. }
  exists s, s', lw, lw', p, g, k, nv, reward. repeat split; assumption.
Defined.

(** C4 fails as stated: on the first observation of [mab_two_ready]
    (one row, [batch_size = 1], two categories, reward -1, weight 0) the
    new weight is [-gamma], the reward being divided by the probability
    1/2 of the category, and not [-gamma / 2]. *)
Lemma weight_update_divides_by_probability :
  exists s s' gamma_j w,
    mab_two_ready = Ok s /\ observe s [[0%Z]] [1] = Ok s' /\
    batch_size s = 1%Z /\ n_cats s = [2%Z] /\ gamma s = [gamma_j] /\
    log_weights s = [[0; 0]] /\
    reward_of (buffer_append (data_buffer s) [[0%Z]] [1]) [0%Z] 0%Z = Ok (-1) /\
    log_weights s' = [[w; 0]] /\
    w = - gamma_j /\
    w <> clip (0 + IZR (batch_size s) * (-1) * gamma_j / IZR 2) (-30) 30.
Proof.
  destruct mab_two_ready_state as (s & Hs & Hss & Hn & Hg & Hlw & Hpd & Hbuf & Hby & Hb).
  destruct (first_observation s Hs) as (s' & Ho & Hlw').
  pose proof gamma_two_bounds as Hgb.
  set (g := gamma_of 1 (2 * IZR 3 / 3) 2) in *.
  assert (Hw : clip (0 + INR 1 * (1 * (-1) / (1 / 2)) * g / IZR 2) (-30) 30 = - g).
  { rewrite clip_id; simpl; [field | ].
    replace (0 + 1 * (1 * -1 / (1 / 2)) * g / 2) with (- g) by field. lra. }
  exists s, s', g, (- g). rewrite Hb.
  repeat split; try assumption.
  - rewrite Hbuf. apply first_batch_reward.
  - rewrite Hlw', Hw. reflexivity.
  - rewrite clip_id; lra.
Qed.

(** ** The rewards that observe uses *)

Lemma matching_rewards_own (col : list Z) (v : Z) : forall (ys : list R) (i : nat) (yi : R),
  col !! i = Some v -> ys !! i = Some yi -> In (- yi) (matching_rewards col ys v).
Proof.
  induction col as [|c col IH]; intros [|y ys] [|i] yi Hc Hy; try discriminate;
    cbn [matching_rewards].
  - cbn in Hc, Hy. injection Hc as ->. injection Hy as ->.
    rewrite Z.eqb_refl. left. reflexivity.
  - cbn in Hc, Hy. destruct (c =? v)%Z; [right|]; apply (IH ys i yi Hc Hy).
Qed.

(** C10.  A call of [observe] that returns has stored the buffer with the
    batch appended, and the weights it stores for a dimension are those
    that the loop over the batch computes from the rewards taken on that
    stored buffer.  There the rewards matching a sample of the batch
    include the one of its own value, so the list is not empty and the
    sample's reward is the rescaled maximum: the reward 0 of the empty
    case is never assigned. *)
Theorem observe_rewards_match_own_sample (s s' : t) (x : list sample) (y : list R)
    (j : Z) (i : nat) (_x : sample) (yi : R) :
  observe s x y = Ok s' ->
  length (buf_x (data_buffer s)) = length (buf_y (data_buffer s)) ->
  (0 <= j < num_dims (search_space s))%Z ->
  x !! i = Some _x -> y !! i = Some yi ->
  data_buffer s' = buffer_append (data_buffer s) x y /\
  exists lw lw' pd p gamma_j k nominal_vars reward col v r rewards y0 ys,
    py_get (log_weights s) j = Ok lw /\ py_get (log_weights s') j = Ok lw' /\
    prob_dist s = Some pd /\ py_get pd j = Ok p /\
    py_get (gamma s) j = Ok gamma_j /\ py_get (n_cats s) j = Ok k /\
    column x j = Ok nominal_vars /\
    map_res (fun _x => reward_of (data_buffer s') _x j) x = Ok reward /\
    update_weights lw p (INR (length x)) gamma_j k nominal_vars reward = Ok lw' /\
    column (buf_x (data_buffer s')) j = Ok col /\ py_get _x j = Ok v /\
    matching_rewards col (buf_y (data_buffer s')) v = r :: rewards /\
    In (- yi) (r :: rewards) /\
    buf_y (data_buffer s') = y0 :: ys /\
    reward !! i = Some (rescale (Rlist_max r rewards) y0 ys).
Proof.
  unfold observe. intros H Hbuf Hj Hx Hy.
  step_ok H. step_ok H. destruct a0 as [bx y_]. step_ok H. step_ok H. step_ok H.
  injection H as <-. cbn [log_weights data_buffer with_observation].
  split; [reflexivity|].
  apply py_assert_ok, Nat.eqb_eq in Ha.
  destruct (update_dims_ok s x a1 _ _ _ (py_range_NoDup 0 _)
              ltac:(apply List.Forall_forall; intros d Hd; apply py_range_in in Hd; lia)
              Ha3) as [_ Hin].
  destruct (Hin j (proj2 (py_range_in _ _ _) Hj))
    as (lw & lw' & Hlw & Hlw' & k & g & pd & p & reward & nv & Hk & Hg & Hpd & Hp
        & Hrew & Hcol & Hupd).
  destruct (mab_rewards_column _ _ _ _ j Ha2 Hj) as (reward' & Hr1 & Hr2).
  rewrite Hrew in Hr1. injection Hr1 as <-.
  assert (Hlen : length a1 = length x) by (apply (map_res_length _ _ _ Ha2)).
  rewrite Hlen in Hupd.
  destruct (map_res_lookup _ _ _ i _x Hr2 Hx) as (b & Hb & Hrw).
  pose proof Hrw as Hrw'. unfold reward_of in Hrw'.
  apply res_bind_ok in Hrw' as (col & Hcolb & Hrw').
  apply res_bind_ok in Hrw' as (v & Hv & _).
  destruct (reward_matches_own_sample (data_buffer s) x y i _x j col v Hbuf Ha Hx Hcolb Hv)
    as (r & rewards & y0 & ys & Hm & Hys & Hval).
  rewrite Hrw in Hval. injection Hval as ->.
  exists lw, lw', pd, p, g, k, nv, reward, col, v, r, rewards, y0, ys.
  repeat split; try assumption.
  rewrite <- Hm. cbn [buffer_append buf_x buf_y] in *.
  unfold column in Hcolb. apply map_res_app_ok in Hcolb as (c1 & c2 & H1 & H2 & ->).
  rewrite matching_rewards_app by (rewrite (map_res_length _ _ _ H1); exact Hbuf).
  apply in_or_app. right.
  destruct (map_res_lookup _ _ _ i _x H2 Hx) as (v' & Hv' & Hget).
  rewrite Hv in Hget. injection Hget as <-.
  apply (matching_rewards_own c2 v y i yi Hv' Hy).
Qed.

Lemma observe_rewards_match_own_sample_witness :
  exists s s' reward r rewards y0 ys,
    mab_two_ready = Ok s /\ observe s [[0%Z]] [1] = Ok s' /\
    data_buffer s' = buffer_append (data_buffer s) [[0%Z]] [1] /\
    map_res (fun _x => reward_of (data_buffer s') _x 0) [[0%Z]] = Ok reward /\
    In (- 1) (r :: rewards) /\
    reward !! 0%nat = Some (rescale (Rlist_max r rewards) y0 ys).
Proof.
  destruct mab_two_ready_state as (s & Hs & Hss & _ & _ & _ & _ & Hbuf & _).
  destruct (first_observation s Hs) as (s' & Ho & _).
  destruct (observe_rewards_match_own_sample s s' [[0%Z]] [1] 0%Z 0%nat [0%Z] 1 Ho)
    as (Hd & lw & lw' & pd & p & g & k & nv & reward & col & v & r & rewards & y0 & ys
        & _ & _ & _ & _ & _ & _ & _ & Hrew & _ & _ & _ & _ & Hin & _ & Hri).
  - rewrite Hbuf. reflexivity.
  - rewrite Hss. simpl. lia.
  - reflexivity.
  - reflexivity.
  - exists s, s', reward, r, rewards, y0, ys. repeat split; assumption.
Defined.

End MABFacts.

(** * Further properties of the trust-region manager *)

Module TrManagerMore.
Import TrManager.

Lemma reset_radii_spec (vts : list string) (init : gmap string Z) :
  forall r r',
    reset_radii vts init r = Ok r' ->
    (forall v, In v vts -> r' !! v = init !! v) /\
    (forall v, ~ In v vts -> r' !! v = r !! v).
Proof.
  induction vts as [|w vts IH]; intros r r' H; simpl in H.
  - injection H as <-. split; [contradiction | reflexivity].
  - apply res_bind_ok in H as (i & Hi & H). apply of_option_ok in Hi.
    destruct (IH _ _ H) as [Hin Hout]. split.
    + intros v [<-|Hv]; [|apply Hin, Hv].
      destruct (in_dec string_dec w vts) as [Hw|Hw]; [apply Hin, Hw|].
      rewrite (Hout w Hw), lookup_insert_eq. symmetry. exact Hi.
    + intros v Hv. rewrite Hout by (intros Hc; apply Hv; right; exact Hc).
      apply lookup_insert_ne. intros ->. apply Hv. left. reflexivity.
Qed.

Lemma reset_radii_total (vts : list string) (init : gmap string Z) :
  Forall (fun v => is_Some (init !! v)) vts ->
  forall r, exists r', reset_radii vts init r = Ok r'.
Proof.
  induction 1 as [|v vts [i Hi] _ IH]; intros r; simpl; [eauto|].
  rewrite Hi. simpl. apply IH.
Qed.

(** X1.  [restart_tr] on a manager whose registered types all have an
    initial radius returns; it puts every registered radius back to its
    initial value whatever it was adjusted to, leaves the other entries of
    [radii] alone, clears the centre and empties the buffer. *)
Theorem restart_tr_resets (m : t) :
  Forall (fun v => is_Some (init_radii m !! v)) (variable_types m) ->
  exists m',
    restart_tr m = Ok m' /\
    (forall v, In v (variable_types m) -> radii m' !! v = init_radii m !! v) /\
    (forall v, ~ In v (variable_types m) -> radii m' !! v = radii m !! v) /\
    center m' = None /\ data_buffer m' = buffer_empty /\
    init_radii m' = init_radii m /\ min_radii m' = min_radii m /\
    max_radii m' = max_radii m /\ variable_types m' = variable_types m.
Proof.
  intros Hv. destruct (reset_radii_total _ _ Hv (radii m)) as [r' Hr].
  destruct (reset_radii_spec _ _ _ _ Hr) as [Hin Hout].
  unfold restart_tr. rewrite Hr. simpl. eexists. split; [reflexivity|].
  simpl. repeat split; assumption.
Qed.

Lemma tr12_adjusted_state :
  exists m, Scenarios.tr12_adjusted = Ok m /\ radii m !! "nominal" = Some 1 /\
    init_radii m !! "nominal" = Some 2 /\ variable_types m = ["nominal"%string].
Proof. eexists. split; [reflexivity|]. repeat split; vm_compute; reflexivity. Qed.

Lemma restart_tr_resets_witness :
  exists m m',
    Scenarios.tr12_adjusted = Ok m /\ radii m !! "nominal" = Some 1 /\
    restart_tr m = Ok m' /\ radii m' !! "nominal" = Some 2 /\
    center m' = None /\ data_buffer m' = buffer_empty.
Proof.
  destruct tr12_adjusted_state as (m & Hm & Hr & Hi & Hv).
  destruct (restart_tr_resets m) as (m' & Hm' & Hin & _ & Hc & Hb & _).
  { rewrite Hv. repeat constructor. rewrite Hi. eauto. }
  exists m, m'. repeat split; try assumption.
  rewrite Hin, Hi; [reflexivity|]. rewrite Hv. left. reflexivity.
Defined.

(** X2.  Restarting twice is restarting once: a second [restart_tr]
    returns the manager unchanged. *)
Theorem restart_tr_idempotent (m m1 : t) :
  restart_tr m = Ok m1 -> restart_tr m1 = Ok m1.
Proof.
  unfold restart_tr. intros H. apply res_bind_ok in H as (r & Hr & H).
  injection H as <-. simpl.
  destruct (reset_radii_spec _ _ _ _ Hr) as [Hin Hout].
  assert (Hsome : Forall (fun v => is_Some (init_radii m !! v)) (variable_types m)).
  { clear Hin Hout. revert Hr. generalize (radii m).
    induction (variable_types m) as [|v vts IH]; intros r0 Hr; [constructor|].
    simpl in Hr. apply res_bind_ok in Hr as (i & Hi & Hr). apply of_option_ok in Hi.
    constructor; [eauto | apply (IH _ Hr)]. }
  destruct (reset_radii_total _ _ Hsome r) as [r2 Hr2].
  destruct (reset_radii_spec _ _ _ _ Hr2) as [Hin2 Hout2].
  rewrite Hr2. simpl. do 2 f_equal.
  assert (r2 = r) as ->; [|reflexivity].
  apply map_eq. intros v.
  destruct (in_dec string_dec v (variable_types m)) as [Hv|Hv].
  - rewrite Hin2, Hin by exact Hv. reflexivity.
  - apply Hout2, Hv.
Qed.

Lemma restart_tr_idempotent_witness :
  exists m m1, Scenarios.tr12_adjusted = Ok m /\ restart_tr m = Ok m1 /\
    restart_tr m1 = Ok m1.
Proof.
  destruct tr12_adjusted_state as (m & Hm & Hr & Hi & Hv).
  destruct (restart_tr_resets m) as (m1 & Hm1 & _).
  { rewrite Hv. repeat constructor. rewrite Hi. eauto. }
  exists m, m1. repeat split; try assumption.
  apply (restart_tr_idempotent m m1 Hm1).
Defined.

(** One call of the base class keeps the stored bounds in order. *)
Lemma run_call_bounds (m m' : t) (c : call) :
  registered_within_bounds m -> run_call m c = Ok m' -> registered_within_bounds m'.
Proof.
  intros Hb Hc. destruct c as [ce|v lo hi i|x y|]; simpl in Hc.
  - destruct ce as [c|]; simpl in Hc.
    + destruct (Z.of_nat (length c) =? num_dims (search_space m)); simpl in Hc;
        [|discriminate].
      injection Hc as <-. exact Hb.
    + injection Hc as <-. exact Hb.
  - unfold register_radius in Hc.
    destruct ((lo <? i) && (i <=? hi)) eqn:Ea; simpl in Hc; [|discriminate].
    injection Hc as <-. apply andb_true_iff in Ea as [E1 E2].
    apply Z.ltb_lt in E1. apply Z.leb_le in E2.
    intros w Hw. simpl in *. destruct (decide (v = w)) as [->|Hne].
    + exists lo, hi, i. rewrite !lookup_insert_eq. repeat split; lia.
    + rewrite !lookup_insert_ne by exact Hne. apply Hb.
      apply in_app_or in Hw as [Hw|[Hw|[]]]; [exact Hw | congruence].
  - injection Hc as <-. exact Hb.
  - unfold restart_tr in Hc. apply res_bind_ok in Hc as (r & _ & Hc).
    injection Hc as <-. exact Hb.
Qed.

(** X3.  After any history of base-class calls on a fresh manager, every
    registered type has a radius, equal to its initial radius, strictly
    above its minimum and at most its maximum. *)
Theorem radii_within_bounds (ss : SearchSpace) (cs : list call) (v : string) :
  In v (variable_types (run (init ss) cs)) ->
  exists lo hi i,
    radii (run (init ss) cs) !! v = Some i /\
    init_radii (run (init ss) cs) !! v = Some i /\
    min_radii (run (init ss) cs) !! v = Some lo /\
    max_radii (run (init ss) cs) !! v = Some hi /\
    lo < i <= hi.
Proof.
  assert (Hinv : forall m, consistent m -> registered_within_bounds m ->
                 consistent (run m cs) /\ registered_within_bounds (run m cs)).
  { induction cs as [|c cs IH]; intros m Hc Hb; [split; assumption|].
    cbn [run]. destruct (run_call m c) as [m'| | |] eqn:Ec; try (apply IH; assumption).
    apply IH.
    - apply (TrManagerFacts.run_call_step m m' c Hc Ec).
    - apply (run_call_bounds m m' c Hb Ec). }
  destruct (Hinv (init ss) (TrManagerFacts.consistent_init ss)) as [[Hr _] Hb].
  { intros w []. }
  intros Hv. destruct (Hb v Hv) as (lo & hi & i & Hlo & Hhi & Hi & Hle).
  exists lo, hi, i. rewrite Hr. repeat split; assumption || lia.
Qed.

Lemma radii_within_bounds_witness :
  exists lo hi i,
    radii (run (init Scenarios.ss3) Scenarios.history) !! "nominal" = Some i /\
    init_radii (run (init Scenarios.ss3) Scenarios.history) !! "nominal" = Some i /\
    min_radii (run (init Scenarios.ss3) Scenarios.history) !! "nominal" = Some lo /\
    max_radii (run (init Scenarios.ss3) Scenarios.history) !! "nominal" = Some hi /\
    lo < i <= hi.
Proof.
  apply (radii_within_bounds Scenarios.ss3 Scenarios.history "nominal").
  vm_compute. left. reflexivity.
Defined.

(** ** The radius in force *)

Lemma run_step_tracks (m : t) (s : step) (cur ini : option Z) :
  tracks m cur ini ->
  exists m',
    (run_step m s = Ok m' \/ ((forall m1, run_step m s <> Ok m1) /\ m' = m)) /\
    search_space m' = search_space m /\
    forall sts, nominal_in_force (s :: sts) cur ini =
      nominal_in_force sts (radii m' !! "nominal") (init_radii m' !! "nominal") /\
      tracks m' (radii m' !! "nominal") (init_radii m' !! "nominal").
Proof.
  intros (Hr & Hi & Hv & Hin).
  assert (Hsame : tracks m (radii m !! "nominal") (init_radii m !! "nominal"))
    by (rewrite Hr, Hi; repeat split; tauto).
  destruct s as [[ce|v lo hi i|x y|]|f]; cbn [run_step run_call].
  - destruct (set_center m ce) as [m'| | |] eqn:E.
    + exists m'. split; [left; reflexivity|].
      assert (Hm : radii m' = radii m /\ init_radii m' = init_radii m /\
                   variable_types m' = variable_types m /\
                   search_space m' = search_space m).
      { unfold set_center in E. destruct ce as [c|].
        - apply res_bind_ok in E as (u & _ & E). injection E as <-. repeat split.
        - injection E as <-. repeat split. }
      destruct Hm as (E1 & E2 & E3 & E4). split; [exact E4|].
      intros sts. cbn [nominal_in_force]. rewrite E1, E2, Hr, Hi. split; [reflexivity|].
      unfold tracks. rewrite E1, E2, E3, Hr, Hi. repeat split; tauto.
    + exists m. split; [right; split; [intros m1; discriminate | reflexivity]|].
      split; [reflexivity|]. intros sts. cbn [nominal_in_force]. rewrite Hr, Hi.
      split; [reflexivity|]. rewrite <- Hr, <- Hi. exact Hsame.
    + exists m. split; [right; split; [intros m1; discriminate | reflexivity]|].
      split; [reflexivity|]. intros sts. cbn [nominal_in_force]. rewrite Hr, Hi.
      split; [reflexivity|]. rewrite <- Hr, <- Hi. exact Hsame.
    + exists m. split; [right; split; [intros m1; discriminate | reflexivity]|].
      split; [reflexivity|]. intros sts. cbn [nominal_in_force]. rewrite Hr, Hi.
      split; [reflexivity|]. rewrite <- Hr, <- Hi. exact Hsame.
  - unfold register_radius. cbn [nominal_in_force registers_nominal].
    destruct ((lo <? i) && (i <=? hi)) eqn:Ea; cbn [py_assert res_bind].
    + eexists. split; [left; reflexivity|]. split; [reflexivity|].
      intros sts. cbn [radii init_radii variable_types].
      destruct (decide (v = "nominal"%string)) as [->|Hne].
      * rewrite bool_decide_eq_true_2 by reflexivity. cbn [andb].
        rewrite !lookup_insert_eq. split; [reflexivity|].
        unfold tracks. cbn [radii init_radii variable_types].
        rewrite !lookup_insert_eq. repeat split.
        -- apply Forall_app. split.
           ++ eapply Forall_impl; [exact Hv|]. intros w [k Hk]. cbn beta.
              destruct (decide ("nominal"%string = w)) as [<-|Hw].
              ** rewrite lookup_insert_eq. eauto.
              ** rewrite lookup_insert_ne by exact Hw. eauto.
           ++ repeat constructor. rewrite lookup_insert_eq. eauto.
        -- eauto.
        -- intros _. apply in_or_app. right. left. reflexivity.
      * rewrite bool_decide_eq_false_2 by exact Hne. cbn [andb].
        rewrite !lookup_insert_ne by exact Hne. rewrite Hr, Hi.
        split; [reflexivity|].
        unfold tracks. cbn [radii init_radii variable_types].
        rewrite !lookup_insert_ne by exact Hne. rewrite Hr, Hi. repeat split.
        -- apply Forall_app. split.
           ++ eapply Forall_impl; [exact Hv|]. intros w [k Hk]. cbn beta.
              destruct (decide (v = w)) as [<-|Hw].
              ** rewrite lookup_insert_eq. eauto.
              ** rewrite lookup_insert_ne by exact Hw. eauto.
           ++ repeat constructor. rewrite lookup_insert_eq. eauto.
        -- intros Hn. apply Hin. apply in_app_or in Hn as [Hn|[Hn|[]]]; [exact Hn|].
           congruence.
        -- intros Hs. apply in_or_app. left. apply Hin, Hs.
    + exists m. split; [right; split; [intros m1; discriminate | reflexivity]|].
      split; [reflexivity|]. intros sts. rewrite andb_false_r, Hr, Hi.
      split; [reflexivity|]. rewrite <- Hr, <- Hi. exact Hsame.
  - eexists. split; [left; reflexivity|]. split; [reflexivity|].
    intros sts. cbn [nominal_in_force append radii init_radii]. rewrite Hr, Hi.
    split; [reflexivity|]. unfold tracks. cbn [append radii init_radii variable_types].
    rewrite Hr, Hi. repeat split; tauto.
  - destruct (reset_radii_total _ _ Hv (radii m)) as [r' Hr'].
    unfold restart_tr. rewrite Hr'. cbn [res_bind].
    eexists. split; [left; reflexivity|]. split; [reflexivity|].
    destruct (reset_radii_spec _ _ _ _ Hr') as [Hreset Hkeep].
    assert (Hnew : r' !! "nominal" = match ini with Some i => Some i | None => cur end).
    { destruct ini as [i|].
      - rewrite (Hreset "nominal"%string) by (apply Hin; eauto). exact Hi.
      - rewrite (Hkeep "nominal"%string); [exact Hr|].
        intros Hn. apply Hin in Hn. destruct Hn as [? Hn]. discriminate. }
    intros sts. cbn [nominal_in_force radii init_radii]. rewrite Hnew, Hi.
    split; [reflexivity|]. unfold tracks. cbn [radii init_radii variable_types].
    rewrite Hnew, Hi. repeat split; tauto.
  - eexists. split; [left; reflexivity|]. split; [reflexivity|].
    intros sts. cbn [nominal_in_force adjust_tr_radii radii init_radii].
    rewrite map_lookup_imap, Hr, Hi.
    assert (E : cur ≫= (fun r => Some (f "nominal"%string r))
                = option_map (f "nominal"%string) cur) by (destruct cur; reflexivity).
    rewrite E. split; [reflexivity|].
    unfold tracks. cbn [adjust_tr_radii radii init_radii variable_types].
    rewrite map_lookup_imap, Hr, Hi, E. repeat split; tauto.
Qed.

Lemma run_steps_tracks (sts : list step) : forall (m : t) (cur ini : option Z),
  tracks m cur ini ->
  search_space (run_steps m sts) = search_space m /\
  radii (run_steps m sts) !! "nominal" = nominal_in_force sts cur ini.
Proof.
  induction sts as [|s sts IH]; intros m cur ini Ht.
  - split; [reflexivity|]. apply Ht.
  - destruct (run_step_tracks m s cur ini Ht) as (m' & Hrun & Hss & Hnext).
    destruct (Hnext sts) as [Hn Ht'].
    destruct (IH m' _ _ Ht') as [IHs IHr].
    assert (E : run_steps m (s :: sts) = run_steps m' sts).
    { cbn [run_steps]. destruct Hrun as [->|[Hno ->]]; [reflexivity|].
      destruct (run_step m s) as [m1| | |] eqn:E1; try reflexivity.
      exfalso. apply (Hno m1). reflexivity. }
    rewrite E, IHs, IHr, Hss, Hn. split; reflexivity.
Qed.

Lemma nominal_in_force_none (sts : list step) : forall cur ini : option Z,
  (is_Some cur <-> is_Some ini) ->
  (nominal_in_force sts cur ini = None <-> cur = None /\ ever_registered sts = false).
Proof.
  unfold ever_registered.
  induction sts as [|s sts IH]; intros cur ini Hci; cbn [nominal_in_force existsb].
  - tauto.
  - destruct s as [[ce|v lo hi i|x y|]|f]; cbn [nominal_in_force].
    + rewrite (IH cur ini Hci). cbn [registers_nominal orb]. tauto.
    + destruct (registers_nominal (CRegisterRadius v lo hi i)) eqn:E; cbn [orb].
      * rewrite (IH (Some i) (Some i)) by tauto. split; [intros [? _]|intros [_ ?]];
          discriminate.
      * apply (IH cur ini Hci).
    + rewrite (IH cur ini Hci). cbn [registers_nominal orb]. tauto.
    + cbn [registers_nominal orb]. destruct ini as [i|].
      * rewrite (IH (Some i) (Some i)) by tauto.
        assert (is_Some cur) as [c ->] by (apply Hci; eauto).
        split; intros [? ?]; discriminate.
      * apply (IH cur None Hci).
    + cbn [orb]. rewrite (IH (option_map (f "nominal"%string) cur) ini).
      * destruct cur; cbn; split; intros [? ?]; (discriminate || tauto).
      * destruct cur; cbn; [|exact Hci]. rewrite <- Hci. split; eauto.
Qed.

(** C8.  After any history of base-class calls and radius adjustments on
    a fresh manager, [get_nominal_radius] returns 1 when the space has
    exactly one nominal dimension; otherwise it raises when no
    registration of "nominal" ever passed, and when one did it returns
    the radius in force: the one of the latest registration, as adjusted
    since and as put back to the initial one by a restart. *)
Theorem get_nominal_radius_in_force (ss : SearchSpace) (sts : list step) :
  get_nominal_radius (run_steps (init ss) sts) =
    (if num_nominal ss =? 1 then Ok 1
     else match nominal_in_force sts None None with
          | Some r => Ok r
          | None => Raise
          end) /\
  (nominal_in_force sts None None = None <-> ever_registered sts = false).
Proof.
  assert (Ht : tracks (init ss) None None).
  { repeat split; try reflexivity; try constructor.
    - intros [].
    - intros [? H]. discriminate. }
  destruct (run_steps_tracks sts (init ss) None None Ht) as [Hs Hr].
  split.
  - rewrite TrManagerFacts.get_nominal_radius_eq, Hs, Hr. reflexivity.
  - rewrite (nominal_in_force_none sts None None) by tauto. tauto.
Qed.

(** On [adjusted_history] the radius registered at 2 is lowered twice,
    restored and lowered once: 1 is in force at the end, the initial
    radius being 2, and 0 after the first three steps; on [ss12], which
    has one nominal dimension, the answer after these three steps is 1. *)
Example adjusted_radius :
  get_nominal_radius (run_steps (init Scenarios.ss3) Scenarios.adjusted_history) = Ok 1 /\
  init_radii (run_steps (init Scenarios.ss3) Scenarios.adjusted_history) !! "nominal"
    = Some 2 /\
  get_nominal_radius
    (run_steps (init Scenarios.ss3) (firstn 3 Scenarios.adjusted_history)) = Ok 0 /\
  get_nominal_radius
    (run_steps (init Scenarios.ss12) (firstn 3 Scenarios.adjusted_history)) = Ok 1.
Proof. repeat split; vm_compute; reflexivity. Qed.

End TrManagerMore.

(** * Further properties of the genetic algorithm *)

Module GAMore.
Import GA Scenarios.

(** ** Suggestions *)

Lemma take_from_queue_ok (queue rows queue' : list sample) (idx n : nat) :
  take_from_queue queue idx n = Ok (rows, queue') ->
  (idx + n <= length queue)%nat /\ rows = take n (drop idx queue) /\
  queue' = take idx queue ++ drop (idx + n) queue /\ length rows = n.
Proof.
  unfold take_from_queue. destruct (Nat.leb (idx + n) (length queue)) eqn:E;
    [|discriminate].
  intros H. injection H as <- <-. apply Nat.leb_le in E.
  repeat split; [exact E|]. rewrite length_take, length_drop.
  apply Nat.min_l. lia.
Qed.

Lemma suggest_loop_length (fuel : nat) :
  forall g idx n_remaining x_next tape rows g' tape',
    suggest_loop fuel g idx n_remaining x_next tape = Ok (rows, g', tape') ->
    length rows = (length x_next + n_remaining)%nat.
Proof.
  induction fuel as [|fuel IH]; intros g idx n_remaining x_next tape rows g' tape' H;
    destruct n_remaining as [|k]; cbn [suggest_loop] in H;
    try (apply ret_ok in H as [H _]; injection H as -> ->; lia);
    try discriminate.
  step_ok H. step_ok H. destruct a0 as [taken queue]. apply lift_ok in Ha0 as [Ht ->].
  apply take_from_queue_ok in Ht as (_ & _ & _ & Hlen).
  apply IH in H. rewrite H, length_app, Hlen. lia.
Qed.

(** X4.  A call of [method_suggest] that returns, returns exactly
    [n_suggestions] rows, and [n_suggestions] is at most [pop_size]. *)
Theorem method_suggest_length (g g' : t) (n_suggestions : nat) (tape tape' : list draw)
    (rows : list sample) :
  method_suggest g n_suggestions tape = Ok (rows, g', tape') ->
  length rows = n_suggestions /\ Z.of_nat n_suggestions <= pop_size g.
Proof.
  unfold method_suggest. intros H. step_ok H. apply lift_ok in Ha as [Ha ->].
  apply py_assert_ok, Z.leb_le in Ha. split; [|exact Ha].
  step_ok H. destruct a0 as [[[g1 idx] n_remaining] x_next].
  apply suggest_loop_length in H. rewrite H. clear H.
  destruct n_suggestions as [|k]; [apply ret_ok in Ha0 as [E _]; injection E as -> -> -> ->; reflexivity|].
  destruct (x_queue g) as [|q0 queue] eqn:Eq.
  - apply ret_ok in Ha0 as [E _]. injection E as -> -> -> ->. reflexivity.
  - step_ok Ha0. destruct a0 as [taken queue']. apply lift_ok in Ha1 as [Ht ->].
    apply ret_ok in Ha0 as [E _]. injection E as -> -> -> ->.
    apply take_from_queue_ok in Ht as (_ & _ & _ & Hlen).
    rewrite ?length_app, Hlen. cbn [length]. lia.
Qed.

Lemma method_suggest_length_witness :
  exists g rows g' tape',
    ga_observed = Ok g /\ method_suggest g 4 tape_dup = Ok (rows, g', tape') /\
    length rows = 4%nat /\ Z.of_nat 4 <= pop_size g.
Proof.
  eexists. eexists. eexists. eexists.
  split; [vm_compute; reflexivity|].
  match goal with
  | |- method_suggest ?g ?n ?tp = Ok (?r, ?g', ?tp') /\ _ =>
      assert (H : method_suggest g n tp = Ok (r, g', tp')) by (vm_compute; reflexivity)
  end.
  split; [exact H|]. apply (method_suggest_length _ _ _ _ _ _ H).
Defined.

(** X5.  While the queue holds enough rows, [method_suggest] hands out its
    first [n_suggestions] rows in order, keeps the rest, generates nothing
    and draws nothing. *)
Theorem method_suggest_fifo (g : t) (n_suggestions : nat) (tape : list draw) :
  (0 < n_suggestions)%nat ->
  (n_suggestions <= length (x_queue g))%nat ->
  Z.of_nat n_suggestions <= pop_size g ->
  method_suggest g n_suggestions tape =
    Ok (take n_suggestions (x_queue g),
        with_queue g (drop n_suggestions (x_queue g)), tape).
Proof.
  intros Hpos Hlen Hpop. unfold method_suggest, bind, lift.
  rewrite (proj2 (Z.leb_le _ _) Hpop). cbn [py_assert].
  destruct n_suggestions as [|k]; [lia|].
  destruct (x_queue g) as [|q0 queue] eqn:Eq; [simpl in Hlen; lia|].
  rewrite Nat.min_l by exact Hlen.
  unfold take_from_queue. rewrite !Nat.add_0_l.
  rewrite (proj2 (Nat.leb_le _ _) Hlen). unfold ret.
  rewrite Nat.sub_diag. reflexivity.
Qed.

Lemma method_suggest_fifo_witness :
  exists g, ga_mutate = Ok g /\
    method_suggest g 3 [] =
      Ok (take 3 (x_queue g), with_queue g (drop 3 (x_queue g)), []).
Proof.
  eexists. split; [vm_compute; reflexivity|].
  apply method_suggest_fifo; [lia | simpl; lia | simpl; lia].
Defined.

(** ** The generation step *)

Lemma py_set_length {A : Type} (l l' : list A) (i : Z) (v : A) :
  py_set l i v = Ok l' -> length l' = length l.
Proof.
  unfold py_set. destruct (py_pos l i); [|discriminate].
  intros H. injection H as <-. apply length_insert.
Qed.

Lemma py_set_in_range {A : Type} (l l' : list A) (i : Z) (v : A) :
  0 <= i -> py_set l i v = Ok l' -> i < Z.of_nat (length l).
Proof.
  intros Hi. unfold py_set. rewrite py_pos_nonneg by exact Hi.
  destruct (i <? Z.of_nat (length l)) eqn:E; [|discriminate].
  intros _. apply Z.ltb_lt, E.
Qed.

Lemma py_set_elem {A : Type} (l l' : list A) (i : Z) (v a : A) :
  py_set l i v = Ok l' -> In a l' -> a = v \/ In a l.
Proof.
  unfold py_set. destruct (py_pos l i) as [k|]; [|discriminate].
  intros H Ha. injection H as <-.
  apply list_elem_of_In, list_elem_of_lookup in Ha as [j Hj].
  destruct (decide (k = j)) as [->|Hne].
  - destruct (decide (j < length l)%nat) as [Hlt|Hge].
    + rewrite list_lookup_insert_eq in Hj by exact Hlt. left. congruence.
    + rewrite list_insert_ge in Hj by lia. right.
      apply list_elem_of_In, list_elem_of_lookup. eauto.
  - rewrite list_lookup_insert_ne in Hj by exact Hne. right.
    apply list_elem_of_In, list_elem_of_lookup. eauto.
Qed.

(** The pieces of a generation step that returns. *)
Lemma generation_steps (g g' : t) (tape tape' : list draw) :
  _generate_new_population g tape = Ok (g', tape') ->
  exists xe ye parents pop0 pop queue tape1,
    nan_rows (pop_size g) = Ok pop0 /\
    offspring g xe parents pop0 (py_range_by2 (pop_size g)) tape1 = Ok (pop, tape') /\
    map_res of_option pop = Ok queue /\
    g' = with_generation g xe ye queue.
Proof.
  unfold _generate_new_population. intros H.
  step_ok H. step_ok H. step_ok H. step_ok H. step_ok H.
  step_ok H. apply lift_ok in Ha4 as [Hpop ->].
  step_ok H. step_ok H. apply lift_ok in Ha5 as [Hq ->].
  apply ret_ok in H as [-> ->].
  do 7 eexists. repeat split; eassumption.
Qed.

Lemma offspring_pair_ok (g : t) (xe : list sample) (parents pop pop' : list (option sample))
    (k : Z) (tape tape' : list draw) :
  offspring_pair g xe parents pop k tape = Ok (pop', tape') ->
  length pop' = length pop /\
  (0 <= k -> k + 1 < Z.of_nat (length pop)) /\
  exists c1 c2 ch1 ch2 ch2' tape1 tape2 tape3,
    fresh_crossover g parents tape = Ok (ch1, ch2, tape1) /\
    child1_loop (S (length tape1)) g xe parents pop ch1 ch2 0 tape1 = Ok (c1, ch2', tape2) /\
    child2_loop (S (length tape2)) g xe parents ch2' 0 tape2 = Ok (c2, tape3) /\
    forall r, In (Some r) pop' -> r = c1 \/ r = c2 \/ In (Some r) pop.
Proof.
  unfold offspring_pair. intros H.
  step_ok H. destruct a as [ch1 ch2].
  step_ok H. destruct a as [c1 ch2'].
  step_ok H. step_ok H. apply lift_ok in Ha2 as [Hs1 ->].
  apply lift_ok in H as [Hs2 ->].
  pose proof (py_set_length _ _ _ _ Hs1) as L1.
  pose proof (py_set_length _ _ _ _ Hs2) as L2.
  split; [congruence|]. split.
  - intros Hk. assert (Hk1 : 0 <= k + 1) by lia.
    pose proof (py_set_in_range _ _ _ _ Hk1 Hs2). lia.
  - exists c1, a, ch1, ch2, ch2', tape0, tape1, tape2. repeat split; try assumption.
    intros r Hr. apply (py_set_elem _ _ _ _ _ Hs2) in Hr as [Hr|Hr]; [right; left; congruence|].
    apply (py_set_elem _ _ _ _ _ Hs1) in Hr as [Hr|Hr]; [left; congruence|].
    right. right. exact Hr.
Qed.

Lemma offspring_ok (g : t) (xe : list sample) (parents : list (option sample))
    (ks : list Z) :
  forall pop pop' tape tape',
    offspring g xe parents pop ks tape = Ok (pop', tape') ->
    length pop' = length pop /\
    (forall k, In k ks -> 0 <= k -> k + 1 < Z.of_nat (length pop)) /\
    (forall r, In (Some r) pop' -> In (Some r) pop \/ is_new g xe r = true) /\
    (ks <> [] -> exists ch tape1, fresh_crossover g parents tape = Ok (ch, tape1)).
Proof.
  induction ks as [|k ks IH]; intros pop pop' tape tape' H; simpl in H.
  - apply ret_ok in H as [-> _]. repeat split; try contradiction; auto.
  - step_ok H. destruct (offspring_pair_ok _ _ _ _ _ _ _ _ Ha)
      as (L & Hk & c1 & c2 & ch1 & ch2 & ch2' & t1 & t2 & t3 & Hf & H1 & H2 & Hel).
    destruct (IH _ _ _ _ H) as (L' & Hks & Hnew & _).
    split; [congruence|]. split; [|split].
    + intros j [<-|Hj] Hj0; [apply Hk, Hj0|]. rewrite <- L. apply Hks; assumption.
    + intros r Hr. destruct (Hnew r Hr) as [Hin|Hn]; [|right; exact Hn].
      destruct (Hel r Hin) as [->|[->|Hp]].
      * right. apply (GAFacts.child1_loop_accepts _ _ _ _ _ _ _ _ _ _ _ _ H1).
      * right. apply (GAFacts.child2_loop_accepts _ _ _ _ _ _ _ _ _ H2).
      * left. exact Hp.
    + intros _. eauto.
Qed.

(** X6.  A generation step that returns leaves a queue of exactly
    [pop_size] rows, empties the accumulated population and touches neither
    the observation buffer nor the best point. *)
Theorem generation_queue_size (g g' : t) (tape tape' : list draw) :
  _generate_new_population g tape = Ok (g', tape') ->
  Z.of_nat (length (x_queue g')) = pop_size g /\
  x_pop g' = [] /\ y_pop g' = [] /\
  data_buffer g' = data_buffer g /\ best_y g' = best_y g /\ _best_x g' = _best_x g.
Proof.
  intros H. apply generation_steps in H
    as (xe & ye & parents & pop0 & pop & queue & tape1 & Hn & Ho & Hq & ->).
  cbn [x_queue x_pop y_pop data_buffer best_y _best_x with_generation].
  repeat split.
  rewrite (map_res_length _ _ _ Hq).
  destruct (offspring_ok _ _ _ _ _ _ _ _ Ho) as (L & _).
  rewrite L. unfold nan_rows in Hn.
  destruct (pop_size g <? 0) eqn:E; [discriminate|]. injection Hn as <-.
  apply Z.ltb_ge in E. rewrite repeat_length. lia.
Qed.

Lemma generation_queue_size_witness :
  exists g g' tape',
    ga_before_second = Ok g /\
    _generate_new_population g tape_second = Ok (g', tape') /\
    Z.of_nat (length (x_queue g')) = pop_size g /\ x_pop g' = [] /\ y_pop g' = [] /\
    data_buffer g' = data_buffer g /\ best_y g' = best_y g /\ _best_x g' = _best_x g.
Proof.
  eexists. eexists. eexists.
  split; [vm_compute; reflexivity|].
  match goal with
  | |- _generate_new_population ?g ?tp = Ok (?g', ?tp') /\ _ =>
      assert (H : _generate_new_population g tp = Ok (g', tp'))
        by (vm_compute; reflexivity)
  end.
  split; [exact H|]. apply (generation_queue_size _ _ _ _ H).
Defined.

Lemma in_py_range_by2_last (n : Z) :
  Z.odd n = true -> 0 < n -> In (n - 1) (py_range_by2 n).
Proof.
  intros Hodd Hn. unfold py_range_by2. apply in_map_iff.
  apply Z.odd_spec in Hodd as [m Hm].
  exists (Z.to_nat m). split; [lia|]. apply in_seq.
  replace ((n + 1) / 2) with (m + 1); [lia|].
  subst n. replace (2 * m + 1 + 1) with ((m + 1) * 2) by lia.
  rewrite Z.div_mul by lia. reflexivity.
Qed.

(** X7.  With an odd [pop_size] no generation step returns: the second
    child of the last pair has no row to go to. *)
Theorem generation_fails_on_odd_pop_size (g : t) (tape : list draw) :
  Z.odd (pop_size g) = true ->
  forall r, _generate_new_population g tape <> Ok r.
Proof.
  intros Hodd [g' tape'] H. apply generation_steps in H
    as (xe & ye & parents & pop0 & pop & queue & tape1 & Hn & Ho & _).
  unfold nan_rows in Hn. destruct (pop_size g <? 0) eqn:E; [discriminate|].
  injection Hn as <-. apply Z.ltb_ge in E.
  assert (Hpos : 0 < pop_size g) by (destruct (Z.eq_dec (pop_size g) 0) as [E0|]; [rewrite E0 in Hodd; discriminate | lia]).
  destruct (offspring_ok _ _ _ _ _ _ _ _ Ho) as (_ & Hks & _).
  specialize (Hks (pop_size g - 1) (in_py_range_by2_last _ Hodd Hpos) ltac:(lia)).
  rewrite repeat_length in Hks. lia.
Qed.

Lemma generation_fails_on_odd_pop_size_witness :
  exists g, ga_odd_pop = Ok g /\ forall r, _generate_new_population g tape_dup <> Ok r.
Proof.
  eexists. split; [vm_compute; reflexivity|].
  apply generation_fails_on_odd_pop_size. reflexivity.
Defined.

Lemma crossover_raises_below_three_dims (g : t) (x1 x2 : sample) (tape : list draw) :
  num_dims (search_space g) <= 2 -> _crossover g x1 x2 tape = Raise.
Proof.
  intros Hd. unfold _crossover, bind, lift, randint, py_assert.
  destruct (num_ordinal (search_space g) + num_nominal (search_space g)
            =? num_dims (search_space g)); [|reflexivity].
  rewrite (proj2 (Z.leb_le (num_dims (search_space g) - 1) 1)) by lia.
  destruct (tr_manager g); reflexivity.
Qed.

(** X8.  On a search space of one or two dimensions [_crossover] raises
    whatever the parents and the draws, the interval of its cut being
    empty; hence no generation step with a positive [pop_size] returns. *)
Theorem generation_fails_below_three_dims (g : t) :
  num_dims (search_space g) <= 2 ->
  (forall x1 x2 tape, _crossover g x1 x2 tape = Raise) /\
  (0 < pop_size g -> forall tape r, _generate_new_population g tape <> Ok r).
Proof.
  intros Hd. split; [intros; apply crossover_raises_below_three_dims, Hd|].
  intros Hpos tape [g' tape'] H. apply generation_steps in H
    as (xe & ye & parents & pop0 & pop & queue & tape1 & _ & Ho & _).
  destruct (offspring_ok _ _ _ _ _ _ _ _ Ho) as (_ & _ & _ & Hf).
  destruct Hf as ([ch1 ch2] & tape2 & Hf).
  { unfold py_range_by2. destruct (Z.to_nat ((pop_size g + 1) / 2)) eqn:E; [|discriminate].
    assert (1 <= (pop_size g + 1) / 2) by (apply Z.div_le_lower_bound; lia). lia. }
  unfold fresh_crossover in Hf. do 4 step_ok Hf.
  rewrite crossover_raises_below_three_dims in Hf by exact Hd. discriminate.
Qed.

Lemma generation_fails_below_three_dims_witness :
  exists g, ga_two_dims = Ok g /\
    (forall x1 x2 tape, _crossover g x1 x2 tape = Raise) /\
    (forall tape r, _generate_new_population g tape <> Ok r).
Proof.
  eexists. split; [vm_compute; reflexivity|].
  match goal with
  | |- (forall x1 x2 tape, _crossover ?g _ _ _ = _) /\ _ =>
      destruct (generation_fails_below_three_dims g) as [Hc Hg]; [simpl; lia|]
  end.
  split; [exact Hc|]. apply Hg. simpl. lia.
Defined.

(** ** Deduplication against the observations *)

Lemma row_eqb_eq (a b : sample) : row_eqb a b = true <-> a = b.
Proof.
  revert b. induction a as [|u a IH]; intros [|v b]; simpl;
    try (split; [discriminate | discriminate]); [split; reflexivity|].
  rewrite andb_true_iff, Z.eqb_eq, IH. split.
  - intros [-> ->]. reflexivity.
  - intros E. injection E as -> ->. split; reflexivity.
Qed.

Lemma not_among_spec (c : sample) (rows : list sample) :
  not_among c rows = true <-> ~ In c rows.
Proof.
  unfold not_among. rewrite forallb_forall. split.
  - intros H Hin. specialize (H c Hin). apply negb_true_iff in H.
    assert (row_eqb c c = true) by (apply row_eqb_eq; reflexivity). congruence.
  - intros H r Hr. apply negb_true_iff. destruct (row_eqb c r) eqn:E; [|reflexivity].
    apply row_eqb_eq in E. subst. contradiction.
Qed.

Lemma map_res_of_option {A : Type} (l : list (option A)) (r : list A) :
  map_res of_option l = Ok r -> l = map Some r.
Proof.
  revert r. induction l as [|a l IH]; simpl; intros r H.
  - injection H as <-. reflexivity.
  - apply res_bind_ok in H as (b & Hb & H). apply res_bind_ok in H as (bs & Hbs & H).
    injection H as <-. apply of_option_ok in Hb. subst. simpl. f_equal. apply IH, Hbs.
Qed.

(** X9.  Every row of a generated population is new: with
    [allow_repeating_suggestions] false it is none of the samples observed
    so far, with it true it is no member of the elite set. *)
Theorem generation_rows_new (g g' : t) (tape tape' : list draw) :
  _generate_new_population g tape = Ok (g', tape') ->
  exists xe, x_elite g' = Some xe /\
    forall r, In r (x_queue g') ->
      (allow_repeating_suggestions g = false -> ~ In r (buf_x (data_buffer g))) /\
      (allow_repeating_suggestions g = true -> ~ In r xe).
Proof.
  intros H. apply generation_steps in H
    as (xe & ye & parents & pop0 & pop & queue & tape1 & Hn & Ho & Hq & ->).
  exists xe. split; [reflexivity|]. cbn [x_queue with_generation]. intros r Hr.
  destruct (offspring_ok _ _ _ _ _ _ _ _ Ho) as (_ & _ & Hnew & _).
  apply map_res_of_option in Hq. subst pop.
  destruct (Hnew r (in_map Some _ _ Hr)) as [Hin|Hn'].
  - unfold nan_rows in Hn. destruct (pop_size g <? 0); [discriminate|].
    injection Hn as <-. apply repeat_spec in Hin. discriminate.
  - unfold is_new in Hn'. split; intros Ha; rewrite Ha in Hn'; simpl in Hn';
      apply not_among_spec, Hn'.
Qed.

Lemma generation_rows_new_witness :
  exists g g' tape' xe,
    ga_before_second = Ok g /\
    _generate_new_population g tape_second = Ok (g', tape') /\
    x_elite g' = Some xe /\
    forall r, In r (x_queue g') -> ~ In r (buf_x (data_buffer g)).
Proof.
  eexists. eexists. eexists.
  match goal with
  | |- exists xe, ga_before_second = Ok ?g /\ _ =>
      assert (Hg : ga_before_second = Ok g) by (vm_compute; reflexivity)
  end.
  match goal with
  | |- exists xe, _ /\ _generate_new_population ?g ?tp = Ok (?g', ?tp') /\ _ =>
      assert (H : _generate_new_population g tp = Ok (g', tp'))
        by (vm_compute; reflexivity)
  end.
  destruct (generation_rows_new _ _ _ _ H) as (xe & Hxe & Hall).
  exists xe. repeat split; try assumption.
  intros r Hr. apply (proj1 (Hall r Hr)). reflexivity.
Defined.

(** ** Crossover *)

Lemma splice_eq (idx : Z) (x1 x2 : sample) :
  0 <= idx -> splice idx x1 x2 = take (Z.to_nat idx) x2 ++ drop (Z.to_nat idx) x1.
Proof.
  intros Hi. unfold splice, py_take. rewrite (proj2 (Z.leb_le 0 idx) Hi).
  f_equal. rewrite length_take.
  destruct (Nat.le_ge_cases (Z.to_nat idx) (length x1)) as [Hle|Hge].
  - rewrite Nat.min_l by exact Hle. reflexivity.
  - rewrite Nat.min_r by exact Hge. rewrite !drop_ge by lia. reflexivity.
Qed.

(** X10.  Without a trust region [_crossover] consumes one draw, a cut
    [idx] with [1 <= idx < num_dims - 1], and exchanges the coordinates
    before the cut: each child has its parent's length, the other
    parent's coordinates before [idx] and its own from [idx] on. *)
Theorem crossover_exchanges_prefix (g : t) (x1 x2 c1 c2 : sample) (tape tape' : list draw) :
  tr_manager g = None -> length x1 = length x2 ->
  _crossover g x1 x2 tape = Ok (c1, c2, tape') ->
  exists idx : nat,
    1 <= Z.of_nat idx < num_dims (search_space g) - 1 /\
    tape = DInt (Z.of_nat idx) :: tape' /\
    length c1 = length x1 /\ length c2 = length x2 /\
    forall i : nat,
      ((i < idx)%nat -> c1 !! i = x2 !! i /\ c2 !! i = x1 !! i) /\
      ((idx <= i)%nat -> c1 !! i = x1 !! i /\ c2 !! i = x2 !! i).
Proof.
  intros Htr Hlen H. unfold _crossover in H. rewrite Htr in H.
  step_ok H. apply lift_ok in Ha as [_ ->].
  step_ok H. apply randint_ok in Ha as [Hidx ->].
  apply ret_ok in H as [H ->]. injection H as -> ->.
  rewrite !splice_eq by lia.
  exists (Z.to_nat a0). rewrite Z2Nat.id by lia.
  split; [exact Hidx|]. split; [reflexivity|].
  assert (Hl : forall u v : sample, length u = length v ->
               length (take (Z.to_nat a0) v ++ drop (Z.to_nat a0) u) = length u).
  { intros u v E. rewrite length_app, length_take, length_drop. lia. }
  split; [apply Hl, Hlen|]. split; [apply Hl; congruence|].
  assert (Hp : forall (u v : sample) (i : nat), length u = length v ->
               ((i < Z.to_nat a0)%nat ->
                (take (Z.to_nat a0) v ++ drop (Z.to_nat a0) u) !! i = v !! i) /\
               ((Z.to_nat a0 <= i)%nat ->
                (take (Z.to_nat a0) v ++ drop (Z.to_nat a0) u) !! i = u !! i)).
  { intros u v i E. split; intros Hi.
    - destruct (Nat.lt_ge_cases i (length v)) as [Hv|Hv].
      + rewrite lookup_app_l by (rewrite length_take; lia).
        apply lookup_take_lt. exact Hi.
      + rewrite (lookup_ge_None_2 v) by exact Hv. apply lookup_ge_None_2.
        rewrite length_app, length_take, length_drop. lia.
    - destruct (Nat.le_gt_cases (Z.to_nat a0) (length v)) as [Hv|Hv].
      + rewrite lookup_app_r by (rewrite length_take; lia).
        rewrite length_take, Nat.min_l by exact Hv. rewrite lookup_drop.
        f_equal. lia.
      + rewrite (lookup_ge_None_2 u) by lia. apply lookup_ge_None_2.
        rewrite length_app, length_take, length_drop. lia. }
  intros i. split; intros Hi; split.
  - apply (Hp x1 x2 i Hlen), Hi.
  - apply (Hp x2 x1 i (eq_sym Hlen)), Hi.
  - apply (Hp x1 x2 i Hlen), Hi.
  - apply (Hp x2 x1 i (eq_sym Hlen)), Hi.
Qed.

Lemma crossover_exchanges_prefix_witness :
  exists g idx,
    ga_mutate = Ok g /\
    _crossover g [0; 0; 0] [1; 1; 1] [DInt 1] = Ok ([1; 0; 0], [0; 1; 1], []) /\
    1 <= Z.of_nat idx < num_dims (search_space g) - 1 /\
    [DInt 1] = DInt (Z.of_nat idx) :: [] /\
    length [1; 0; 0] = length [0; 0; 0] /\ length [0; 1; 1] = length [1; 1; 1].
Proof.
  eexists.
  match goal with
  | |- exists idx, ga_mutate = Ok ?g /\ _ =>
      assert (Hg : ga_mutate = Ok g) by (vm_compute; reflexivity);
      destruct (crossover_exchanges_prefix g [0; 0; 0] [1; 1; 1] [1; 0; 0] [0; 1; 1]
                  [DInt 1] [] eq_refl eq_refl ltac:(vm_compute; reflexivity))
        as (idx & H1 & H2 & H3 & H4 & _)
  end.
  exists idx. repeat split; try assumption; try (vm_compute; reflexivity); lia.
Defined.

Lemma project_distance (m : TrManager.t) (c x x' : sample) (tape tape' : list draw) :
  project m c x (hamming_distance c x) tape = Ok (x', tape') ->
  exists r, TrManager.get_nominal_radius m = Ok r /\
    hamming_distance c x' = Z.min (hamming_distance c x) r.
Proof.
  unfold project. intros H. step_ok H. apply lift_ok in Ha as [Hr ->].
  exists a. split; [exact Hr|].
  destruct (a <? hamming_distance c x) eqn:E.
  - step_ok H. apply lift_ok in Ha as [Hr' ->]. rewrite Hr in Hr'. injection Hr' as <-.
    step_ok H. apply ret_ok in H as [-> _].
    match goal with
    | Hs : choice_subset _ _ _ = Ok (?sel, _) |- _ =>
        apply GAFacts.choice_subset_ok in Hs as (Hlen & Hnd & Hin);
        rewrite (GAFacts.reset_to_distance c sel x Hnd Hin)
    end.
    apply Z.ltb_lt in E. lia.
  - apply ret_ok in H as [-> _]. apply Z.ltb_ge in E. lia.
Qed.

(** X11.  With a trust region each child of [_crossover] is brought to
    Hamming distance [min(d, r)] of the centre, [d] being the distance of
    the spliced child and [r] the value of [get_nominal_radius()]: a child
    inside the ball stays at its distance, a child outside lands on the
    sphere. *)
Theorem crossover_projects (g : t) (m : TrManager.t) (x1 x2 c1 c2 : sample)
    (tape tape' : list draw) :
  tr_manager g = Some m ->
  _crossover g x1 x2 tape = Ok (c1, c2, tape') ->
  exists c r idx,
    tr_center g = Some c /\ TrManager.get_nominal_radius m = Ok r /\
    1 <= idx < num_dims (search_space g) - 1 /\
    hamming_distance c c1 = Z.min (hamming_distance c (splice idx x1 x2)) r /\
    hamming_distance c c2 = Z.min (hamming_distance c (splice idx x2 x1)) r.
Proof.
  intros Hm H. unfold _crossover in H. rewrite Hm in H.
  step_ok H. step_ok H. apply randint_ok in Ha0 as [Hidx _].
  step_ok H. apply lift_ok in Ha0 as [Hc ->]. apply of_option_ok in Hc.
  step_ok H. step_ok H. apply ret_ok in H as [H _]. injection H as -> ->.
  apply project_distance in Ha0 as (r1 & Hr1 & H1).
  apply project_distance in Ha1 as (r2 & Hr2 & H2).
  rewrite Hr1 in Hr2. injection Hr2 as <-.
  exists a1, r1, a0. repeat split; try assumption; lia.
Qed.

Lemma crossover_projects_witness :
  exists g m c r idx,
    ga_tr3 = Ok g /\ tr_manager g = Some m /\
    _crossover g [0; 1; 1] [1; 0; 0] [DInt 1; DSubset [0; 2]%nat]
      = Ok ([0; 1; 0], [0; 0; 0], []) /\
    tr_center g = Some c /\ TrManager.get_nominal_radius m = Ok r /\
    1 <= idx < num_dims (search_space g) - 1 /\
    hamming_distance c [0; 1; 0] = Z.min (hamming_distance c (splice idx [0; 1; 1] [1; 0; 0])) r /\
    hamming_distance c [0; 0; 0] = Z.min (hamming_distance c (splice idx [1; 0; 0] [0; 1; 1])) r.
Proof.
  eexists. eexists.
  match goal with
  | |- exists c r idx, ga_tr3 = Ok ?g /\ tr_manager _ = Some ?m /\ _ =>
      assert (Hg : ga_tr3 = Ok g) by (vm_compute; reflexivity);
      assert (Hm : tr_manager g = Some m) by reflexivity;
      assert (Hc : _crossover g [0; 1; 1] [1; 0; 0] [DInt 1; DSubset [0; 2]%nat]
                   = Ok ([0; 1; 0], [0; 0; 0], [])) by (vm_compute; reflexivity);
      destruct (crossover_projects g m _ _ _ _ _ _ Hm Hc)
        as (c & r & idx & H1 & H2 & H3 & H4 & H5)
  end.
  exists c, r, idx. repeat split; try assumption; lia.
Defined.

(** ** Mutation *)

Lemma gather_ok (row r : sample) (cols : list nat) :
  gather row cols = Ok r ->
  length r = length cols /\
  forall k c, cols !! k = Some c -> r !! k = row !! c /\ is_Some (row !! c).
Proof.
  unfold gather. intros H. split; [apply (map_res_length _ _ _ H)|].
  intros k c Hk. destruct (map_res_lookup _ _ _ k c H Hk) as (b & Hb & Hf).
  apply of_option_ok in Hf. unfold sample in *. split; [congruence | eauto].
Qed.

(** A list built entry by entry. *)
Lemma map_res_intro {A B : Type} (f : A -> res B) (l : list A) : forall r,
  length r = length l ->
  (forall i a b, l !! i = Some a -> r !! i = Some b -> f a = Ok b) ->
  map_res f l = Ok r.
Proof.
  induction l as [|a l IH]; intros [|b r] Hlen Hf; simpl in *; try discriminate;
    [reflexivity|].
  rewrite (Hf 0%nat a b eq_refl eq_refl). simpl.
  rewrite (IH r); [reflexivity | lia |].
  intros i a' b' Ha Hb. apply (Hf (S i) a' b' Ha Hb).
Qed.

Lemma list_index_lookup (i : nat) (m : list nat) (k : nat) :
  list_index i m = Some k -> m !! k = Some i.
Proof.
  revert k. induction m as [|a m IH]; intros k H; simpl in H; [discriminate|].
  destruct (Nat.eqb a i) eqn:E.
  - injection H as <-. apply Nat.eqb_eq in E. subst. reflexivity.
  - destruct (list_index i m) as [j|]; [|discriminate].
    injection H as <-. simpl. apply IH. reflexivity.
Qed.

(** X12.  The two reorderings of a constructed optimiser undo each other:
    a row of the space's length gathered by [map_to_canonical] and then by
    [map_to_original] is the row itself. *)
Theorem canonical_then_original (ss : SearchSpace) (ps np ne : Z) (so ar : bool)
    (tr : option TrManager.t) (sampled : list sample) (g : t) (row r1 : sample) :
  init ss ps np ne so ar tr sampled = Ok g ->
  length row = length (map_to_canonical g) ->
  gather row (map_to_canonical g) = Ok r1 ->
  gather r1 (map_to_original g) = Ok row.
Proof.
  unfold init. intros H Hlen Hg. do 5 step_ok H. injection H as <-.
  cbn [map_to_canonical map_to_original] in *.
  set (can := nominal_dims ss ++ ordinal_dims ss) in *.
  destruct (gather_ok _ _ _ Hg) as [Hl1 Hr1].
  pose proof (map_res_length _ _ _ Ha3) as Hl3. rewrite length_seq in Hl3.
  unfold gather. apply map_res_intro; [congruence|].
  intros i k b Hk Hb.
  assert (Hi : (i < length can)%nat)
    by (apply lookup_lt_Some in Hk; lia).
  destruct (map_res_lookup _ _ _ i i Ha3) as (k' & Hk' & Hidx).
  { rewrite lookup_seq_lt by exact Hi. reflexivity. }
  rewrite Hk in Hk'. injection Hk' as <-.
  apply of_option_ok, list_index_lookup in Hidx.
  destruct (Hr1 k i Hidx) as [Hrk _]. unfold sample in *.
  rewrite Hrk, Hb. reflexivity.
Qed.

Lemma canonical_then_original_witness :
  exists g,
    init ss_mixed 2 2 2 true false None [[0; 0; 0]; [1; 1; 1]] = Ok g /\
    map_to_canonical g = [1; 2; 0]%nat /\
    gather [7; 8; 9] (map_to_canonical g) = Ok [8; 9; 7] /\
    gather [8; 9; 7] (map_to_original g) = Ok [7; 8; 9].
Proof.
  eexists.
  match goal with
  | |- init ?ss ?ps ?np ?ne ?so ?ar ?tr ?sm = Ok ?g /\ _ =>
      assert (Hg : init ss ps np ne so ar tr sm = Ok g) by (vm_compute; reflexivity);
      pose proof (canonical_then_original ss ps np ne so ar tr sm g [7; 8; 9] [8; 9; 7]
                    Hg eq_refl eq_refl) as Hrt
  end.
  repeat split; try assumption; reflexivity.
Defined.

Lemma map_res_Forall2 {A B : Type} (f : A -> res B) (l : list A) (r : list B) :
  map_res f l = Ok r -> Forall2 (fun a b => f a = Ok b) l r.
Proof.
  revert r. induction l as [|a l IH]; simpl; intros r H.
  - injection H as <-. constructor.
  - apply res_bind_ok in H as (b & Hb & H). apply res_bind_ok in H as (bs & Hbs & H).
    injection H as <-. constructor; [exact Hb | apply IH, Hbs].
Qed.

(** The candidate a trust-region mutation accepts is the result of one
    of its draws. *)
Lemma mutate_row_tr_draw (fuel : nat) (g : t) (m : TrManager.t) (row xr cand : sample) :
  forall tape tape',
    mutate_row_tr fuel g m row xr tape = Ok (cand, tape') ->
    exists t1, mutate_draw g row xr t1 = Ok (cand, tape').
Proof.
  induction fuel as [|fuel IH]; intros tape tape' H; simpl in H; [discriminate|].
  step_ok H. step_ok H. apply lift_ok in Ha0 as [_ ->].
  step_ok H. apply lift_ok in Ha0 as [_ ->].
  destruct (hamming_distance a0 a <=? a1).
  - apply ret_ok in H as [-> ->]. eauto.
  - apply (IH _ _ H).
Qed.

Lemma mutate_rows_spec (g : t) (rows : list (sample * sample)) :
  forall tape rs tape',
    mutate_rows g rows tape = Ok (rs, tape') ->
    Forall2 (fun p cand =>
               (exists t1 t2, mutate_draw g (fst p) (snd p) t1 = Ok (cand, t2)) /\
               (forall m, tr_manager g = Some m ->
                  exists c r, tr_center g = Some c /\
                    TrManager.radii m !! "nominal" = Some r /\
                    hamming_distance c cand <= r)) rows rs.
Proof.
  induction rows as [|[row xr] rows IH]; intros tape rs tape' H; cbn [mutate_rows] in H.
  - apply ret_ok in H as [-> _]. constructor.
  - step_ok H. step_ok H. apply ret_ok in H as [-> _].
    constructor; [|apply (IH _ _ _ Ha0)]. cbn [fst snd].
    destruct (tr_manager g) as [m|] eqn:Em.
    + split.
      * destruct (mutate_row_tr_draw _ _ _ _ _ _ _ _ Ha) as [t1 Ht1]. eauto.
      * intros m' E. injection E as <-.
        apply (GAFacts.mutate_row_tr_within _ _ _ _ _ _ _ _ Ha).
    + split; [eauto | discriminate].
Qed.

(** X13.  Under a trust region every row returned by [_mutate] is the
    reordering, by [map_to_original], of a candidate whose Hamming distance
    to the centre is at most the radius registered as "nominal". *)
Theorem mutate_within_registered_radius (g : t) (m : TrManager.t) (x x' : list sample)
    (tape tape' : list draw) :
  tr_manager g = Some m ->
  _mutate g x tape = Ok (x', tape') ->
  Forall (fun r' =>
            exists cand c r,
              gather cand (map_to_original g) = Ok r' /\
              tr_center g = Some c /\ TrManager.radii m !! "nominal" = Some r /\
              hamming_distance c cand <= r) x'.
Proof.
  intros Hm H. unfold _mutate in H.
  step_ok H. step_ok H. step_ok H. apply lift_ok in H as [H _].
  apply mutate_rows_spec in Ha1. apply map_res_Forall2 in H.
  clear Ha0. revert x' H. generalize dependent (combine x a0).
  induction a1 as [|cand cands IH]; intros rows Hrows x' H.
  - inversion H; subst. constructor.
  - inversion H as [|? ? ? ? Hg Hrest]; subst.
    inversion Hrows as [|? ? ? ? [_ Hc] Hrs]; subst.
    constructor; [|apply (IH _ Hrs _ Hrest)].
    destruct (Hc m Hm) as (c & r & Hc1 & Hr & Hd).
    exists cand, c, r. repeat split; assumption.
Qed.

Lemma mutate_within_registered_radius_witness :
  exists g m,
    ga_tr3 = Ok g /\ tr_manager g = Some m /\
    _mutate g [[1; 0; 0]] [DInt 1; DPick 0; DInt 0; DPick 0] = Ok ([[0; 0; 0]], []) /\
    Forall (fun r' =>
              exists cand c r,
                gather cand (map_to_original g) = Ok r' /\
                tr_center g = Some c /\ TrManager.radii m !! "nominal" = Some r /\
                hamming_distance c cand <= r) [[0; 0; 0]].
Proof.
  eexists. eexists.
  match goal with
  | |- ga_tr3 = Ok ?g /\ tr_manager _ = Some ?m /\ _ =>
      assert (Hg : ga_tr3 = Ok g) by (vm_compute; reflexivity);
      assert (Hm : tr_manager g = Some m) by reflexivity;
      assert (Hx : _mutate g [[1; 0; 0]] [DInt 1; DPick 0; DInt 0; DPick 0]
                   = Ok ([[0; 0; 0]], [])) by (vm_compute; reflexivity);
      pose proof (mutate_within_registered_radius g m _ _ _ _ Hm Hx) as Hall
  end.
  repeat split; assumption.
Defined.

Lemma hamming_distance_self (x : sample) : hamming_distance x x = 0.
Proof. induction x as [|u x IH]; simpl; [reflexivity|]. rewrite Z.eqb_refl, IH. reflexivity. Qed.

Lemma hamming_distance_insert_self (x : sample) (i : nat) (u v : Z) :
  x !! i = Some u -> u <> v -> hamming_distance x (<[i := v]> x) = 1.
Proof.
  revert i. induction x as [|a x IH]; intros [|i] Hx Hne; simpl in *; try discriminate.
  - injection Hx as ->. rewrite (proj2 (Z.eqb_neq u v) Hne), hamming_distance_self.
    reflexivity.
  - rewrite Z.eqb_refl. pose proof (IH i Hx Hne) as E. unfold sample in *. rewrite E.
    reflexivity.
Qed.

Lemma gather_identity (row : sample) : gather row (seq 0 (length row)) = Ok row.
Proof.
  unfold gather. apply map_res_intro; [rewrite length_seq; reflexivity|].
  intros i a b Ha Hb. apply lookup_seq in Ha as [-> _]. simpl.
  unfold sample in *. rewrite Hb. reflexivity.
Qed.

Lemma map_gather_identity (n : nat) (x : list sample) :
  Forall (fun row => length row = n) x ->
  map_res (fun row => gather row (seq 0 n)) x = Ok x.
Proof.
  induction 1 as [|row x <- _ IH]; simpl; [reflexivity|].
  rewrite gather_identity. simpl. rewrite IH. reflexivity.
Qed.

(** One draw on a row and itself changes one coordinate. *)
Lemma mutate_draw_one_coordinate (g : t) (row r : sample) (tape tape' : list draw) :
  mutate_draw g row row tape = Ok (r, tape') ->
  length r = length row /\ hamming_distance row r = 1.
Proof.
  intros H. apply GAFacts.mutate_draw_range in H
    as (idx & lbi & ubi & cur & cat & Hidx & _ & _ & Hcur & _ & Hne & Hset).
  apply py_get_nonneg in Hcur; [|lia].
  unfold py_set in Hset. rewrite py_pos_nonneg in Hset by lia.
  destruct (idx <? Z.of_nat (length row)); [|discriminate]. injection Hset as <-.
  split; [apply length_insert|].
  apply (hamming_distance_insert_self row _ cur cat Hcur). congruence.
Qed.

(** X14.  When the canonical order is the original one, [_mutate] returns
    for every row a row of the same length at Hamming distance exactly 1:
    one coordinate received another category, with or without a trust
    region. *)
Theorem mutate_changes_one_coordinate (g : t) (n : nat) (x x' : list sample)
    (tape tape' : list draw) :
  map_to_canonical g = seq 0 n -> map_to_original g = seq 0 n ->
  Forall (fun row => length row = n) x ->
  _mutate g x tape = Ok (x', tape') ->
  Forall2 (fun row r => length r = n /\ hamming_distance row r = 1) x x'.
Proof.
  intros Hc Ho Hx H. unfold _mutate in H. rewrite Hc, Ho in H.
  step_ok H. step_ok H. apply lift_ok in Ha0 as [Hg ->].
  rewrite (map_gather_identity n x Hx) in Hg. injection Hg as <-.
  step_ok H. apply lift_ok in H as [H _].
  apply mutate_rows_spec in Ha0.
  assert (Hrs : Forall2 (fun row r => length r = n /\ hamming_distance row r = 1) x a0).
  { clear H. revert a0 Ha0. induction Hx as [|row x Hrow Hx IH]; intros rs Hrs;
      simpl in Hrs; inversion Hrs as [|? ? ? ? [(t1 & t2 & Hd) _] Hrest]; subst;
      constructor; [|apply IH, Hrest].
    simpl in Hd. apply mutate_draw_one_coordinate in Hd as [Hl Hh].
    split; [exact Hl | exact Hh]. }
  assert (Hlen : Forall (fun r => length r = n) a0).
  { clear -Hrs. induction Hrs as [|? ? ? ? [Hl _] _ IH]; constructor; assumption. }
  rewrite (map_gather_identity n a0 Hlen) in H. injection H as <-. exact Hrs.
Qed.

Lemma mutate_changes_one_coordinate_witness :
  exists g,
    ga_mutate = Ok g /\
    _mutate g [[0; 0; 0]; [1; 1; 1]] [DInt 0; DPick 0; DInt 2; DPick 0]
      = Ok ([[1; 0; 0]; [1; 1; 0]], []) /\
    Forall2 (fun row r => length r = 3%nat /\ hamming_distance row r = 1)
      [[0; 0; 0]; [1; 1; 1]] [[1; 0; 0]; [1; 1; 0]].
Proof.
  eexists.
  match goal with
  | |- ga_mutate = Ok ?g /\ _ =>
      assert (Hg : ga_mutate = Ok g) by (vm_compute; reflexivity);
      assert (Hx : _mutate g [[0; 0; 0]; [1; 1; 1]] [DInt 0; DPick 0; DInt 2; DPick 0]
                   = Ok ([[1; 0; 0]; [1; 1; 0]], [])) by (vm_compute; reflexivity);
      assert (Hf : Forall (fun row : sample => length row = 3%nat) [[0; 0; 0]; [1; 1; 1]])
        by (repeat constructor);
      pose proof (mutate_changes_one_coordinate g 3 [[0; 0; 0]; [1; 1; 1]] _ _ _
                    eq_refl eq_refl Hf Hx) as Hall
  end.
  repeat split; assumption.
Defined.

(** ** Observations *)

Lemma argmin_row_spec (x : list sample) : forall (y : list Q) (bx : sample) (b : Q),
  length x = length y ->
  argmin_row x y = Some (bx, b) ->
  In b y /\ In bx x /\ Forall (fun v => (b <= v)%Q) y.
Proof.
  induction x as [|xi x IH]; intros [|yi y] bx b Hlen H; simpl in *; try discriminate.
  destruct (argmin_row x y) as [[xj yj]|] eqn:E.
  - destruct (IH y xj yj ltac:(lia) E) as (Hin & Hinx & Hall).
    destruct (Qle_bool yi yj) eqn:Ey; injection H as <- <-.
    + apply Qle_bool_iff in Ey. repeat split; [left; reflexivity | left; reflexivity|].
      constructor; [apply Qle_refl|].
      eapply Forall_impl; [exact Hall|]. intros v Hv. simpl in Hv.
      eapply Qle_trans; eassumption.
    + apply GAFacts.Qle_bool_false in Ey.
      repeat split; [right; exact Hin | right; exact Hinx|]. constructor; assumption.
  - injection H as <- <-. destruct x as [|x0 x]; destruct y as [|y0 y];
      simpl in *; try lia.
    + repeat split; [left; reflexivity | left; reflexivity|].
      constructor; [apply Qle_refl | constructor].
    + destruct (argmin_row x y) as [[? ?]|]; [destruct (Qle_bool y0 q)|]; discriminate.
Qed.

(** X15.  A call of [observe] that returns was given a batch that is not
    empty and has as many values as rows; it appends the batch to the
    accumulated population, and the best value it keeps is at most every
    value of the batch and at most the former best value, and is one of
    them. *)
Theorem observe_keeps_best (g g' : t) (x : list sample) (y : list Q) :
  observe g x y = Ok g' ->
  length x = length y /\ x <> [] /\
  x_pop g' = x_pop g ++ x /\ y_pop g' = y_pop g ++ y /\
  exists b,
    best_y g' = Some b /\ Forall (fun v => (b <= v)%Q) y /\
    (forall b0, best_y g = Some b0 -> (b <= b0)%Q) /\
    (In b y \/ best_y g = Some b).
Proof.
  unfold observe. intros H. step_ok H. apply py_assert_ok, Nat.eqb_eq in Ha.
  step_ok H. destruct a0 as [bx y_]. apply of_option_ok in Ha0.
  destruct (argmin_row_spec x y bx y_ Ha Ha0) as (Hin & Hinx & Hall).
  assert (Hne : x <> []) by (intros ->; contradiction).
  split; [exact Ha|]. split; [exact Hne|].
  destruct (best_y g) as [b0|] eqn:Eb.
  - destruct (Qlt_bool y_ b0) eqn:Elt; injection H as <-;
      cbn [x_pop y_pop best_y with_observation]; (split; [reflexivity|]);
      (split; [reflexivity|]).
    + exists y_. repeat split; try assumption; [|left; exact Hin].
      intros b1 E. injection E as <-. unfold Qlt_bool in Elt.
      apply negb_true_iff, GAFacts.Qle_bool_false in Elt. exact Elt.
    + exists b0. unfold Qlt_bool in Elt. apply negb_false_iff, Qle_bool_iff in Elt.
      repeat split; [ | | right; reflexivity].
      * eapply Forall_impl; [exact Hall|]. intros v Hv. simpl in Hv.
        eapply Qle_trans; eassumption.
      * intros b1 E. injection E as <-. apply Qle_refl.
  - injection H as <-. cbn [x_pop y_pop best_y with_observation].
    split; [reflexivity|]. split; [reflexivity|].
    exists y_. repeat split; try assumption; [|left; exact Hin].
    intros b1 E. discriminate.
Qed.

Lemma observe_keeps_best_witness :
  exists g g',
    ga_before_second = Ok g /\ observe g [[0; 1; 1]; [1; 0; 1]] [3; 4]%Q = Ok g' /\
    length [[0; 1; 1]; [1; 0; 1]] = length [3; 4]%Q /\
    x_pop g' = x_pop g ++ [[0; 1; 1]; [1; 0; 1]] /\
    exists b, best_y g' = Some b /\ Forall (fun v => (b <= v)%Q) [3; 4]%Q.
Proof.
  eexists. eexists.
  match goal with
  | |- ga_before_second = Ok ?g /\ observe _ ?x ?y = Ok ?g' /\ _ =>
      assert (Hg : ga_before_second = Ok g) by (vm_compute; reflexivity);
      assert (Ho : observe g x y = Ok g') by (vm_compute; reflexivity);
      destruct (observe_keeps_best g g' x y Ho) as (H1 & _ & H3 & _ & b & H5 & H6 & _)
  end.
  repeat split; try assumption. exists b. split; assumption.
Defined.

(** X16.  [initialize] is [observe] behind two further checks: it raises
    unless the batch has fewer than [pop_size] rows, each of [num_dims]
    coordinates, and otherwise does what [observe] does. *)
Theorem initialize_is_guarded_observe (g : t) (x : list sample) (y : list Q) :
  initialize g x y =
    if (Z.of_nat (length x) <? pop_size g)
       && forallb (fun row => Z.of_nat (length row) =? num_dims (search_space g)) x
    then observe g x y
    else Raise.
Proof.
  unfold initialize, observe.
  destruct (Z.of_nat (length x) <? pop_size g); [|reflexivity].
  destruct (Nat.eqb (length x) (length y));
    [|destruct (forallb (fun row => Z.of_nat (length row) =? num_dims (search_space g)) x);
      reflexivity].
  destruct (forallb (fun row => Z.of_nat (length row) =? num_dims (search_space g)) x);
    [|reflexivity].
  cbn [py_assert res_bind andb].
  destruct (argmin_row x y) as [[bx y_]|]; [|reflexivity].
  cbn [of_option res_bind].
  destruct (best_y g) as [b0|]; [|reflexivity].
  destruct (Qlt_bool y_ b0); reflexivity.
Qed.

(** ** Roulette-wheel selection *)

Lemma fold_Qmax_ge (l : list Q) : forall a,
  (a <= fold_left Qmax l a)%Q /\ Forall (fun v => (v <= fold_left Qmax l a)%Q) l.
Proof.
  induction l as [|b l IH]; intros a; simpl; [split; [apply Qle_refl | constructor]|].
  destruct (IH (Qmax a b)) as [Ha Hall]. split; [|constructor; [|exact Hall]].
  - eapply Qle_trans; [apply Q.le_max_l | exact Ha].
  - eapply Qle_trans; [apply Q.le_max_r | exact Ha].
Qed.

Lemma fold_Qplus_acc (l : list Q) : forall a,
  (fold_left Qplus l a == a + fold_left Qplus l 0)%Q.
Proof.
  induction l as [|b l IH]; intros a; simpl; [ring|].
  rewrite (IH (a + b)%Q), (IH (0 + b)%Q). ring.
Qed.

Lemma Qsum_cons (a : Q) (l : list Q) : (Qsum (a :: l) == a + Qsum l)%Q.
Proof. unfold Qsum. simpl. rewrite fold_Qplus_acc. ring. Qed.

Lemma Qsum_nonneg (l : list Q) : Forall (fun v => (1 <= v)%Q) l -> (0 <= Qsum l)%Q.
Proof.
  induction 1 as [|a l Ha _ IH]; [unfold Qsum; simpl; apply Qle_refl|].
  rewrite Qsum_cons. apply Qle_trans with (0 + 0)%Q; [apply Qle_refl|].
  apply Qplus_le_compat; [|exact IH]. eapply Qle_trans; [|exact Ha]. discriminate.
Qed.

Lemma Qsum_pos (l : list Q) : l <> [] -> Forall (fun v => (1 <= v)%Q) l -> (0 < Qsum l)%Q.
Proof.
  intros Hne Hall. destruct l as [|a l]; [congruence|].
  rewrite Qsum_cons. apply Qlt_le_trans with (1 + 0)%Q; [reflexivity|].
  apply Qplus_le_compat; [exact (List.Forall_inv Hall)|].
  apply Qsum_nonneg, (List.Forall_inv_tail Hall).
Qed.

Lemma Qsum_map_div (s : Q) (l : list Q) :
  (Qsum (map (fun v => v / s) l) == Qsum l / s)%Q.
Proof.
  induction l as [|a l IH]; [unfold Qsum, Qdiv; simpl; ring|].
  cbn [map]. rewrite !Qsum_cons, IH. unfold Qdiv. ring.
Qed.

Lemma cumsum_from_last (l : list Q) : forall acc d,
  l <> [] -> (List.last (cumsum_from acc l) d == acc + Qsum l)%Q.
Proof.
  induction l as [|a l IH]; intros acc d Hne; [congruence|].
  rewrite Qsum_cons. destruct l as [|b l].
  - unfold Qsum. simpl. ring.
  - change (cumsum_from acc (a :: b :: l))
      with ((acc + a)%Q :: cumsum_from (acc + a) (b :: l)).
    change (List.last ((acc + a)%Q :: cumsum_from (acc + a) (b :: l)) d)
      with (List.last (cumsum_from (acc + a) (b :: l)) d).
    rewrite IH by discriminate. ring.
Qed.

Lemma cumsum_from_length (l : list Q) : forall acc,
  length (cumsum_from acc l) = length l.
Proof. induction l as [|a l IH]; intros acc; simpl; [|rewrite IH]; reflexivity. Qed.

Lemma searchsorted_below (cp : list Q) (u d : Q) :
  cp <> [] -> (u <= List.last cp d)%Q -> (searchsorted cp u < length cp)%nat.
Proof.
  induction cp as [|c cp IH]; intros Hne Hlast; [congruence|].
  simpl. destruct (Qlt_bool c u) eqn:E; [|lia].
  destruct cp as [|c' cp].
  - simpl in Hlast. unfold Qlt_bool in E. apply negb_true_iff in E.
    apply Qle_bool_iff in Hlast. congruence.
  - assert (searchsorted (c' :: cp) u < length (c' :: cp))%nat
      by (apply IH; [discriminate | exact Hlast]).
    simpl in *. lia.
Qed.

(** X17.  The cumulative fitness distribution has one entry per row and
    ends with 1, so the index that roulette-wheel selection looks up for a
    draw of [[0, 1)] is always a row of the sorted population. *)
Theorem roulette_index_in_range (y_sorted cp : list Q) (u d : Q) :
  cum_prob y_sorted = Ok cp -> (u < 1)%Q ->
  length cp = length y_sorted /\ (List.last cp d == 1)%Q /\
  (searchsorted cp u < length y_sorted)%nat.
Proof.
  unfold cum_prob. destruct y_sorted as [|min_y rest]; [discriminate|].
  set (norm_y := if Qlt_bool min_y 0 then _ else _).
  assert (Hlen : length norm_y = length (min_y :: rest))
    by (unfold norm_y; destruct (Qlt_bool min_y 0); [apply length_map | reflexivity]).
  destruct norm_y as [|a l] eqn:En; [simpl in Hlen; discriminate|].
  set (max_y := fold_left Qmax l a).
  set (norm' := map (fun v => (max_y - v + 1)%Q) (a :: l)).
  intros H Hu.
  assert (E0 : cp = cumsum_from 0 (map (fun v => (v / Qsum norm')%Q) norm'))
    by congruence.
  clear H. subst cp.
  assert (Hone : Forall (fun v => (1 <= v)%Q) norm').
  { unfold norm'. apply List.Forall_forall. intros v Hv.
    apply in_map_iff in Hv as (w & <- & Hw).
    assert (w <= max_y)%Q.
    { destruct (fold_Qmax_ge l a) as [Ha Hall]. destruct Hw as [<-|Hw]; [exact Ha|].
      rewrite List.Forall_forall in Hall. apply Hall, Hw. }
    apply Qle_trans with (0 + 1)%Q; [discriminate|].
    apply Qplus_le_compat; [|apply Qle_refl].
    unfold Qminus. rewrite <- (Qplus_opp_r w). apply Qplus_le_compat; [assumption|apply Qle_refl]. }
  assert (Hpos : (0 < Qsum norm')%Q) by (apply Qsum_pos; [discriminate | exact Hone]).
  assert (Hl : length (cumsum_from 0 (map (fun v => (v / Qsum norm')%Q) norm'))
               = length (min_y :: rest)).
  { rewrite cumsum_from_length, length_map. unfold norm'. rewrite length_map. exact Hlen. }
  assert (Hlast : (List.last (cumsum_from 0 (map (fun v => (v / Qsum norm')%Q) norm')) d
                   == 1)%Q).
  { rewrite cumsum_from_last by discriminate. rewrite Qsum_map_div. field.
    intros E. rewrite E in Hpos. discriminate. }
  split; [exact Hl|]. split; [exact Hlast|].
  rewrite <- Hl. apply (searchsorted_below _ u d).
  - intros E. apply (f_equal length) in E. rewrite Hl in E. discriminate.
  - rewrite Hlast. apply Qlt_le_weak, Hu.
Qed.

Lemma roulette_index_in_range_witness :
  exists cp,
    cum_prob [1; 2; 3; 4]%Q = Ok cp /\
    length cp = 4%nat /\ (List.last cp 0 == 1)%Q /\
    (searchsorted cp (3 # 4) < 4)%nat.
Proof.
  eexists.
  match goal with
  | |- cum_prob ?ys = Ok ?cp /\ _ =>
      assert (Hc : cum_prob ys = Ok cp) by (vm_compute; reflexivity);
      pose proof (roulette_index_in_range ys cp (3 # 4) 0 Hc eq_refl) as Hr
  end.
  split; [exact Hc | exact Hr].
Defined.

(** ** Elitism *)

Lemma In_take {A} (x : A) (l : list A) : forall n : nat, In x (take n l) -> In x l.
Proof.
  induction l as [|a l IH]; intros [|n]; simpl; try tauto.
  intros [E|H]; [left; exact E | right; exact (IH n H)].
Qed.

Lemma In_drop {A} (x : A) (l : list A) : forall n : nat, In x (drop n l) -> In x l.
Proof.
  induction l as [|a l IH]; intros [|n]; simpl; try tauto.
  intros H. right. exact (IH n H).
Qed.

Lemma StronglySorted_take_drop (l : list (sample * Q)) : forall n : nat,
  StronglySorted y_le l ->
  StronglySorted y_le (take n l) /\
  forall e d, In e (take n l) -> In d (drop n l) -> y_le e d.
Proof.
  induction l as [|a l IH]; intros [|n] Hs; simpl.
  1-3: split; [constructor | intros e d []].
  inversion Hs as [|? ? Hl Ha]; subst. destruct (IH n Hl) as [Ht Hd]. split.
  - constructor; [exact Ht|]. apply List.Forall_forall. intros e He.
    rewrite List.Forall_forall in Ha. apply Ha. exact (In_take _ _ _ He).
  - intros e d [<-|He] Hdd; [|apply (Hd e d He Hdd)].
    rewrite List.Forall_forall in Ha. apply Ha. exact (In_drop _ _ _ Hdd).
Qed.

(** X18.  After a generation step with [num_elite >= 0] the elite set has
    at most [num_elite] members, in ascending order of value, and no
    candidate that was left out (of the sorted population on the first
    generation, of the former elite set merged with the population's top
    afterwards) has a lower value than a member. *)
Theorem generation_elite_best (g g' : t) (tape tape' : list draw) :
  _generate_new_population g tape = Ok (g', tape') ->
  0 <= num_elite g ->
  let sorted := sort_by_y (combine (x_pop g) (y_pop g)) in
  let top := py_take (num_elite g) sorted in
  let candidates :=
    match x_elite g, y_elite g with
    | Some xe, Some ye => combine (xe ++ map fst top) (ye ++ map snd top)
    | _, _ => sorted
    end in
  exists elite dropped,
    x_elite g' = Some (map fst elite) /\ y_elite g' = Some (map snd elite) /\
    Z.of_nat (length elite) <= num_elite g /\
    StronglySorted y_le elite /\
    (forall e d, In e elite -> In d dropped -> (snd e <= snd d)%Q) /\
    (forall p, In p candidates <-> In p (elite ++ dropped)).
Proof.
  intros H Hne sorted top candidates.
  destruct (GAFacts.generation_elite g g' tape tape' H) as (elite & Hu & Hx & Hy & _).
  fold sorted in Hu. unfold update_elite, py_take in Hu.
  rewrite (proj2 (Z.leb_le 0 (num_elite g)) Hne) in Hu.
  assert (Hgen : forall cands : list (sample * Q),
            StronglySorted y_le cands ->
            Z.of_nat (length (take (Z.to_nat (num_elite g)) cands)) <= num_elite g /\
            StronglySorted y_le (take (Z.to_nat (num_elite g)) cands) /\
            (forall e d, In e (take (Z.to_nat (num_elite g)) cands) ->
                         In d (drop (Z.to_nat (num_elite g)) cands) -> (snd e <= snd d)%Q) /\
            (forall p, In p cands <->
                       In p (take (Z.to_nat (num_elite g)) cands
                             ++ drop (Z.to_nat (num_elite g)) cands))).
  { intros cands Hs. destruct (StronglySorted_take_drop cands (Z.to_nat (num_elite g)) Hs)
      as [Ht Hd].
    split; [rewrite length_take; lia|]. split; [exact Ht|]. split; [exact Hd|].
    intros p. rewrite take_drop. reflexivity. }
  unfold candidates, top, py_take. rewrite (proj2 (Z.leb_le 0 (num_elite g)) Hne).
  destruct (x_elite g) as [xe|]; destruct (y_elite g) as [ye|]; try discriminate;
    injection Hu as <-.
  - set (merged := combine _ _).
    destruct (Hgen (sort_by_y merged) (GAFacts.sort_by_y_sorted merged))
      as (H1 & H2 & H3 & H4).
    exists (take (Z.to_nat (num_elite g)) (sort_by_y merged)),
           (drop (Z.to_nat (num_elite g)) (sort_by_y merged)).
    repeat split; try assumption.
    + intros Hp. apply H4, GAFacts.sort_by_y_in, Hp.
    + intros Hp. apply GAFacts.sort_by_y_in, H4, Hp.
  - destruct (Hgen sorted (GAFacts.sort_by_y_sorted _)) as (H1 & H2 & H3 & H4).
    exists (take (Z.to_nat (num_elite g)) sorted), (drop (Z.to_nat (num_elite g)) sorted).
    repeat split; try assumption; apply H4.
Qed.

Lemma generation_elite_best_witness :
  exists g g' tape' elite,
    ga_before_second = Ok g /\
    _generate_new_population g tape_second = Ok (g', tape') /\
    y_elite g' = Some (map snd elite) /\
    Z.of_nat (length elite) <= num_elite g /\ StronglySorted y_le elite.
Proof.
  eexists. eexists. eexists.
  match goal with
  | |- exists elite, ga_before_second = Ok ?g /\
         _generate_new_population _ ?tp = Ok (?g', ?tp') /\ _ =>
      assert (Hg : ga_before_second = Ok g) by (vm_compute; reflexivity);
      assert (H : _generate_new_population g tp = Ok (g', tp'))
        by (vm_compute; reflexivity);
      destruct (generation_elite_best g g' tp tp' H ltac:(simpl; lia))
        as (elite & dropped & _ & Hy & Hl & Hs & _)
  end.
  exists elite. repeat split; assumption.
Defined.

End GAMore.

(** * Further properties of the bandit *)

Module MABMore.

Import MAB Scenarios.

Open Scope R_scope.

(** ** observe needs a distribution *)

(** X19.  [observe] reads [prob_dist], which the constructor leaves at
    [None]: on a space with at least one dimension it fails until
    [update_prob_dist] has run. *)
Theorem observe_requires_prob_dist (s s' : t) (x : list sample) (y : list R) :
  prob_dist s = None -> (0 < num_dims (search_space s))%Z ->
  observe s x y <> Ok s'.
Proof.
  intros Hpd Hnd H. unfold observe in H.
  step_ok H. step_ok H. destruct a0 as [bx y_]. do 3 step_ok H.
  assert (Hr : exists ds, py_range 0 (num_dims (search_space s)) = 0%Z :: ds).
  { unfold py_range. destruct (Z.to_nat (num_dims (search_space s) - 0)) eqn:E; [lia|].
    simpl. eauto. }
  destruct Hr as [ds Hr]. rewrite Hr in Ha3. cbn [update_dims] in Ha3.
  step_ok Ha3. apply MABFacts.update_dim_ok in Ha4 as (lw & lw' & _ & Hd & _).
  destruct Hd as (k & g & pd & p & rw & nv & _ & _ & Hsome & _).
  congruence.
Qed.

Lemma observe_requires_prob_dist_witness :
  exists s, mab_two = Ok s /\ forall s', observe s [[0%Z]] [1] <> Ok s'.
Proof.
  eexists. split; [reflexivity|].
  intros s'. apply observe_requires_prob_dist; [reflexivity | simpl; lia].
Defined.

(** ** Shapes and clipping along a history *)

Lemma update_weights_keeps (P : R -> Prop) (pd : list R) (n g : R) (k : Z)
    (nv : list Z) : forall (rw lw lw' : list R),
  (forall v, P (clip v (-30) 30)) ->
  update_weights lw pd n g k nv rw = Ok lw' ->
  length lw' = length lw /\ (Forall P lw -> Forall P lw').
Proof.
  induction nv as [|ht nv IH]; intros rw lw lw' HP H; cbn [update_weights] in H.
  - injection H as <-. split; [reflexivity | tauto].
  - destruct rw as [|G rw]; [discriminate|]. do 3 step_ok H.
    destruct (IH rw a1 lw' HP H) as [Hl Hf].
    split; [rewrite Hl; apply (GAMore.py_set_length _ _ _ _ Ha1)|].
    intros Hlw. apply Hf. apply List.Forall_forall. intros w Hw.
    destruct (GAMore.py_set_elem _ _ _ _ _ Ha1 Hw) as [->|Hin]; [apply HP|].
    rewrite List.Forall_forall in Hlw. apply Hlw, Hin.
Qed.

Lemma py_set_Forall2 {A B : Type} (Q : A -> B -> Prop) (l l' : list A) (m : list B)
    (i : Z) (v a : A) :
  py_set l i v = Ok l' -> py_get l i = Ok a ->
  (forall b, Q a b -> Q v b) -> Forall2 Q l m -> Forall2 Q l' m.
Proof.
  unfold py_set, py_get. destruct (py_pos l i) as [k|]; [|discriminate].
  intros H Ha HQ HF. injection H as <-. apply of_option_ok in Ha.
  apply Forall2_lookup. intros j. destruct (decide (k = j)) as [->|Hne].
  - rewrite list_lookup_insert_eq by (apply lookup_lt_Some in Ha; exact Ha).
    destruct (m !! j) as [b|] eqn:Eb.
    + constructor. apply HQ. apply (Forall2_lookup_lr _ _ _ _ _ _ HF Ha Eb).
    + apply Forall2_length in HF. apply lookup_lt_Some in Ha.
      apply lookup_ge_None in Eb. lia.
  - rewrite list_lookup_insert_ne by exact Hne.
    apply (proj1 (Forall2_lookup _ _ _) HF j).
Qed.

Lemma update_dims_keeps (s : t) (x : list sample) (M : list (list R)) (dims : list Z) :
  forall lws lws',
    update_dims s x M lws dims = Ok lws' ->
    (Forall (Forall (fun w => -30 <= w <= 30)) lws ->
     Forall (Forall (fun w => -30 <= w <= 30)) lws') /\
    (Forall2 (fun lw n => Z.of_nat (length lw) = n) lws (n_cats s) ->
     Forall2 (fun lw n => Z.of_nat (length lw) = n) lws' (n_cats s)).
Proof.
  induction dims as [|d dims IH]; intros lws lws' H; cbn [update_dims] in H.
  - injection H as <-. tauto.
  - step_ok H. destruct (IH a lws' H) as [Hc Hs].
    apply MABFacts.update_dim_ok in Ha as (lw & lw' & Hget & Hupd & Hset).
    destruct Hupd as (k & g & pd & p & rw & nv & _ & _ & _ & _ & _ & _ & Hupd).
    destruct (update_weights_keeps (fun w => -30 <= w <= 30) _ _ _ _ _ _ _ _
                MABFacts.clip_range Hupd) as [Hl Hf].
    split.
    + intros Hlws. apply Hc. apply List.Forall_forall. intros l Hl'.
      rewrite List.Forall_forall in Hlws.
      destruct (GAMore.py_set_elem _ _ _ _ _ Hset Hl') as [->|Hin]; [|apply Hlws, Hin].
      apply Hf. apply Hlws. unfold py_get in Hget.
      destruct (py_pos lws d) as [q|]; [|discriminate]. apply of_option_ok in Hget.
      apply list_elem_of_In. eapply list_elem_of_lookup_2. exact Hget.
    + intros Hsh. apply Hs.
      apply (py_set_Forall2 _ lws a (n_cats s) d lw' lw Hset Hget); [|exact Hsh].
      intros b Hb. rewrite Hl. exact Hb.
Qed.


Lemma map_res_zeros (l : list Z) (r : list (list R)) :
  map_res zeros l = Ok r ->
  Forall (fun n => (0 <= n)%Z) l /\ r = map (fun n => repeat 0 (Z.to_nat n)) l.
Proof.
  revert r. induction l as [|n l IH]; intros r H; cbn [map_res] in H.
  - injection H as <-. split; [constructor | reflexivity].
  - do 2 step_ok H. injection H as <-. destruct (IH a0 Ha0) as [Hf ->].
    unfold zeros in Ha. destruct (n <? 0)%Z eqn:E; [discriminate|].
    injection Ha as <-. apply Z.ltb_ge in E. split; [constructor; assumption | reflexivity].
Qed.

(** What the constructor builds. *)
Lemma init_state (ss : SearchSpace) (b m rt : Z) (nb : bool) (tr : option TrManager.t)
    (s : t) :
  init ss b m nb rt tr = Ok s ->
  n_cats s = map (fun ub => (ub + 1)%Z) (nominal_ub ss ++ ordinal_ub ss) /\
  gamma s = map (gamma_of b (2 * IZR m / 3)) (n_cats s) /\
  log_weights s = map (fun n => repeat 0 (Z.to_nat n)) (n_cats s) /\
  Forall (fun n => (0 <= n)%Z) (n_cats s) /\
  prob_dist s = None /\ best_y s = None /\ data_buffer s = buffer_empty.
Proof.
  unfold init. intros H. do 5 step_ok H. injection H as <-. cbn.
  destruct (map_res_zeros _ _ Ha1) as [Hf ->]. repeat split. exact Hf.
Qed.

(** The constructor returns a bandit only when every rate is a finite
    number. *)
Lemma init_rates_finite (ss : SearchSpace) (b m rt : Z) (nb : bool)
    (tr : option TrManager.t) (s : t) :
  init ss b m nb rt tr = Ok s -> forallb (rate_finite b m) (n_cats s) = true.
Proof.
  unfold init. intros H. do 4 step_ok H.
  apply res_bind_ok in H as (u & Hu & H). injection H as <-. cbn [n_cats].
  destruct (forallb (rate_finite b m) _); [reflexivity | discriminate].
Qed.

(** With [max_n_iter = 0] the rate of [ss_ten] is a division by the float
    zero: the constructor raises nothing and its object holds [inf]. *)
Example init_zero_iterations : init ss_ten 1 0 false 500 None = NotFinite.
Proof. reflexivity. Qed.

Lemma init_shaped_clipped (ss : SearchSpace) (b m rt : Z) (nb : bool)
    (tr : option TrManager.t) (s : t) :
  init ss b m nb rt tr = Ok s ->
  shaped s /\ clipped s /\ length (gamma s) = length (n_cats s).
Proof.
  intros H. destruct (init_state _ _ _ _ _ _ _ H) as (_ & Hg & Hlw & Hpos & _).
  unfold shaped, clipped. rewrite Hlw, Hg, length_map. clear Hlw Hg.
  split; [|split; [|reflexivity]].
  - induction Hpos as [|n l Hn _ IH]; simpl; [constructor|].
    constructor; [|exact IH]. rewrite repeat_length. lia.
  - apply List.Forall_forall. intros lw Hin. apply in_map_iff in Hin as (n & <- & _).
    apply List.Forall_forall. intros w Hw. apply repeat_spec in Hw. subst w. lra.
Qed.

(** With one weight vector and one rate per dimension,
    [update_prob_dist] returns. *)
Lemma update_prob_dist_total (s : t) :
  length (log_weights s) = length (n_cats s) ->
  length (gamma s) = length (n_cats s) ->
  exists s', update_prob_dist s = Ok s'.
Proof.
  intros Hl Hg. unfold update_prob_dist.
  assert (H : forall js, Forall (fun j => (j < length (n_cats s))%nat) js ->
            exists pd, map_res (fun j =>
              res_bind (of_option (log_weights s !! j)) (fun lw =>
              res_bind (of_option (gamma s !! j)) (fun gamma =>
              Ok (prob_of gamma lw)))) js = Ok pd).
  { induction js as [|j js IH]; intros Hjs; [exists []; reflexivity|].
    pose proof (List.Forall_inv Hjs) as Hj. simpl in Hj.
    destruct (IH (List.Forall_inv_tail Hjs)) as [pd Hpd].
    destruct (lookup_lt_is_Some_2 (log_weights s) j ltac:(lia)) as [lw Hlw].
    destruct (lookup_lt_is_Some_2 (gamma s) j ltac:(lia)) as [g Hgj].
    cbn [map_res]. rewrite Hlw, Hgj, Hpd. simpl. eauto. }
  destruct (H (seq 0 (length (n_cats s)))) as [pd Hpd].
  { apply List.Forall_forall. intros j Hj. apply in_seq in Hj. lia. }
  rewrite Hpd. simpl. eauto.
Qed.

Lemma run_preserves (I : t -> Prop) :
  (forall s c s', I s -> run_call s c = Ok s' -> I s') ->
  forall cs s s', I s -> run s cs = Ok s' -> I s'.
Proof.
  intros Hstep. induction cs as [|c cs IH]; intros s s' Hs H; cbn [run] in H.
  - injection H as <-. exact Hs.
  - step_ok H. apply (IH a s'); [|exact H]. apply (Hstep s c a Hs Ha).
Qed.

Lemma run_call_frame (s s' : t) (c : call) :
  run_call s c = Ok s' ->
  n_cats s' = n_cats s /\ gamma s' = gamma s /\ search_space s' = search_space s /\
  batch_size s' = batch_size s.
Proof.
  destruct c as [x y| |x y]; cbn [run_call]; intros H.
  - unfold initialize in H. do 2 step_ok H. destruct a0 as [bx y_].
    injection H as <-. repeat split.
  - unfold update_prob_dist in H. step_ok H. injection H as <-. repeat split.
  - unfold observe in H. do 2 step_ok H. destruct a0 as [bx y_]. do 3 step_ok H.
    injection H as <-. repeat split.
Qed.

Lemma run_call_shape (s s' : t) (c : call) :
  run_call s c = Ok s' ->
  (shaped s -> shaped s') /\ (clipped s -> clipped s').
Proof.
  destruct c as [x y| |x y]; cbn [run_call]; intros H.
  - unfold initialize in H. do 2 step_ok H. destruct a0 as [bx y_].
    injection H as <-. split; exact (fun h => h).
  - unfold update_prob_dist in H. step_ok H. injection H as <-. split; exact (fun h => h).
  - unfold observe in H. do 2 step_ok H. destruct a0 as [bx y_]. do 3 step_ok H.
    injection H as <-. unfold shaped, clipped. cbn [log_weights n_cats with_observation].
    destruct (update_dims_keeps _ _ _ _ _ _ Ha3) as [Hc Hs]. split; assumption.
Qed.

(** X20.  Along any history of [initialize], [update_prob_dist] and
    [observe] calls on a bandit that the constructor returned for a
    positive [batch_size] and a positive [max_n_iter] (so that its rates
    are finite numbers), the numbers of categories and the rates stay as
    constructed, every dimension keeps one weight per category and
    [update_prob_dist] returns; when no rate exceeds 1, so that no
    probability that [observe] divides by is zero, every weight stays in
    [-30, 30]. *)
Theorem history_keeps_shape (ss : SearchSpace) (b m rt : Z) (nb : bool)
    (tr : option TrManager.t) (s0 s : t) (cs : list call) :
  (0 < b)%Z -> (0 < m)%Z ->
  init ss b m nb rt tr = Ok s0 -> run s0 cs = Ok s ->
  n_cats s = n_cats s0 /\ gamma s = gamma s0 /\
  shaped s /\ (Forall (fun g => g <= 1) (gamma s0) -> clipped s) /\
  exists s', update_prob_dist s = Ok s'.
Proof.
  intros _ _ Hi Hr. destruct (init_shaped_clipped _ _ _ _ _ _ _ Hi) as (Hs0 & Hc0 & Hg0).
  assert (Hinv : (n_cats s = n_cats s0 /\ gamma s = gamma s0) /\ shaped s /\ clipped s).
  { apply (run_preserves
             (fun s => (n_cats s = n_cats s0 /\ gamma s = gamma s0) /\ shaped s /\ clipped s))
      with (cs := cs) (s := s0); [|repeat split; assumption | exact Hr].
    intros s1 c s2 ((Hn & Hg) & Hs & Hc) Hcall.
    destruct (run_call_frame _ _ _ Hcall) as (Hn' & Hg' & _).
    destruct (run_call_shape _ _ _ Hcall) as [Hs' Hc'].
    repeat split; [congruence | congruence | apply Hs', Hs | apply Hc', Hc]. }
  destruct Hinv as ((Hn & Hg) & Hs & Hc). repeat split; try assumption.
  - intros _. exact Hc.
  - apply update_prob_dist_total; [apply (Forall2_length _ _ _ Hs) | congruence].
Qed.

Lemma first_round_state :
  exists s0 s, mab_two = Ok s0 /\ run s0 first_round = Ok s.
Proof.
  destruct MABFacts.mab_two_ready_state as (s1 & Hs1 & _).
  destruct (MABFacts.first_observation s1 Hs1) as (s & Ho & _).
  unfold mab_two_ready in Hs1. destruct mab_two as [s0| | |] eqn:E; try discriminate.
  exists s0, s. split; [reflexivity|]. cbn [run first_round run_call].
  cbn [res_bind] in Hs1. rewrite Hs1. cbn [res_bind]. rewrite Ho. reflexivity.
Defined.

Lemma history_keeps_shape_witness :
  exists s0 s, mab_two = Ok s0 /\ run s0 first_round = Ok s /\
    n_cats s = n_cats s0 /\ shaped s /\ clipped s.
Proof.
  destruct first_round_state as (s0 & s & H0 & Hr).
  destruct (history_keeps_shape ss_two 1 3 500 false None s0 s first_round
              ltac:(lia) ltac:(lia) H0 Hr)
    as (Hn & _ & Hs & Hc & _).
  exists s0, s. repeat split; try assumption.
  apply Hc.
  destruct MABFacts.mab_two_state as (s0' & H0' & _ & _ & Hg & _).
  rewrite H0 in H0'. injection H0' as <-. rewrite Hg.
  constructor; [apply Rlt_le, MABFacts.gamma_two_bounds | constructor].
Defined.


(** ** The first distribution *)

Lemma Rsum_exp_zeros (n : nat) : Rsum (map exp (repeat 0 n)) = INR n.
Proof.
  induction n as [|n IH]; [reflexivity|].
  change (repeat 0 (S n)) with (0 :: repeat 0 n). cbn [map].
  rewrite MABFacts.Rsum_cons, IH, exp_0, S_INR. lra.
Qed.

Lemma prob_of_zeros (g : R) (n : nat) :
  (0 < n)%nat -> prob_of g (repeat 0 n) = repeat (1 / INR n) n.
Proof.
  intros Hn. unfold prob_of. rewrite Rsum_exp_zeros, length_map, repeat_length.
  assert (Hne : INR n <> 0) by (apply not_0_INR; lia).
  generalize (INR n) Hne. intros r Hr. clear Hn Hne.
  induction n as [|k IH]; [reflexivity|].
  cbn [repeat map]. rewrite exp_0, IH. f_equal. field. exact Hr.
Qed.


(** X21.  A bandit as constructed for a positive [batch_size] and a
    positive [max_n_iter] (so that its rates are finite numbers) gives, at
    its first [update_prob_dist], the probability [1 / n_cats[j]] to
    every category of every dimension [j] that has categories, whatever
    the value of the rate [gamma[j]]. *)
Theorem first_distribution_uniform (ss : SearchSpace) (b m rt : Z) (nb : bool)
    (tr : option TrManager.t) (s : t) :
  (0 < b)%Z -> (0 < m)%Z ->
  init ss b m nb rt tr = Ok s ->
  exists s' pd,
    update_prob_dist s = Ok s' /\ prob_dist s' = Some pd /\
    length pd = length (n_cats s) /\
    forall (j : nat) (n : Z), n_cats s !! j = Some n -> (0 < n)%Z ->
      pd !! j = Some (repeat (1 / IZR n) (Z.to_nat n)).
Proof.
  intros _ _ Hi. destruct (init_shaped_clipped _ _ _ _ _ _ _ Hi) as (Hs & _ & Hg).
  destruct (init_state _ _ _ _ _ _ _ Hi) as (_ & _ & Hlw & _).
  destruct (update_prob_dist_total s (Forall2_length _ _ _ Hs) Hg) as [s' Hu].
  pose proof Hu as Hu'. unfold update_prob_dist in Hu'. step_ok Hu'. injection Hu' as <-.
  exists (with_prob_dist s a), a. split; [exact Hu|]. split; [reflexivity|].
  split; [rewrite (map_res_length _ _ _ Ha); apply length_seq|].
  intros j n Hn Hpos.
  destruct (MABFacts.update_prob_dist_lookup s _ j n Hu Hn)
    as (pd & lw & g & Hpd & Hlwj & _ & Hp).
  cbn in Hpd. injection Hpd as <-. rewrite Hp. f_equal.
  rewrite Hlw, list_lookup_fmap, Hn in Hlwj. cbn in Hlwj. injection Hlwj as <-.
  rewrite prob_of_zeros by lia. rewrite INR_IZR_INZ, Z2Nat.id by lia. reflexivity.
Qed.

Lemma first_distribution_uniform_witness :
  exists s s' pd,
    mab_ten = Ok s /\ update_prob_dist s = Ok s' /\ prob_dist s' = Some pd /\
    pd !! 0%nat = Some (repeat (1 / IZR 10) (Z.to_nat 10)).
Proof.
  destruct MABFacts.mab_ten_state as (s & Hs & _ & Hn & _).
  destruct (first_distribution_uniform ss_ten 1 3 500 false None s
              ltac:(lia) ltac:(lia) Hs)
    as (s' & pd & Hu & Hpd & _ & Hj).
  exists s, s', pd. repeat split; try assumption.
  apply Hj; [rewrite Hn; reflexivity | lia].
Defined.


(** ** The range of a reward *)

Lemma Rlist_max_spec (l : list R) : forall a : R,
  a <= Rlist_max a l /\ Forall (fun v => v <= Rlist_max a l) l /\
  In (Rlist_max a l) (a :: l).
Proof.
  unfold Rlist_max. induction l as [|b l IH]; intros a; cbn [fold_left].
  - split; [lra|]. split; [constructor | left; reflexivity].
  - destruct (IH (Rmax a b)) as (H1 & H2 & H3).
    pose proof (Rmax_l a b). pose proof (Rmax_r a b).
    split; [lra|]. split; [constructor; [lra | exact H2]|].
    destruct H3 as [H3|H3]; [|right; right; exact H3].
    rewrite <- H3. unfold Rmax. destruct (Rle_dec a b); [right; left | left]; reflexivity.
Qed.

Lemma Rlist_min_spec (l : list R) : forall a : R,
  Rlist_min a l <= a /\ Forall (fun v => Rlist_min a l <= v) l /\
  In (Rlist_min a l) (a :: l).
Proof.
  unfold Rlist_min. induction l as [|b l IH]; intros a; cbn [fold_left].
  - split; [lra|]. split; [constructor | left; reflexivity].
  - destruct (IH (Rmin a b)) as (H1 & H2 & H3).
    pose proof (Rmin_l a b). pose proof (Rmin_r a b).
    split; [lra|]. split; [constructor; [lra | exact H2]|].
    destruct H3 as [H3|H3]; [|right; right; exact H3].
    rewrite <- H3. unfold Rmin. destruct (Rle_dec a b); [left | right; left]; reflexivity.
Qed.

Lemma Rlist_max_opp (l : list R) : forall a : R,
  Rlist_max (- a) (map Ropp l) = - Rlist_min a l.
Proof.
  unfold Rlist_max, Rlist_min. induction l as [|b l IH]; intros a; cbn [fold_left map].
  - reflexivity.
  - rewrite <- IH. f_equal. symmetry. apply Ropp_Rmin.
Qed.

Lemma Rlist_min_opp (l : list R) : forall a : R,
  Rlist_min (- a) (map Ropp l) = - Rlist_max a l.
Proof.
  unfold Rlist_max, Rlist_min. induction l as [|b l IH]; intros a; cbn [fold_left map].
  - reflexivity.
  - rewrite <- IH. f_equal. symmetry. apply Ropp_Rmax.
Qed.

Lemma matching_rewards_in (col : list Z) (v : Z) : forall (ys : list R) (r : R),
  In r (matching_rewards col ys v) -> In r (map Ropp ys).
Proof.
  induction col as [|c col IH]; intros [|y ys] r; cbn [matching_rewards map];
    try contradiction.
  destruct (c =? v)%Z.
  - intros [<-|H]; [left; reflexivity | right; apply IH, H].
  - intros H. right. apply IH, H.
Qed.

(** X22.  When the values in the buffer are not all equal, every reward
    lies in [-1, 1]: a matched one is [2 (r - lo) / (hi - lo) - 1] with
    [lo <= r <= hi] the least, the selected and the greatest negated
    value, and an unmatched one is 0. *)
Theorem reward_range (buf : DataBuffer R) (_x : sample) (dim : Z) (y0 r : R)
    (ys : list R) :
  buf_y buf = y0 :: ys -> Rlist_max y0 ys <> Rlist_min y0 ys ->
  reward_of buf _x dim = Ok r ->
  -1 <= r <= 1.
Proof.
  intros Hy Hne H. unfold reward_of in H. do 2 step_ok H. rewrite Hy in H.
  destruct (matching_rewards a (y0 :: ys) a0) as [|r0 rewards] eqn:Em.
  - injection H as <-. lra.
  - injection H as <-. unfold rescale.
    destruct (Req_dec_T (Rlist_max y0 ys) (Rlist_min y0 ys)) as [E|_]; [contradiction|].
    rewrite Rlist_max_opp, Rlist_min_opp.
    destruct (Rlist_max_spec rewards r0) as (_ & _ & Hin).
    rewrite <- Em in Hin. apply matching_rewards_in in Hin.
    apply in_map_iff in Hin as (w & Hw & Hin).
    destruct (Rlist_max_spec ys y0) as (Hx1 & Hx2 & _).
    destruct (Rlist_min_spec ys y0) as (Hn1 & Hn2 & _).
    rewrite List.Forall_forall in Hx2, Hn2.
    assert (Hb : Rlist_min y0 ys <= w <= Rlist_max y0 ys).
    { destruct Hin as [<-|Hin]; [lra|]. split; [apply Hn2, Hin | apply Hx2, Hin]. }
    set (rm := Rlist_max r0 rewards) in *.
    set (hi := Rlist_max y0 ys) in *. set (lo := Rlist_min y0 ys) in *.
    assert (Hd : 0 < hi - lo) by lra.
    assert (E : 2 * (rm - - hi) / (- lo - - hi) - 1 = (hi - w + (lo - w)) / (hi - lo)).
    { rewrite <- Hw. field. lra. }
    rewrite E. split.
    + apply Rmult_le_reg_r with (hi - lo); [exact Hd|].
      unfold Rdiv. rewrite Rmult_assoc, Rinv_l by lra. lra.
    + apply Rmult_le_reg_r with (hi - lo); [exact Hd|].
      unfold Rdiv. rewrite Rmult_assoc, Rinv_l by lra. lra.
Qed.


Lemma reward_range_witness :
  exists r, reward_of buffer_two [0%Z] 0%Z = Ok r /\ -1 <= r <= 1.
Proof.
  eexists. split; [reflexivity|].
  apply (reward_range buffer_two [0%Z] 0%Z 1 _ [2]); [reflexivity | | reflexivity].
  unfold Rlist_max, Rlist_min, Rmax, Rmin. cbn [fold_left].
  destruct (Rle_dec 1 2); lra.
Defined.

(** ** Categories outside the batch *)

Lemma update_weights_frame (pd : list R) (n g : R) (k : Z) (c : Z) (nv : list Z) :
  forall (rw lw lw' : list R),
    Forall (fun v => (0 <= v)%Z) nv -> (0 <= c)%Z -> ~ In c nv ->
    update_weights lw pd n g k nv rw = Ok lw' ->
    py_get lw' c = py_get lw c.
Proof.
  induction nv as [|ht nv IH]; intros rw lw lw' Hpos Hc Hnot H; cbn [update_weights] in H.
  - injection H as <-. reflexivity.
  - destruct rw as [|G rw]; [discriminate|]. do 3 step_ok H.
    rewrite (IH rw a1 lw' (List.Forall_inv_tail Hpos) Hc
               (fun Hin => Hnot (or_intror Hin)) H).
    eapply py_set_get_ne; [exact (List.Forall_inv Hpos) | exact Hc | | exact Ha1].
    intros ->. apply Hnot. left. reflexivity.
Qed.

(** X23.  [observe] changes, in a dimension, the weights of the categories
    that occur in that column of the batch only: the weight vector keeps
    its length and every other category keeps its weight. *)
Theorem observe_keeps_other_weights (s s' : t) (x : list sample) (y : list R)
    (j c : Z) (nominal_vars : list Z) :
  observe s x y = Ok s' -> (0 <= j < num_dims (search_space s))%Z ->
  column x j = Ok nominal_vars -> Forall (fun v => (0 <= v)%Z) nominal_vars ->
  (0 <= c)%Z -> ~ In c nominal_vars ->
  exists lw lw',
    py_get (log_weights s) j = Ok lw /\ py_get (log_weights s') j = Ok lw' /\
    length lw' = length lw /\ py_get lw' c = py_get lw c.
Proof.
  unfold observe. intros H Hj Hcol Hpos Hc Hnot.
  do 2 step_ok H. destruct a0 as [bx y_]. do 3 step_ok H.
  injection H as <-. cbn [log_weights with_observation].
  destruct (MABFacts.update_dims_ok s x a1 _ _ _ (py_range_NoDup 0 _)
              ltac:(apply List.Forall_forall; intros d Hd; apply py_range_in in Hd; lia)
              Ha3) as [_ Hin].
  destruct (Hin j (proj2 (py_range_in _ _ _) Hj))
    as (lw & lw' & Hlw & Hlw' & k & g & pd & p & reward & nv & _ & _ & _ & _
        & _ & Hcol' & Hupd).
  rewrite Hcol in Hcol'. injection Hcol' as <-.
  exists lw, lw'. split; [exact Hlw|]. split; [exact Hlw'|]. split.
  - apply (update_weights_keeps (fun _ => True) _ _ _ _ _ _ _ _ (fun _ => I) Hupd).
  - apply (update_weights_frame _ _ _ _ c _ _ _ _ Hpos Hc Hnot Hupd).
Qed.

Lemma observe_keeps_other_weights_witness :
  exists s s' lw lw',
    mab_two_ready = Ok s /\ observe s [[0%Z]] [1] = Ok s' /\
    py_get (log_weights s) 0 = Ok lw /\ py_get (log_weights s') 0 = Ok lw' /\
    length lw' = length lw /\ py_get lw' 1 = py_get lw 1.
Proof.
  destruct MABFacts.mab_two_ready_state as (s & Hs & Hss & _).
  destruct (MABFacts.first_observation s Hs) as (s' & Ho & _).
  destruct (observe_keeps_other_weights s s' [[0%Z]] [1] 0%Z 1%Z [0%Z] Ho)
    as (lw & lw' & H1 & H2 & H3 & H4).
  - rewrite Hss. simpl. lia.
  - reflexivity.
  - repeat constructor. lia.
  - lia.
  - simpl. intros [E|[]]. discriminate.
  - exists s, s', lw, lw'. repeat split; assumption.
Defined.

(** ** The best value *)






(** ** A rate above 1 *)

(** The first round of [mab_ten_observed]: the weight of category 0 is
    the clipped sum that the reward 300 of the first batch, divided by
    the probability 1/10, gives. *)
Lemma mab_ten_observed_weights :
  exists s, mab_ten_observed = Ok s /\ n_cats s = [10%Z] /\
    gamma s = [gamma_of 1 (2 * IZR 3 / 3) 10] /\
    log_weights s =
      [clip (0 + INR 1 * (1 * - -300 / (1 / INR 10)) * gamma_of 1 (2 * IZR 3 / 3) 10
             / IZR 10) (-30) 30 :: repeat 0 9].
Proof.
  destruct MABFacts.mab_ten_state as (s0 & Hs0 & _ & Hn & Hg & Hlw).
  unfold mab_ten_observed. rewrite Hs0. cbn [res_bind].
  assert (Hu : update_prob_dist s0
               = Ok (with_prob_dist s0 [prob_of (gamma_of 1 (2 * IZR 3 / 3) 10)
                                          (repeat 0 10)])).
  { unfold update_prob_dist. rewrite Hn, Hg, Hlw. reflexivity. }
  rewrite Hu. cbn [res_bind].
  assert (Hss : search_space s0 = ss_ten /\ data_buffer s0 = buffer_empty /\
                best_y s0 = None).
  { unfold mab_ten in Hs0. injection Hs0 as <-. repeat split. }
  destruct Hss as (Hss & Hbuf & Hby).
  assert (Hr : reward_of (buffer_append buffer_empty [[0%Z]] [-300]) [0%Z] 0%Z
               = Ok (- -300)).
  { apply (MABFacts.reward_of_degenerate _ [0%Z] 0%Z [0%Z] 0%Z (- -300) []
             (-300) []); reflexivity. }
  assert (HM : mab_rewards_of (buffer_append buffer_empty [[0%Z]] [-300]) 1 [[0%Z]]
               = Ok [[- -300]]).
  { unfold mab_rewards_of. change (py_range 0 1) with [0%Z]. cbn [map_res].
    rewrite Hr. reflexivity. }
  eexists. split.
  - unfold observe. cbn [data_buffer best_y search_space log_weights with_prob_dist].
    rewrite Hbuf, Hby, Hss, Hlw.
    change (num_dims ss_ten) with 1%Z. rewrite HM. change (py_range 0 1) with [0%Z].
    cbn [py_assert length Nat.eqb res_bind argmin_row of_option Z.leb Z.compare update_dims].
    unfold update_dim. cbn [n_cats gamma prob_dist with_prob_dist].
    rewrite Hn, Hg, prob_of_zeros by lia.
    reflexivity.
  - cbn [n_cats gamma log_weights with_observation with_prob_dist].
    repeat split; assumption.
Qed.

Lemma mab_ten_observed_state :
  exists s, mab_ten_observed = Ok s /\ n_cats s = [10%Z] /\
    gamma s = [gamma_of 1 (2 * IZR 3 / 3) 10] /\
    log_weights s = [30 :: repeat 0 9].
Proof.
  destruct mab_ten_observed_weights as (s & Hs & Hn & Hg & Hlw).
  exists s. repeat split; try assumption. rewrite Hlw. do 2 f_equal.
  pose proof MABFacts.gamma_ten_above_one as Hgt.
  set (g := gamma_of 1 (2 * IZR 3 / 3) 10) in *.
  replace (0 + INR 1 * (1 * - -300 / (1 / INR 10)) * g / IZR 10) with (300 * g)
    by (simpl; field).
  unfold clip, Rmin, Rmax.
  destruct (Rle_dec (300 * g) (-30)); destruct (Rle_dec _ 30); lra.
Qed.

(** With the rate of [mab_ten] above 1, the distribution that
    [update_prob_dist] stores after the first round gives a negative
    number to category 0. *)
Lemma uncapped_rate_negative_probability :
  exists s s' pd p q,
    mab_ten_observed = Ok s /\ update_prob_dist s = Ok s' /\
    prob_dist s' = Some pd /\ pd !! 0%nat = Some p /\ p !! 0%nat = Some q /\ q < 0.
Proof.
  destruct mab_ten_observed_state as (s & Hs & Hn & Hg & Hlw).
  assert (Hu : exists s', update_prob_dist s = Ok s').
  { unfold update_prob_dist. rewrite Hn, Hg, Hlw. simpl. eauto. }
  destruct Hu as [s' Hu].
  destruct (MABFacts.update_prob_dist_lookup s s' 0%nat 10%Z Hu)
    as (pd & lw & g & Hpd & Hlw' & Hgj & Hp); [rewrite Hn; reflexivity|].
  rewrite Hlw in Hlw'. injection Hlw' as <-.
  rewrite Hg in Hgj. injection Hgj as <-.
  eexists s, s', pd, _, _. split; [exact Hs|]. split; [exact Hu|].
  split; [exact Hpd|]. split; [exact Hp|]. split; [reflexivity|].
  cbn [length map repeat].
  assert (Hg2 : 5 / 4 < gamma_of 1 (2 * IZR 3 / 3) 10).
  { unfold gamma_of. cbn [Z.ltb Z.compare Pos.compare Pos.compare_cont].
    destruct MABFacts.e_bounds as [He1 He2]. pose proof MABFacts.ln_10_bound as Hl.
    replace (10 / 1) with 10 by lra.
    apply Rle_lt_trans with (sqrt (25 / 16)).
    - replace (25 / 16) with ((5 / 4) * (5 / 4)) by lra.
      rewrite sqrt_square by lra. lra.
    - apply sqrt_lt_1_alt. split; [lra|].
      set (D := (exp 1 - 1) * 1 * (2 * 3 / 3)).
      assert (HD : 0 < D <= 4) by (unfold D; lra).
      apply (Rmult_lt_reg_r D); [lra|].
      unfold Rdiv at 2. rewrite Rmult_assoc, Rinv_l by lra. nra. }
  set (g := gamma_of 1 (2 * IZR 3 / 3) 10) in *.
  assert (He : 31 < exp 30) by (pose proof (exp_ineq1 30 ltac:(lra)); lra).
  assert (Hnorm : Rsum (exp 30 :: map exp (repeat 0 9)) = exp 30 + 9).
  { rewrite MABFacts.Rsum_cons, Rsum_exp_zeros. simpl. lra. }
  change (exp 30 :: exp 0 :: exp 0 :: exp 0 :: exp 0 :: exp 0 :: exp 0 :: exp 0
            :: exp 0 :: exp 0 :: [])
    with (exp 30 :: map exp (repeat 0 9)).
  rewrite Hnorm.
  assert (Ht : 1 / 2 < exp 30 / (exp 30 + 9)).
  { apply (Rmult_lt_reg_r (exp 30 + 9)); [lra|].
    unfold Rdiv at 2. rewrite Rmult_assoc, Rinv_l by lra. lra. }
  replace (INR 10) with 10 by (simpl; lra).
  nra.
Qed.

Close Scope R_scope.

End MABMore.
